(** * Connect4: the game engine of [src/src/Connect4.tsx]

    A shallow embedding of the board, the move resolver
    ([getLowestEmptyRow]), the two win detectors ([checkWinnerStatic],
    [checkWinner]), the bot ([getBotMove]) and the turn controller
    ([dropPiece], [resetGame]), followed by the properties proved of them.

    JavaScript numbers used as indices are integers [Z]; an array is a list;
    reading past either end of an array gives [undefined], which is [None]
    of an [option]; reading a property of [undefined] throws, which is
    [Err TypeError] of a [result].

    The file has three parts: the model, function by function as in the
    source; the vocabulary in which the properties are stated, with
    example boards; the properties. The bot is modelled twice, on board
    values and on boards held in a store of arrays, and the two are shown
    to agree. *)

From stdpp Require Import gmap list.
From Stdlib Require Import ZArith QArith Qround Lia.

Open Scope Z_scope.

(** * The model *)

(** ** Values *)

(** [type Player = '🔴' | '🟡' | null]. *)
Inductive Player := Red | Yellow | Null.

#[global] Instance Player_eq_dec : EqDecision Player.
Proof. solve_decision. Defined.

(** A value read from an array slot: [None] is [undefined]. *)
Abbreviation slot := (option Player).

(** [!v] is false exactly for the two tokens. *)
Definition truthy (v : slot) : bool :=
  match v with
  | Some Red | Some Yellow => true
  | Some Null | None => false
  end.

Abbreviation Board := (list (list Player)).

Inductive GameMode := TwoPlayer | SinglePlayer.

#[global] Instance GameMode_eq_dec : EqDecision GameMode.
Proof. solve_decision. Defined.

Definition ROWS : Z := 6.
Definition COLS : Z := 7.

(** ** Outcomes of running a piece of code *)

Inductive error :=
  | TypeError      (* a property of [undefined] was read or written *)
  | OutOfFuel      (* a [while] loop was cut off by the model *)
  | ArrayGrowth    (* an assignment past the end of an array, not modelled *)
  | BadHeap.       (* a reference to no object, or to one of the wrong shape *)

Inductive result (A : Type) :=
  | Ok (a : A)
  | Err (e : error).
Arguments Ok {A} a.
Arguments Err {A} e.

#[global] Instance result_ret : MRet result := λ A a, Ok a.

#[global] Instance result_bind : MBind result := λ A B k m,
  match m with
  | Ok a => k a
  | Err e => Err e
  end.

#[global] Instance result_fmap : FMap result := λ A B f m,
  match m with
  | Ok a => Ok (f a)
  | Err e => Err e
  end.

(** ** Arrays *)

(** [l[i]] for an array [l]: [undefined] outside [0 .. length-1]. *)
Definition index {A} (l : list A) (i : Z) : option A :=
  if decide (0 ≤ i) then l !! Z.to_nat i else None.

(** Whatever holds a board must answer [board[row][col]]; a board value
    does, and so does a reference to a board in a store (see [Store]). *)
Class BoardAccess (B : Type) := cell : B → Z → Z → result slot.

(** [board[row][col]] on a board value: throws when [board[row]] is
    [undefined]. *)
Definition get (board : Board) (row col : Z) : result slot :=
  match index board row with
  | None => Err TypeError
  | Some r => Ok (index r col)
  end.

#[global] Instance Board_access : BoardAccess Board := get.

(** [board[row][col] = v]. Throws when [board[row]] is [undefined]. The
    column is always one that was just read as [null] in that row; an
    assignment outside the row, which would grow the JavaScript array, is
    flagged instead of modelled. *)
Definition setCell (board : Board) (row col : Z) (v : Player) : result Board :=
  match index board row with
  | None => Err TypeError
  | Some r =>
      if decide (0 ≤ col < Z.of_nat (length r))
      then Ok (<[Z.to_nat row := <[Z.to_nat col := v]> r]> board)
      else Err ArrayGrowth
  end.

(** [Array(ROWS).fill(null).map(() => Array(COLS).fill(null))] *)
Definition initializeBoard : Board :=
  replicate (Z.to_nat ROWS) (replicate (Z.to_nat COLS) Null).

(** [board.map(row => [...row])] on a board value. *)
Definition copyBoard (board : Board) : Board := (λ row : list Player, row) <$> board.

(** [board.every(row => row.every(cell => cell !== null))] *)
Definition isFull (board : Board) : bool :=
  forallb (forallb (λ c, bool_decide (c ≠ Null))) board.

(** ** Code that only reads the board *)

(** [r >= 0 && r < ROWS && c >= 0 && c < COLS] *)
Definition inBounds (r c : Z) : bool :=
  (0 <=? r) && (r <? ROWS) && (0 <=? c) && (c <? COLS).

(** Each loop moves one cell per turn and stops outside the grid, so it
    runs at most [max ROWS COLS] times; the models get more than that. *)
Definition loopFuel : nat := Z.to_nat (ROWS + COLS).

Definition directions : list (list (Z * Z)) :=
  [ [(0, 1); (0, -1)];      (* Horizontal *)
    [(1, 0); (-1, 0)];      (* Vertical *)
    [(1, 1); (-1, -1)];     (* Diagonal \ *)
    [(1, -1); (-1, 1)] ].   (* Diagonal / *)

Section Reads.
Context {B : Type} `{BoardAccess B}.

(** The loop of [getLowestEmptyRow], entered with [row = n - 1]. *)
Fixpoint scanRows (board : B) (col : Z) (n : nat) : result Z :=
  match n with
  | O => Ok (-1)
  | S k =>
      v ← cell board (Z.of_nat k) col;
      if decide (v = Some Null) then Ok (Z.of_nat k) else scanRows board col k
  end.

Definition getLowestEmptyRow (board : B) (col : Z) : result Z :=
  scanRows board col (Z.to_nat ROWS).

(** The [while] loop of [checkWinnerStatic]: [count] is the counter on
    entry, [(r, c)] the cell to look at next. *)
Fixpoint countWhile (fuel : nat) (board : B) (player : slot)
    (count r c dr dc : Z) : result Z :=
  match fuel with
  | O => Err OutOfFuel
  | S fuel =>
      if inBounds r c then
        v ← cell board r c;
        if decide (v = player)
        then countWhile fuel board player (count + 1) (r + dr) (c + dc) dr dc
        else Ok count
      else Ok count
  end.

(** The [while] loop of [checkWinner]: [line] is the array on entry. *)
Fixpoint pushWhile (fuel : nat) (board : B) (player : slot)
    (line : list (Z * Z)) (r c dr dc : Z) : result (list (Z * Z)) :=
  match fuel with
  | O => Err OutOfFuel
  | S fuel =>
      if inBounds r c then
        v ← cell board r c;
        if decide (v = player)
        then pushWhile fuel board player (line ++ [(r, c)]) (r + dr) (c + dc) dr dc
        else Ok line
      else Ok line
  end.

(** [for (const [dr, dc] of direction)] in [checkWinnerStatic] *)
Fixpoint countDirection (board : B) (player : slot) (row col : Z)
    (direction : list (Z * Z)) (count : Z) : result Z :=
  match direction with
  | [] => Ok count
  | (dr, dc) :: rest =>
      count' ← countWhile loopFuel board player count (row + dr) (col + dc) dr dc;
      countDirection board player row col rest count'
  end.

(** [for (const direction of directions)] in [checkWinnerStatic] *)
Fixpoint countDirections (board : B) (player : slot) (row col : Z)
    (dirs : list (list (Z * Z))) : result bool :=
  match dirs with
  | [] => Ok false
  | direction :: rest =>
      count ← countDirection board player row col direction 1;
      if decide (4 ≤ count) then Ok true
      else countDirections board player row col rest
  end.

Definition checkWinnerStatic (board : B) (row col : Z) : result bool :=
  player ← cell board row col;
  if truthy player then countDirections board player row col directions
  else Ok false.

(** [for (const [dr, dc] of direction)] in [checkWinner] *)
Fixpoint lineDirection (board : B) (player : slot) (row col : Z)
    (direction : list (Z * Z)) (line : list (Z * Z)) : result (list (Z * Z)) :=
  match direction with
  | [] => Ok line
  | (dr, dc) :: rest =>
      line' ← pushWhile loopFuel board player line (row + dr) (col + dc) dr dc;
      lineDirection board player row col rest line'
  end.

(** [for (const direction of directions)] in [checkWinner] *)
Fixpoint lineDirections (board : B) (player : slot) (row col : Z)
    (dirs : list (list (Z * Z))) : result (option (list (Z * Z))) :=
  match dirs with
  | [] => Ok None
  | direction :: rest =>
      line ← lineDirection board player row col direction [(row, col)];
      if decide (4 ≤ length line)%nat then Ok (Some line)
      else lineDirections board player row col rest
  end.

(** The result is the line, or [None] for [null]. *)
Definition checkWinner (board : B) (row col : Z) : result (option (list (Z * Z))) :=
  player ← cell board row col;
  if truthy player then lineDirections board player row col directions
  else Ok None.

(** The loop over [centerCols]. *)
Fixpoint firstOpen (board : B) (cols : list Z) : result (option Z) :=
  match cols with
  | [] => Ok None
  | col :: rest =>
      row ← getLowestEmptyRow board col;
      if decide (row ≠ -1) then Ok (Some col) else firstOpen board rest
  end.

(** The loop that fills [validCols]. *)
Fixpoint collectValid (board : B) (cols : list Z) (validCols : list Z)
    : result (list Z) :=
  match cols with
  | [] => Ok validCols
  | col :: rest =>
      row ← getLowestEmptyRow board col;
      if decide (row ≠ -1) then collectValid board rest (validCols ++ [col])
      else collectValid board rest validCols
  end.

End Reads.

(** ** The bot *)

(** [for (let col = 0; col < COLS; col++)] visits these columns in turn. *)
Definition columns : list Z := seqZ 0 COLS.

Definition centerCols : list Z := [3; 2; 4; 1; 5; 0; 6].

(** [botPlayer === '🔴' ? '🟡' : '🔴'] *)
Definition opponentOf (botPlayer : Player) : Player :=
  if decide (botPlayer = Red) then Yellow else Red.

(** The body of the two simulation loops of [getBotMove] for one column:
    copy the board, drop [player]'s token on the copy, test for a win. *)
Definition simulate (board : Board) (col : Z) (player : Player) : result bool :=
  let testBoard := copyBoard board in
  row ← getLowestEmptyRow testBoard col;
  if decide (row ≠ -1) then
    testBoard ← setCell testBoard row col player;
    checkWinnerStatic testBoard row col
  else Ok false.

(** A simulation loop: the first column whose simulation wins, if any. *)
Fixpoint firstWinning (board : Board) (player : Player) (cols : list Z)
    : result (option Z) :=
  match cols with
  | [] => Ok None
  | col :: rest =>
      won ← simulate board col player;
      if (won : bool) then Ok (Some col) else firstWinning board player rest
  end.

(** [random] is the value [Math.random()] returns, a number in [[0, 1)];
    the product and [Math.floor] are taken exactly. The result is a column,
    or [None] for [undefined] (an index outside [validCols]). *)
Definition getBotMove (board : Board) (botPlayer : Player) (random : Q)
    : result (option Z) :=
  let opponent := opponentOf botPlayer in
  win ← firstWinning board botPlayer columns;
  match win with
  | Some col => Ok (Some col)
  | None =>
      block ← firstWinning board opponent columns;
      match block with
      | Some col => Ok (Some col)
      | None =>
          center ← firstOpen board centerCols;
          match center with
          | Some col => Ok (Some col)
          | None =>
              validCols ← collectValid board columns [];
              Ok (index validCols
                    (Qfloor (random * inject_Z (Z.of_nat (length validCols)))))
          end
      end
  end.

(** ** The turn controller *)

Record GameState := mkGameState {
  board : Board;
  currentPlayer : Player;
  winner : Player;
  winningLine : option (list (Z * Z));
  gameMode : GameMode;
  isBotThinking : bool;
  animatingPiece : option (Z * Z)
}.

(** What a handler asks of its environment: a state update
    ([setGameState(prev => ...)]), the drop sound, or a callback to run
    after a delay. A callback is the list of effects it will ask for in
    turn, or the error it throws. *)
#[local] Unset Elimination Schemes.
Inductive effect :=
  | SetGameState (updater : GameState → GameState)
  | PlayDropSound
  | SetTimeout (callback : result (list effect)) (ms : Z).
#[local] Set Elimination Schemes.

(** The state after the updates among [effects], applied in order. *)
Definition updates (effects : list effect) (state : GameState) : GameState :=
  fold_left (λ s e, match e with SetGameState f => f s | _ => s end) effects state.

(** The callbacks scheduled among [effects]. *)
Definition timers (effects : list effect) : list (result (list effect)) :=
  omap (λ e, match e with SetTimeout cb _ => Some cb | _ => None end) effects.

(** The callback [dropPiece] hands to [setTimeout]: [gameState], [newBoard],
    [row] and [col] are the variables it closes over. *)
Definition dropPiece_timeout (gameState : GameState) (newBoard : Board)
    (row col : Z) : result (list effect) :=
  newBoard ← setCell newBoard row col (currentPlayer gameState);
  winningLine ← checkWinner newBoard row col;
  let nextPlayer := if decide (currentPlayer gameState = Red) then Yellow else Red in
  let isGameOver :=
    match winningLine with Some _ => true | None => false end || isFull newBoard in
  Ok [SetGameState (λ prev,
        {| board := newBoard;
           currentPlayer := nextPlayer;
           winner := match winningLine with
                     | Some _ => currentPlayer gameState
                     | None => Null
                     end;
           winningLine := winningLine;
           gameMode := gameMode prev;
           isBotThinking :=
             bool_decide (gameMode prev = SinglePlayer) && negb isGameOver
             && bool_decide (nextPlayer = Yellow);
           animatingPiece := None |})].

(** [gameState] is the state of the render the handler was created in. *)
Definition dropPiece (gameState : GameState) (col : Z) : result (list effect) :=
  if truthy (Some (winner gameState)) || isBotThinking gameState
     || bool_decide (animatingPiece gameState ≠ None)
  then Ok []
  else
    let newBoard := copyBoard (board gameState) in
    row ← getLowestEmptyRow newBoard col;
    if decide (row = -1) then Ok []
    else
      Ok [ SetGameState (λ prev,
             {| board := board prev;
                currentPlayer := currentPlayer prev;
                winner := winner prev;
                winningLine := winningLine prev;
                gameMode := gameMode prev;
                isBotThinking := isBotThinking prev;
                animatingPiece := Some (row, col) |});
           PlayDropSound;
           SetTimeout (dropPiece_timeout gameState newBoard row col) 600 ].

Definition resetGame : list effect :=
  [ SetGameState (λ prev,
      {| board := initializeBoard;
         currentPlayer := Red;
         winner := Null;
         winningLine := None;
         gameMode := gameMode prev;
         isBotThinking := false;
         animatingPiece := None |}) ].

(** [!gameState.winner && gameState.board.every(...)] *)
Definition isDraw (gameState : GameState) : bool :=
  negb (truthy (Some (winner gameState))) && isFull (board gameState).

(** The argument of [useState]: the state of the first render. *)
Definition initialState : GameState :=
  {| board := initializeBoard;
     currentPlayer := Red;
     winner := Null;
     winningLine := None;
     gameMode := TwoPlayer;
     isBotThinking := false;
     animatingPiece := None |}.

(** [setGameMode] sets a state that owes nothing to the previous one. *)
Definition setGameMode (mode : GameMode) : list effect :=
  [ SetGameState (λ _,
      {| board := initializeBoard;
         currentPlayer := Red;
         winner := Null;
         winningLine := None;
         gameMode := mode;
         isBotThinking := false;
         animatingPiece := None |}) ].

(** *** The bot's turn: the [useEffect] on [isBotThinking] and [board]

    The effect schedules a callback (500 ms), which chooses the move and
    schedules a second one (600 ms), whose state updater makes the move.
    The updater can throw, so the three closures are modelled as three
    functions rather than as [effect]s. *)

(** Whether the effect goes past its first line,
    [if (!gameState.isBotThinking || gameState.winner) return]. *)
Definition botEffect_runs (gameState : GameState) : bool :=
  negb (negb (isBotThinking gameState) || truthy (Some (winner gameState))).

(** A value of type [number] used as a column: [undefined] read as a
    property of a row gives [undefined], as every index outside the row
    does; [-1] stands for it. *)
Definition columnOf (botMove : option Z) : Z := default (-1) botMove.

(** The first callback. It returns [None] when it stops at
    [if (row === -1) return], and otherwise the [row] and [botMove] it
    puts in [animatingPiece] and hands to the second callback.
    [gameState] is the state of the render the effect ran in, [random]
    the value [Math.random()] would return. *)
Definition botEffect_timeout (gameState : GameState) (random : Q)
    : result (option (Z * Z)) :=
  botMove ← getBotMove (board gameState) Yellow random;
  row ← getLowestEmptyRow (board gameState) (columnOf botMove);
  if decide (row = -1) then Ok None
  else Ok (Some (row, columnOf botMove)).

(** [setGameState(prev => ({ ...prev, animatingPiece: { row, col: botMove } }))] *)
Definition botEffect_animate (row botMove : Z) (prev : GameState) : GameState :=
  {| board := board prev;
     currentPlayer := currentPlayer prev;
     winner := winner prev;
     winningLine := winningLine prev;
     gameMode := gameMode prev;
     isBotThinking := isBotThinking prev;
     animatingPiece := Some (row, botMove) |}.

(** The state updater of the second callback. *)
Definition botEffect_commit (botMove : Z) (prev : GameState) : result GameState :=
  let newBoard := copyBoard (board prev) in
  targetRow ← getLowestEmptyRow newBoard botMove;
  if decide (targetRow = -1) then Ok prev
  else
    newBoard ← setCell newBoard targetRow botMove Yellow;
    winningLine ← checkWinner newBoard targetRow botMove;
    Ok {| board := newBoard;
          currentPlayer := Red;
          winner := match winningLine with
                    | Some _ => Yellow
                    | None => Null
                    end;
          winningLine := winningLine;
          gameMode := gameMode prev;
          isBotThinking := false;
          animatingPiece := None |}.

(** *** What the render shows *)

(** The four branches of the status line. *)
Inductive Status :=
  | Wins (player : Player)
  | Drawn
  | BotThinking
  | ToMove (player : Player).

Definition status (gameState : GameState) : Status :=
  if truthy (Some (winner gameState)) then Wins (winner gameState)
  else if isDraw gameState then Drawn
  else if isBotThinking gameState then BotThinking
  else ToMove (currentPlayer gameState).

(** [gameState.winningLine?.some(([r, c]) => r === rowIdx && c === colIdx)]:
    [None] is the [undefined] of [?.] on [null]. *)
Definition isWinningCell (gameState : GameState) (rowIdx colIdx : Z) : option bool :=
  (λ line : list (Z * Z),
     existsb (λ rc, bool_decide (rc.1 = rowIdx) && bool_decide (rc.2 = colIdx)) line)
  <$> winningLine gameState.

(** ** The bot on boards held in a store

    [getBotMove] copies the board it is given and writes to the copy. What
    that does to the caller's board depends on which arrays are shared, so
    here arrays are objects in a store and a board is a reference to an array
    of references to rows. *)

Module Store.

Inductive object :=
  | Rows (rows : list positive)     (* the outer array of a board *)
  | Cells (cells : list Player).    (* one row *)

Abbreviation heap := (gmap positive object).

(** Code that may read and write the store, or throw. *)
Definition M (A : Type) : Type := heap → result (A * heap).

#[global] Instance M_ret : MRet M := λ A a h, Ok (a, h).

#[global] Instance M_bind : MBind M := λ A B k m h,
  match m h with
  | Ok (a, h') => k a h'
  | Err e => Err e
  end.

(** Code that only reads the store. *)
Definition reading {A} (f : heap → result A) : M A := λ h,
  match f h with
  | Ok a => Ok (a, h)
  | Err e => Err e
  end.

(** A new array. *)
Definition alloc (o : object) : M positive := λ h,
  let l := fresh (dom h) in Ok (l, <[l := o]> h).

Definition rowsOf (h : heap) (board : positive) : result (list positive) :=
  match h !! board with
  | Some (Rows rows) => Ok rows
  | _ => Err BadHeap
  end.

Definition cellsOf (h : heap) (row : positive) : result (list Player) :=
  match h !! row with
  | Some (Cells cells) => Ok cells
  | _ => Err BadHeap
  end.

(** [board[row][col]] through a reference. *)
Definition get (hb : heap * positive) (row col : Z) : result slot :=
  rows ← rowsOf hb.1 hb.2;
  match index rows row with
  | None => Err TypeError
  | Some r => cells ← cellsOf hb.1 r; Ok (index cells col)
  end.

#[global] Instance Ref_access : BoardAccess (heap * positive) := get.

(** [board[row][col] = v] through a reference: the row object is
    updated in place. *)
Definition setCell (board : positive) (row col : Z) (v : Player) : M unit := λ h,
  rows ← rowsOf h board;
  match index rows row with
  | None => Err TypeError
  | Some r =>
      cells ← cellsOf h r;
      if decide (0 ≤ col < Z.of_nat (length cells))
      then Ok ((), <[r := Cells (<[Z.to_nat col := v]> cells)]> h)
      else Err ArrayGrowth
  end.

(** [rows.map(row => [...row])]: each row is copied into a new array. *)
Fixpoint copyRows (rows : list positive) : M (list positive) :=
  match rows with
  | [] => mret []
  | row :: rest =>
      cells ← reading (λ h, cellsOf h row);
      row' ← alloc (Cells cells);
      rest' ← copyRows rest;
      mret (row' :: rest')
  end.

(** [board.map(row => [...row])] *)
Definition copyBoard (board : positive) : M positive :=
  rows ← reading (λ h, rowsOf h board);
  rows' ← copyRows rows;
  alloc (Rows rows').

Definition simulate (board : positive) (col : Z) (player : Player) : M bool :=
  testBoard ← copyBoard board;
  row ← reading (λ h, getLowestEmptyRow (h, testBoard) col);
  if decide (row ≠ -1) then
    _ ← setCell testBoard row col player;
    reading (λ h, checkWinnerStatic (h, testBoard) row col)
  else mret false.

Fixpoint firstWinning (board : positive) (player : Player) (cols : list Z)
    : M (option Z) :=
  match cols with
  | [] => mret None
  | col :: rest =>
      won ← simulate board col player;
      if (won : bool) then mret (Some col) else firstWinning board player rest
  end.

Definition getBotMove (board : positive) (botPlayer : Player) (random : Q)
    : M (option Z) :=
  let opponent := opponentOf botPlayer in
  win ← firstWinning board botPlayer columns;
  match win with
  | Some col => mret (Some col)
  | None =>
      block ← firstWinning board opponent columns;
      match block with
      | Some col => mret (Some col)
      | None =>
          center ← reading (λ h, firstOpen (h, board) centerCols);
          match center with
          | Some col => mret (Some col)
          | None =>
              validCols ← reading (λ h, collectValid (h, board) columns []);
              mret (index validCols
                      (Qfloor (random * inject_Z (Z.of_nat (length validCols)))))
          end
      end
  end.

(** The store holds at [board] an array of rows whose contents are [b]. *)
Definition holds (h : heap) (board : positive) (b : Board) : Prop :=
  ∃ rows, h !! board = Some (Rows rows)
          ∧ Forall2 (λ r cells, h !! r = Some (Cells cells)) rows b.

(** Put a board value in the store, one new array per row. *)
Fixpoint allocRows (b : Board) : M (list positive) :=
  match b with
  | [] => mret []
  | cells :: rest =>
      row ← alloc (Cells cells);
      rest' ← allocRows rest;
      mret (row :: rest')
  end.

Definition allocBoard (b : Board) : M positive :=
  rows ← allocRows b;
  alloc (Rows rows).

End Store.

(** * Vocabulary of the properties *)

(** A board has [ROWS] rows of [COLS] cells. *)
Definition wf_board (board : Board) : Prop :=
  length board = Z.to_nat ROWS ∧ Forall (λ r, length r = Z.to_nat COLS) board.

(** [(r, c)] is a cell of the grid and holds [player]: the test of the
    [while] loops. *)
Definition hit (board : Board) (player : slot) (r c : Z) : Prop :=
  inBounds r c = true ∧ get board r c = Ok player.

(** The cells [(r, c)], [(r + dr, c + dc)], ... met by a loop that runs [n] times. *)
Fixpoint ray (r c dr dc : Z) (n : nat) : list (Z * Z) :=
  match n with
  | O => []
  | S n => (r, c) :: ray (r + dr) (c + dc) dr dc n
  end.

(** A step of the walk: one cell along a row, a column or a diagonal. *)
Definition unit_step (dr dc : Z) : Prop :=
  -1 ≤ dr ≤ 1 ∧ -1 ≤ dc ≤ 1 ∧ (dr ≠ 0 ∨ dc ≠ 0).

(** A bound on the number of cells of the grid from [(r, c)] onwards. *)
Definition reach (r c dr dc : Z) : Z :=
  if inBounds r c then
    if decide (dc = 0) then (if decide (dr = 1) then ROWS - r else r + 1)
    else (if decide (dc = 1) then COLS - c else c + 1)
  else 0.

(** The four axes, each walked both ways by [checkWinner]. *)
Definition axes : list (Z * Z) := [(0, 1); (1, 0); (1, 1); (1, -1)].

Definition bothWays (axis : Z * Z) : list (Z * Z) :=
  [ (axis.1, axis.2); (- axis.1, - axis.2) ].

(** Four cells in a row along [(dr, dc)], all holding [p], one of them
    [(row, col)]: it is the [k]-th of the four. *)
Definition Window (board : Board) (p : Player) (row col dr dc : Z) : Prop :=
  ∃ k, 0 ≤ k ≤ 3 ∧
    ∀ i, 0 ≤ i ≤ 3 →
      hit board (Some p) (row + (i - k) * dr) (col + (i - k) * dc).

(** Four collinear, contiguous cells holding the same token include
    [(row, col)]. *)
Definition FourThrough (board : Board) (row col : Z) : Prop :=
  ∃ p, p ≠ Null ∧ ∃ dr dc, (dr, dc) ∈ axes ∧ Window board p row col dr dc.

(** [row] is where a token dropped in column [col] comes to rest: the
    lowest empty cell of the column. *)
Definition Landing (board : Board) (col row : Z) : Prop :=
  0 ≤ row < ROWS ∧ 0 ≤ col < COLS
  ∧ get board row col = Ok (Some Null)
  ∧ ∀ r, row < r < ROWS → get board r col ≠ Ok (Some Null).

(** Column [col] takes a token. *)
Definition LegalDrop (board : Board) (col : Z) : Prop :=
  ∃ row, Landing board col row.

(** Dropping [player]'s token in column [col] puts it in a four-in-a-row. *)
Definition WinningDrop (board : Board) (player : Player) (col : Z) : Prop :=
  ∃ row board', Landing board col row
    ∧ setCell board row col player = Ok board'
    ∧ FourThrough board' row col.

(** The state once a drop has been handled with nothing else happening in
    between: the handler's updates, then those of the callback it
    scheduled. *)
Definition dropPiece_settled (gameState : GameState) (col : Z) : result GameState :=
  effects ← dropPiece gameState col;
  let state := updates effects gameState in
  match timers effects with
  | [] => Ok state
  | callback :: _ => effects' ← callback; Ok (updates effects' state)
  end.

(** Red is to move on a board without a line whose column 3 holds red
    tokens in rows 5, 4 and 3 and nowhere else, with the cell above them
    empty. *)
Definition column3_scenario (gameState : GameState) : Prop :=
  wf_board (board gameState)
  ∧ currentPlayer gameState = Red
  ∧ winner gameState = Null
  ∧ isBotThinking gameState = false
  ∧ animatingPiece gameState = None
  ∧ get (board gameState) 5 3 = Ok (Some Red)
  ∧ get (board gameState) 4 3 = Ok (Some Red)
  ∧ get (board gameState) 3 3 = Ok (Some Red)
  ∧ get (board gameState) 2 3 = Ok (Some Null)
  ∧ get (board gameState) 1 3 ≠ Ok (Some Red)
  ∧ get (board gameState) 0 3 ≠ Ok (Some Red)
  ∧ ∀ row col, ¬ FourThrough (board gameState) row col.

(** The board [b] is held at [board] in rows that are distinct arrays. *)
Definition holds_apart (h : Store.heap) (board : positive) (b : Board) : Prop :=
  ∃ rows, h !! board = Some (Store.Rows rows) ∧ NoDup rows
          ∧ Forall2 (λ r cells, h !! r = Some (Store.Cells cells)) rows b.

(** The result of running in the store, without the store. *)
Definition outcome {A} (m : result (A * Store.heap)) : result A := fst <$> m.

Definition decide_iff {P Q : Prop} (HPQ : P ↔ Q) (d : Decision P) : Decision Q :=
  match d with
  | left p => left (proj1 HPQ p)
  | right n => right (λ q, n (proj2 HPQ q))
  end.

(** ** Vocabulary of the further properties *)

(** No token hangs over an empty cell: above an empty cell of a column all
    cells are empty. *)
Definition stacked (board : Board) : Prop :=
  ∀ row col, get board row col = Ok (Some Null) →
    ∀ r, 0 ≤ r < row → get board r col = Ok (Some Null).

(** The number of cells of the board that hold [v]. *)
Definition countCells (v : Player) (board : Board) : nat :=
  sum_list ((λ cells, length (filter (λ c, c = v) cells)) <$> board).

(** The board has an empty cell. *)
Definition hasEmpty (board : Board) : Prop :=
  ∃ row col, get board row col = Ok (Some Null).

(** [board'] is [board] with [v] written in cell [(row, col)]. *)
Definition placed (board : Board) (row col : Z) (v : Player) (board' : Board) : Prop :=
  wf_board board'
  ∧ get board' row col = Ok (Some v)
  ∧ ∀ r c, (r, c) ≠ (row, col) → get board' r c = get board r c.

(** The other player, as both [dropPiece] and [getBotMove] compute it. *)
Definition nextPlayerOf (player : Player) : Player :=
  if decide (player = Red) then Yellow else Red.

(** The state once the bot's turn has been handled with nothing else
    happening in between: the effect, its first callback, the update of
    [animatingPiece], and the updater of its second callback. *)
Definition botTurn_settled (gameState : GameState) (random : Q) : result GameState :=
  if botEffect_runs gameState then
    move ← botEffect_timeout gameState random;
    match move with
    | None => Ok gameState
    | Some (row, botMove) =>
        botEffect_commit botMove (botEffect_animate row botMove gameState)
    end
  else Ok gameState.

(** The states of a session in which every drop and every turn of the bot
    is left to finish before the next click: from the first render, by
    drops in any column, turns of the bot with any random draw, resets
    and changes of mode. *)
Inductive reachable : GameState → Prop :=
  | reachable_initial : reachable initialState
  | reachable_drop gameState col gameState' :
      reachable gameState →
      dropPiece_settled gameState col = Ok gameState' →
      reachable gameState'
  | reachable_bot gameState random gameState' :
      reachable gameState →
      botTurn_settled gameState random = Ok gameState' →
      reachable gameState'
  | reachable_reset gameState :
      reachable gameState → reachable (updates resetGame gameState)
  | reachable_mode gameState mode :
      reachable gameState → reachable (updates (setGameMode mode) gameState).

(** All cells of [line] hold [v]. *)
Definition lineOf (board : Board) (v : Player) (line : list (Z * Z)) : Prop :=
  Forall (λ rc, hit board (Some v) rc.1 rc.2) line.

(** The offsets, from the cell checked, of the cells of a line with [n1]
    cells one way and [n2] the other, in the order [checkWinner] pushes
    them. *)
Definition lineOffsets (n1 n2 : nat) : list Z :=
  0 :: seqZ 1 (Z.of_nat n1) ++ (Z.opp <$> seqZ 1 (Z.of_nat n2)).

(** The conditions under which [dropPiece] goes on to make the move. *)
Definition idle (gameState : GameState) : Prop :=
  truthy (Some (winner gameState)) = false
  ∧ isBotThinking gameState = false
  ∧ animatingPiece gameState = None.

(** Drops in the columns [cols], one after the other, each left to
    settle. *)
Fixpoint playDrops (cols : list Z) (gameState : GameState) : result GameState :=
  match cols with
  | [] => Ok gameState
  | col :: rest =>
      gameState ← dropPiece_settled gameState col;
      playDrops rest gameState
  end.

(** What holds of every state of a session (see [reachable]). *)
Definition invariant (gameState : GameState) : Prop :=
  wf_board (board gameState)
  ∧ stacked (board gameState)
  ∧ currentPlayer gameState ≠ Null
  ∧ animatingPiece gameState = None
  ∧ (winner gameState = Null →
     winningLine gameState = None
     ∧ ∀ row col, ¬ FourThrough (board gameState) row col)
  ∧ (winner gameState ≠ Null →
     (∃ line, winningLine gameState = Some line
        ∧ lineOf (board gameState) (winner gameState) line
        ∧ (4 ≤ length line)%nat)
     ∧ ∃ row col, FourThrough (board gameState) row col)
  ∧ (isBotThinking gameState = true →
     gameMode gameState = SinglePlayer
     ∧ winner gameState = Null
     ∧ hasEmpty (board gameState)
     ∧ currentPlayer gameState = Yellow)
  ∧ countCells Red (board gameState)
    = (countCells Yellow (board gameState)
       + if decide (currentPlayer gameState = Yellow) then 1 else 0)%nat
  ∧ (gameMode gameState = SinglePlayer → currentPlayer gameState = Yellow →
     winner gameState = Null →
     isBotThinking gameState = true ∨ ¬ hasEmpty (board gameState)).

(** ** Example boards, states and stores

    Rows are listed from row 0 (top) to row 5 (bottom). *)

Module Examples.
Abbreviation E := Null.
Abbreviation R := Red.
Abbreviation Y := Yellow.

Definition board_col3 : Board :=
  [ [E;E;E;E;E;E;E];
    [E;E;E;E;E;E;E];
    [E;E;E;E;E;E;E];
    [E;E;E;R;E;E;E];
    [E;E;E;R;Y;E;E];
    [E;E;Y;R;Y;E;E] ].

(** [board_col3] after red's fourth token in column 3. *)
Definition board_four : Board :=
  [ [E;E;E;E;E;E;E];
    [E;E;E;E;E;E;E];
    [E;E;E;R;E;E;E];
    [E;E;E;R;E;E;E];
    [E;E;E;R;Y;E;E];
    [E;E;Y;R;Y;E;E] ].

Definition state_col3 : GameState :=
  {| board := board_col3; currentPlayer := Red; winner := Null;
     winningLine := None; gameMode := SinglePlayer;
     isBotThinking := false; animatingPiece := None |}.

(** Red threatens column 3; yellow can win in column 4. *)
Definition board_race : Board :=
  [ [E;E;E;E;E;E;E];
    [E;E;E;E;E;E;E];
    [E;E;E;E;E;E;E];
    [E;E;E;R;Y;E;E];
    [E;E;E;R;Y;E;E];
    [E;E;R;R;Y;E;E] ].

(** Nobody threatens anything. *)
Definition board_quiet : Board :=
  [ [E;E;E;Y;E;E;E];
    [E;E;E;R;E;E;E];
    [E;E;E;Y;E;E;E];
    [E;E;E;R;E;E;E];
    [E;E;E;Y;E;E;E];
    [E;E;E;R;E;E;E] ].

Definition board_drawn : Board :=
  [ [R;R;Y;Y;R;R;Y];
    [Y;Y;R;R;Y;Y;R];
    [R;R;Y;Y;R;R;Y];
    [Y;Y;R;R;Y;Y;R];
    [R;R;Y;Y;R;R;Y];
    [Y;Y;R;R;Y;Y;R] ].

Definition state_drawn : GameState :=
  {| board := board_drawn; currentPlayer := Red; winner := Null;
     winningLine := None; gameMode := TwoPlayer;
     isBotThinking := false; animatingPiece := None |}.

(** Column 3 as in [board_col3], and a red row 2 around it. *)
Definition board_cross : Board :=
  [ [E;E;E;E;E;E;E];
    [E;E;E;E;E;E;E];
    [R;R;R;E;E;E;E];
    [Y;Y;Y;R;E;E;E];
    [Y;R;Y;R;E;E;E];
    [Y;Y;R;R;Y;E;E] ].

Definition state_cross : GameState :=
  {| board := board_cross; currentPlayer := Red; winner := Null;
     winningLine := None; gameMode := TwoPlayer;
     isBotThinking := false; animatingPiece := None |}.

(** Red has played column 3 in single-player mode; the bot is thinking. *)
Definition board_opening : Board :=
  [ [E;E;E;E;E;E;E];
    [E;E;E;E;E;E;E];
    [E;E;E;E;E;E;E];
    [E;E;E;E;E;E;E];
    [E;E;E;E;E;E;E];
    [E;E;E;R;E;E;E] ].

Definition state_thinking : GameState :=
  {| board := board_opening; currentPlayer := Yellow; winner := Null;
     winningLine := None; gameMode := SinglePlayer;
     isBotThinking := true; animatingPiece := None |}.

(** A two-player game: red plays column 3 and yellow column 4, four
    times and three times. *)
Definition board_won : Board :=
  [ [E;E;E;E;E;E;E];
    [E;E;E;E;E;E;E];
    [E;E;E;R;E;E;E];
    [E;E;E;R;Y;E;E];
    [E;E;E;R;Y;E;E];
    [E;E;E;R;Y;E;E] ].

Definition state_won : GameState :=
  {| board := board_won; currentPlayer := Yellow; winner := Red;
     winningLine := Some [(2, 3); (3, 3); (4, 3); (5, 3)]; gameMode := TwoPlayer;
     isBotThinking := false; animatingPiece := None |}.

(** [board_col3] in a store: rows at 1 to 6, the board at 7. *)
Definition heap_col3 : Store.heap :=
  list_to_map
    [ (1%positive, Store.Cells [E;E;E;E;E;E;E]);
      (2%positive, Store.Cells [E;E;E;E;E;E;E]);
      (3%positive, Store.Cells [E;E;E;E;E;E;E]);
      (4%positive, Store.Cells [E;E;E;R;E;E;E]);
      (5%positive, Store.Cells [E;E;E;R;Y;E;E]);
      (6%positive, Store.Cells [E;E;Y;R;Y;E;E]);
      (7%positive, Store.Rows [1; 2; 3; 4; 5; 6]%positive) ].

End Examples.

(** * Properties *)

(** Closed decidable facts are settled by evaluation. *)
Ltac by_evaluation := apply (bool_decide_unpack _); vm_compute; exact I.

(** Reduce the monad operations of [result] and nothing else. *)
Ltac monad_step := cbn [mbind result_bind fmap result_fmap mret result_ret].

(** ** Well-formed boards *)

#[global] Instance wf_board_dec board : Decision (wf_board board).
Proof. unfold wf_board. apply _. Defined.

Lemma bind_Ok {A C} (m : result A) (k : A → result C) (c : C) :
  m ≫= k = Ok c ↔ ∃ a, m = Ok a ∧ k a = Ok c.
Proof.
  destruct m as [a|e]; simpl; split.
  - eauto.
  - intros (a' & Ha & Hk). by simplify_eq.
  - discriminate.
  - intros (a' & Ha & _). discriminate.
Qed.

Lemma index_Some {A} (l : list A) (i : Z) (x : A) :
  index l i = Some x ↔ 0 ≤ i ∧ l !! Z.to_nat i = Some x.
Proof.
  unfold index. destruct (decide (0 ≤ i)) as [Hi|Hi].
  - split; [done | by intros [_ ?]].
  - split; [done | by intros [? _]].
Qed.

Lemma index_in_range {A} (l : list A) (i : Z) :
  0 ≤ i < Z.of_nat (length l) → ∃ x, index l i = Some x.
Proof.
  intros Hi. destruct (lookup_lt_is_Some_2 l (Z.to_nat i)) as [x Hx]; [lia|].
  exists x. apply index_Some. split; [lia | done].
Qed.

Lemma index_outside {A} (l : list A) (i : Z) :
  ¬ (0 ≤ i < Z.of_nat (length l)) → index l i = None.
Proof.
  intros Hi. unfold index. case_decide; [|done].
  apply lookup_ge_None. lia.
Qed.

Lemma wf_board_row board row :
  wf_board board → 0 ≤ row < ROWS →
  ∃ r, index board row = Some r ∧ length r = Z.to_nat COLS.
Proof.
  intros [Hlen Hrows] Hrow.
  destruct (index_in_range board row) as [r Hr]; [unfold ROWS in *; lia|].
  exists r. split; [done|].
  apply index_Some in Hr as [_ Hr].
  by eapply (Forall_lookup_1 _ _ _ _ Hrows).
Qed.

Lemma get_wf board row col :
  wf_board board → 0 ≤ row < ROWS → 0 ≤ col < COLS →
  ∃ p, get board row col = Ok (Some p).
Proof.
  intros Hwf Hrow Hcol. destruct (wf_board_row _ _ Hwf Hrow) as (r & Hr & Hlen).
  unfold get. rewrite Hr.
  destruct (index_in_range r col) as [p Hp]; [unfold COLS in *; lia|].
  exists p. by rewrite Hp.
Qed.

Lemma get_wf_row board row col :
  wf_board board → 0 ≤ row < ROWS → ∃ v, get board row col = Ok v.
Proof.
  intros Hwf Hrow. destruct (wf_board_row _ _ Hwf Hrow) as (r & Hr & Hlen).
  unfold get. rewrite Hr. eauto.
Qed.

Lemma get_wf_outside board row col :
  wf_board board → 0 ≤ row < ROWS → ¬ (0 ≤ col < COLS) →
  get board row col = Ok None.
Proof.
  intros Hwf Hrow Hcol. destruct (wf_board_row _ _ Hwf Hrow) as (r & Hr & Hlen).
  unfold get. rewrite Hr. f_equal. apply index_outside. unfold COLS in *. lia.
Qed.

Lemma inBounds_true r c :
  inBounds r c = true ↔ (0 ≤ r < ROWS) ∧ (0 ≤ c < COLS).
Proof. unfold inBounds. rewrite !andb_true_iff. lia. Qed.

Lemma inBounds_false r c :
  inBounds r c = false ↔ ¬ ((0 ≤ r < ROWS) ∧ (0 ≤ c < COLS)).
Proof. rewrite <- inBounds_true. by destruct (inBounds r c). Qed.

(** ** The move resolver *)

Section ScanRows.
Context {B : Type} `{BoardAccess B}.

(** The loop returns the largest row below [n] that reads as [null],
    provided no read throws. *)
Lemma scanRows_spec (board : B) (col : Z) (n : nat) :
  (∀ k, (k < n)%nat → ∃ v, cell board (Z.of_nat k) col = Ok v) →
  ∃ row, scanRows board col n = Ok row ∧
    ((row = -1 ∧
      ∀ r, 0 ≤ r < Z.of_nat n → cell board r col ≠ Ok (Some Null))
     ∨ (0 ≤ row < Z.of_nat n ∧ cell board row col = Ok (Some Null) ∧
        ∀ r, row < r < Z.of_nat n → cell board r col ≠ Ok (Some Null))).
Proof.
  induction n as [|n IH]; intros Hread; simpl.
  - exists (-1). split; [done|]. left. split; [done|]. lia.
  - destruct (Hread n) as [v Hv]; [lia|]. rewrite Hv. simpl.
    case_decide as Hnull.
    + subst v. exists (Z.of_nat n). split; [done|]. right.
      split; [lia|]. split; [done|]. lia.
    + destruct IH as (row & -> & Hrow); [intros k Hk; apply Hread; lia|].
      assert (Hn : cell board (Z.of_nat n) col ≠ Ok (Some Null)).
      { rewrite Hv. congruence. }
      exists row. split; [done|].
      destruct Hrow as [[-> Hnone] | (Hlt & Hcell & Hnone)]; [left|right].
      * split; [done|]. intros r Hr.
        destruct (decide (r = Z.of_nat n)) as [->|]; [done|]. apply Hnone. lia.
      * split; [lia|]. split; [done|]. intros r Hr.
        destruct (decide (r = Z.of_nat n)) as [->|]; [done|]. apply Hnone. lia.
Qed.

End ScanRows.

Lemma getLowestEmptyRow_total board col :
  wf_board board → ∃ row, getLowestEmptyRow board col = Ok row ∧
    ((row = -1 ∧ ∀ r, 0 ≤ r < ROWS → get board r col ≠ Ok (Some Null))
     ∨ (0 ≤ row < ROWS ∧ get board row col = Ok (Some Null) ∧
        ∀ r, row < r < ROWS → get board r col ≠ Ok (Some Null))).
Proof.
  intros Hwf.
  destruct (scanRows_spec board col (Z.to_nat ROWS)) as (row & Hscan & Hrow).
  { intros k Hk. apply get_wf_row; [done|]. unfold ROWS in *. lia. }
  exists row. split; [done|]. by rewrite Z2Nat.id in Hrow.
Qed.

(** A row that was found is a cell of the board. *)
Lemma getLowestEmptyRow_in_range board col row :
  wf_board board → getLowestEmptyRow board col = Ok row → row ≠ -1 →
  0 ≤ row < ROWS ∧ 0 ≤ col < COLS ∧ get board row col = Ok (Some Null).
Proof.
  intros Hwf Hrow Hne.
  destruct (getLowestEmptyRow_total board col Hwf) as (row' & Hrow' & Hspec).
  rewrite Hrow in Hrow'. simplify_eq.
  destruct Hspec as [[? _] | (Hlt & Hcell & _)]; [done|].
  split; [done|]. split; [|done].
  destruct (decide (0 ≤ col < COLS)) as [|Hout]; [done|].
  rewrite (get_wf_outside _ _ _ Hwf Hlt Hout) in Hcell. discriminate.
Qed.

(** C2. On a board of six rows of seven cells, [getLowestEmptyRow] returns
    the largest row index in [0 .. 5] whose cell in column [col] is [null] (the first
    one met scanning from row 5 up to row 0), and [-1] exactly when the
    column has no [null] cell; that is so in particular when [col] is not
    a column of the board. *)
Theorem getLowestEmptyRow_spec (board : Board) (col : Z) :
  wf_board board →
  ∃ row, getLowestEmptyRow board col = Ok row
    ∧ (row = -1 ∨ 0 ≤ row < ROWS)
    ∧ (row ≠ -1 →
        get board row col = Ok (Some Null)
        ∧ ∀ r, row < r < ROWS → get board r col ≠ Ok (Some Null))
    ∧ (row = -1 ↔ ∀ r, 0 ≤ r < ROWS → get board r col ≠ Ok (Some Null))
    ∧ (¬ (0 ≤ col < COLS) → row = -1).
Proof.
  intros Hwf.
  destruct (getLowestEmptyRow_total board col Hwf) as (row & Hrow & Hspec).
  exists row. split; [done|].
  destruct Hspec as [[-> Hnone] | (Hlt & Hcell & Hnone)].
  - split; [by left|]. split; [done|]. split; [done|]. done.
  - split; [by right|]. split; [done|]. split.
    + split; [lia|]. intros Hall. by destruct (Hall row Hlt).
    + intros Hout. rewrite (get_wf_outside _ _ _ Hwf Hlt Hout) in Hcell.
      discriminate.
Qed.

Lemma getLowestEmptyRow_spec_witness :
  wf_board Examples.board_col3
  ∧ ∃ row, getLowestEmptyRow Examples.board_col3 3 = Ok row
    ∧ (row = -1 ∨ 0 ≤ row < ROWS)
    ∧ (row ≠ -1 →
        get Examples.board_col3 row 3 = Ok (Some Null)
        ∧ ∀ r, row < r < ROWS → get Examples.board_col3 r 3 ≠ Ok (Some Null))
    ∧ (row = -1 ↔
        ∀ r, 0 ≤ r < ROWS → get Examples.board_col3 r 3 ≠ Ok (Some Null))
    ∧ (¬ (0 ≤ 3 < COLS) → row = -1).
Proof.
  split; [by_evaluation|].
  apply (getLowestEmptyRow_spec Examples.board_col3 3). by_evaluation.
Defined.

(** ** The two win detectors agree *)

Section Detectors.
Context {B : Type} `{BoardAccess B}.

(** The counter of [checkWinnerStatic] is the length of the line of
    [checkWinner], loop by loop. *)
Lemma countWhile_pushWhile fuel (board : B) player line r c dr dc :
  countWhile fuel board player (Z.of_nat (length line)) r c dr dc
  = (λ l, Z.of_nat (length l)) <$> pushWhile fuel board player line r c dr dc.
Proof.
  revert line r c. induction fuel as [|fuel IH]; intros line r c; simpl; [done|].
  destruct (inBounds r c); [|done].
  destruct (cell board r c) as [v|e]; simpl; [|done].
  case_decide; [|done].
  replace (Z.of_nat (length line) + 1)
    with (Z.of_nat (length (line ++ [(r, c)])))
    by (rewrite length_app; simpl; lia).
  apply IH.
Qed.

Lemma countDirection_lineDirection (board : B) player row col direction line :
  countDirection board player row col direction (Z.of_nat (length line))
  = (λ l, Z.of_nat (length l)) <$> lineDirection board player row col direction line.
Proof.
  revert line. induction direction as [|[dr dc] rest IH]; intros line;
    cbn [countDirection lineDirection]; [done|].
  rewrite countWhile_pushWhile.
  destruct (pushWhile _ _ _ _ _ _ _ _) as [line'|e]; simpl; [|done].
  apply IH.
Qed.

Lemma countDirections_lineDirections (board : B) player row col dirs :
  countDirections board player row col dirs
  = (λ line, match line with Some _ => true | None => false end)
      <$> lineDirections board player row col dirs.
Proof.
  induction dirs as [|direction rest IH];
    cbn [countDirections lineDirections]; [done|].
  change 1 with (Z.of_nat (length [(row, col)])).
  rewrite countDirection_lineDirection.
  destruct (lineDirection _ _ _ _ _ _) as [line|e]; simpl; [|done].
  destruct (decide (4 ≤ Z.of_nat (length line))),
           (decide (4 ≤ length line)%nat); try lia; done.
Qed.

Lemma checkWinnerStatic_as_checkWinner (board : B) row col :
  checkWinnerStatic board row col
  = (λ line, match line with Some _ => true | None => false end)
      <$> checkWinner board row col.
Proof.
  unfold checkWinnerStatic, checkWinner.
  destruct (cell board row col) as [player|e]; monad_step; [|done].
  destruct (truthy player); [|done].
  apply countDirections_lineDirections.
Qed.

End Detectors.

(** ** The win detector *)

Lemma length_ray r c dr dc n : length (ray r c dr dc n) = n.
Proof. revert r c. induction n as [|n IH]; intros r c; simpl; [done|]. by rewrite IH. Qed.

Lemma reach_step r c dr dc :
  unit_step dr dc → inBounds r c = true →
  0 ≤ reach (r + dr) (c + dc) dr dc < reach r c dr dc.
Proof.
  intros (Hdr & Hdc & Hne) Hin. unfold reach. rewrite Hin.
  apply inBounds_true in Hin.
  destruct (inBounds (r + dr) (c + dc)) eqn:Hnext;
    [apply inBounds_true in Hnext|];
    repeat case_decide; unfold ROWS, COLS in *; lia.
Qed.

Lemma reach_bound r c dr dc : reach r c dr dc < Z.of_nat loopFuel.
Proof.
  unfold reach. destruct (inBounds r c) eqn:Hin; [apply inBounds_true in Hin|];
    repeat case_decide; unfold loopFuel, ROWS, COLS in *; lia.
Qed.

(** With enough fuel the loop of [checkWinner] returns: it has pushed the
    cells of a ray, all of them hits, and stopped at a cell that is not. *)
Lemma pushWhile_run (board : Board) player dr dc fuel line r c :
  wf_board board → unit_step dr dc → reach r c dr dc < Z.of_nat fuel →
  ∃ n : nat,
    pushWhile fuel board player line r c dr dc = Ok (line ++ ray r c dr dc n)
    ∧ (∀ i, 0 ≤ i < Z.of_nat n → hit board player (r + i * dr) (c + i * dc))
    ∧ ¬ hit board player (r + Z.of_nat n * dr) (c + Z.of_nat n * dc).
Proof.
  intros Hwf Hstep. revert line r c.
  induction fuel as [|fuel IH]; intros line r c Hfuel.
  { unfold reach in Hfuel. destruct (inBounds r c) eqn:Hin;
      [apply inBounds_true in Hin|];
      repeat case_decide; unfold ROWS, COLS in *; lia. }
  cbn [pushWhile]. destruct (inBounds r c) eqn:Hin.
  - pose proof Hin as Hrc. apply inBounds_true in Hrc as [Hr Hc].
    destruct (get_wf board r c Hwf Hr Hc) as [p Hp].
    change (cell board r c) with (get board r c). rewrite Hp. monad_step.
    case_decide as Hplayer.
    + destruct (IH (line ++ [(r, c)]) (r + dr) (c + dc)) as (n & Hrun & Hhits & Hstop).
      { pose proof (reach_step r c dr dc Hstep Hin). lia. }
      exists (S n). split; [|split].
      * rewrite Hrun. by rewrite <- app_assoc.
      * intros i Hi. destruct (decide (i = 0)) as [->|Hi0].
        -- rewrite !Z.mul_0_l, !Z.add_0_r. split; [done|]. by rewrite Hp, Hplayer.
        -- replace (r + i * dr) with (r + dr + (i - 1) * dr) by ring.
           replace (c + i * dc) with (c + dc + (i - 1) * dc) by ring.
           apply Hhits. lia.
      * replace (r + Z.of_nat (S n) * dr) with (r + dr + Z.of_nat n * dr)
          by (rewrite Nat2Z.inj_succ; ring).
        by replace (c + Z.of_nat (S n) * dc) with (c + dc + Z.of_nat n * dc)
          by (rewrite Nat2Z.inj_succ; ring).
    + exists O. split; [by rewrite app_nil_r|]. split; [intros i Hi; lia|].
      simpl. rewrite !Z.add_0_r. intros [_ Hget]. congruence.
  - exists O. split; [by rewrite app_nil_r|]. split; [intros i Hi; lia|].
    simpl. rewrite !Z.add_0_r. intros [Hin' _]. congruence.
Qed.

(** A maximal run of [P] around [0], [n1] cells one way and [n2] the other,
    has four cells or more exactly when some window of four cells
    containing [0] lies within [P]. *)
Lemma run_window (P : Z → Prop) (n1 n2 : Z) :
  0 ≤ n1 → 0 ≤ n2 → P 0 →
  (∀ j, 1 ≤ j ≤ n1 → P j) → ¬ P (n1 + 1) →
  (∀ j, 1 ≤ j ≤ n2 → P (- j)) → ¬ P (- (n2 + 1)) →
  4 ≤ 1 + n1 + n2 ↔ ∃ k, 0 ≤ k ≤ 3 ∧ ∀ i, 0 ≤ i ≤ 3 → P (i - k).
Proof.
  intros Hn1 Hn2 H0 Hfwd Hfwd_stop Hbwd Hbwd_stop. split.
  - intros Hlen. exists (Z.min n2 3). split; [lia|]. intros i Hi.
    destruct (Z.lt_trichotomy (i - Z.min n2 3) 0) as [Hneg|[Hzero|Hpos]].
    + replace (i - Z.min n2 3) with (- (Z.min n2 3 - i)) by lia. apply Hbwd. lia.
    + by rewrite Hzero.
    + apply Hfwd. lia.
  - intros (k & Hk & Hall).
    assert (3 - k ≤ n1).
    { destruct (decide (3 - k ≤ n1)) as [|Hshort]; [done|]. exfalso.
      apply Hfwd_stop. replace (n1 + 1) with (n1 + 1 + k - k) by lia.
      apply Hall. lia. }
    assert (k ≤ n2).
    { destruct (decide (k ≤ n2)) as [|Hshort]; [done|]. exfalso.
      apply Hbwd_stop. replace (- (n2 + 1)) with (k - n2 - 1 - k) by lia.
      apply Hall. lia. }
    lia.
Qed.

Lemma directions_axes : directions = bothWays <$> axes.
Proof. reflexivity. Qed.

Lemma axes_unit_step dr dc : (dr, dc) ∈ axes → unit_step dr dc.
Proof.
  unfold axes. rewrite !elem_of_cons, elem_of_nil.
  intros [?|[?|[?|[?|[]]]]]; simplify_eq; unfold unit_step; lia.
Qed.

Lemma Window_center board p row col dr dc :
  Window board p row col dr dc → hit board (Some p) row col.
Proof.
  intros (k & Hk & Hall). specialize (Hall k Hk).
  by rewrite Z.sub_diag, !Z.mul_0_l, !Z.add_0_r in Hall.
Qed.

(** The only way a read of a board value fails is the [TypeError]. *)
Lemma get_throws (board : Board) row col e :
  get board row col = Err e → e = TypeError.
Proof. unfold get. destruct (index board row); intros Heq; by simplify_eq. Qed.

(** On any board value, well-formed or not, the loop of [checkWinner]
    ends before its fuel does. *)
Lemma pushWhile_throws (board : Board) player dr dc fuel line r c e :
  unit_step dr dc → reach r c dr dc < Z.of_nat fuel →
  pushWhile fuel board player line r c dr dc = Err e → e = TypeError.
Proof.
  intros Hstep. revert line r c.
  induction fuel as [|fuel IH]; intros line r c Hfuel.
  { unfold reach in Hfuel. destruct (inBounds r c) eqn:Hin;
      [apply inBounds_true in Hin|];
      repeat case_decide; unfold ROWS, COLS in *; lia. }
  cbn [pushWhile]. destruct (inBounds r c) eqn:Hin; [|discriminate].
  change (cell board r c) with (get board r c).
  destruct (get board r c) as [v|e'] eqn:Hget; monad_step.
  - case_decide; [|discriminate]. apply IH.
    pose proof (reach_step r c dr dc Hstep Hin). lia.
  - intros Heq. simplify_eq. by eapply get_throws.
Qed.

Lemma lineDirections_throws (board : Board) player row col axs e :
  (∀ dr dc, (dr, dc) ∈ axs → unit_step dr dc) →
  lineDirections board player row col (bothWays <$> axs) = Err e → e = TypeError.
Proof.
  intros Hsteps. induction axs as [|[dr dc] axs IH]; [discriminate|].
  rewrite fmap_cons. unfold bothWays at 1. cbn [lineDirections lineDirection fst snd].
  assert (Hstep : unit_step dr dc) by (apply Hsteps; left).
  assert (Hback : unit_step (- dr) (- dc)) by (unfold unit_step in *; lia).
  destruct (pushWhile loopFuel board player [(row, col)] _ _ dr dc)
    as [line1|e1] eqn:Hrun1; monad_step.
  2:{ intros Heq. simplify_eq.
      by eapply pushWhile_throws, Hrun1; [|apply reach_bound]. }
  destruct (pushWhile loopFuel board player line1 _ _ (- dr) (- dc))
    as [line2|e2] eqn:Hrun2; monad_step.
  2:{ intros Heq. simplify_eq.
      by eapply pushWhile_throws, Hrun2; [|apply reach_bound]. }
  case_decide; [discriminate|]. apply IH.
  intros dr' dc' Hin. apply Hsteps. by right.
Qed.

(** [checkWinner] fails only as the code does, by reading a row the board
    does not have; the cut-off of the model is never met. *)
Lemma checkWinner_throws (board : Board) row col e :
  checkWinner board row col = Err e → e = TypeError.
Proof.
  unfold checkWinner. change (cell board row col) with (get board row col).
  destruct (get board row col) as [player|e'] eqn:Hget; monad_step.
  - destruct (truthy player); [|discriminate].
    rewrite directions_axes. apply lineDirections_throws, axes_unit_step.
  - intros Heq. simplify_eq. by eapply get_throws.
Qed.

(** C10. On every board and coordinate, [checkWinnerStatic] returns [true]
    exactly when [checkWinner] returns a line, [false] exactly when it
    returns [null], and throws exactly when it throws; and the only
    failure of either is the [TypeError] of reading a row the board does
    not have. *)
Theorem checkWinnerStatic_iff_checkWinner (board : Board) (row col : Z) :
  (checkWinnerStatic board row col = Ok true
   ↔ ∃ line, checkWinner board row col = Ok (Some line))
  ∧ (checkWinnerStatic board row col = Ok false
     ↔ checkWinner board row col = Ok None)
  ∧ (∀ e, checkWinnerStatic board row col = Err e
          ↔ checkWinner board row col = Err e)
  ∧ (∀ e, checkWinner board row col = Err e → e = TypeError).
Proof.
  split; [|split; [|split]]; [| | |apply checkWinner_throws];
    rewrite checkWinnerStatic_as_checkWinner;
    destruct (checkWinner board row col) as [[line|]|e]; monad_step.
  - split; [by exists line | done].
  - split; [discriminate | intros [line Hline]; discriminate].
  - split; [discriminate | intros [line Hline]; discriminate].
  - split; discriminate.
  - done.
  - split; discriminate.
  - intros e. split; discriminate.
  - intros e. split; discriminate.
  - intros e'. split; intros Heq; by simplify_eq.
Qed.

(** One axis: the line has the cell, then the run one way, then the run
    the other way, and is four or more long exactly when a window exists. *)
Lemma lineDirection_axis (board : Board) p row col dr dc :
  wf_board board → unit_step dr dc → hit board (Some p) row col →
  ∃ n1 n2 : nat,
    lineDirection board (Some p) row col (bothWays (dr, dc)) [(row, col)]
    = Ok ((row, col) :: ray (row + dr) (col + dc) dr dc n1
            ++ ray (row + - dr) (col + - dc) (- dr) (- dc) n2)
    ∧ ((4 ≤ 1 + n1 + n2)%nat ↔ Window board p row col dr dc).
Proof.
  intros Hwf Hstep Hcenter.
  assert (Hback : unit_step (- dr) (- dc)) by (unfold unit_step in *; lia).
  destruct (pushWhile_run board (Some p) dr dc loopFuel [(row, col)]
              (row + dr) (col + dc) Hwf Hstep (reach_bound _ _ _ _))
    as (n1 & Hrun1 & Hhits1 & Hstop1).
  destruct (pushWhile_run board (Some p) (- dr) (- dc) loopFuel
              ([(row, col)] ++ ray (row + dr) (col + dc) dr dc n1)
              (row + - dr) (col + - dc) Hwf Hback (reach_bound _ _ _ _))
    as (n2 & Hrun2 & Hhits2 & Hstop2).
  exists n1, n2. split.
  - unfold bothWays. cbn [lineDirection fst snd].
    rewrite Hrun1. monad_step. rewrite Hrun2. monad_step.
    by rewrite <- app_assoc.
  - pose proof (run_window
      (λ j, hit board (Some p) (row + j * dr) (col + j * dc))
      (Z.of_nat n1) (Z.of_nat n2)) as Hrw. cbv beta in Hrw.
    unfold Window. rewrite <- Hrw; [lia|lia|lia|..].
    + by rewrite !Z.mul_0_l, !Z.add_0_r.
    + intros j Hj.
      replace (row + j * dr) with (row + dr + (j - 1) * dr) by ring.
      replace (col + j * dc) with (col + dc + (j - 1) * dc) by ring.
      apply Hhits1. lia.
    + replace (row + (Z.of_nat n1 + 1) * dr) with (row + dr + Z.of_nat n1 * dr) by ring.
      by replace (col + (Z.of_nat n1 + 1) * dc) with (col + dc + Z.of_nat n1 * dc) by ring.
    + intros j Hj.
      replace (row + - j * dr) with (row + - dr + (j - 1) * - dr) by ring.
      replace (col + - j * dc) with (col + - dc + (j - 1) * - dc) by ring.
      apply Hhits2. lia.
    + replace (row + - (Z.of_nat n2 + 1) * dr)
        with (row + - dr + Z.of_nat n2 * - dr) by ring.
      by replace (col + - (Z.of_nat n2 + 1) * dc)
        with (col + - dc + Z.of_nat n2 * - dc) by ring.
Qed.

(** All axes in turn: the first one with a window gives the line. *)
Lemma lineDirections_axes (board : Board) p row col axs :
  wf_board board → (∀ dr dc, (dr, dc) ∈ axs → unit_step dr dc) →
  hit board (Some p) row col →
  ∃ res, lineDirections board (Some p) row col (bothWays <$> axs) = Ok res
    ∧ match res with
      | Some line =>
          (4 ≤ length line)%nat
          ∧ ∃ dr dc, (dr, dc) ∈ axs ∧ Window board p row col dr dc
      | None => ∀ dr dc, (dr, dc) ∈ axs → ¬ Window board p row col dr dc
      end.
Proof.
  intros Hwf Hsteps Hcenter.
  induction axs as [|[dr dc] axs IH].
  { exists None. split; [done|]. intros dr dc Hin. by apply elem_of_nil in Hin. }
  rewrite fmap_cons. cbn [lineDirections].
  destruct (lineDirection_axis board p row col dr dc Hwf) as (n1 & n2 & -> & Hlen);
    [apply Hsteps; left | done |].
  monad_step. case_decide as Hfour.
  - eexists. split; [done|]. split; [done|].
    exists dr, dc. split; [left|]. apply Hlen.
    cbn [length] in Hfour. rewrite length_app, !length_ray in Hfour. lia.
  - destruct IH as (res & -> & Hres).
    { intros dr' dc' Hin. apply Hsteps. by right. }
    exists res. split; [done|]. destruct res as [line|].
    + destruct Hres as (Hlong & dr' & dc' & Hin & Hwin).
      split; [done|]. exists dr', dc'. split; [by right | done].
    + intros dr' dc' Hin. apply elem_of_cons in Hin as [Heq|Hin].
      * simplify_eq. intros Hwin. apply Hfour. apply Hlen in Hwin.
        cbn [length]. rewrite length_app, !length_ray. lia.
      * by apply Hres.
Qed.

(** What [checkWinner] returns on a well-formed board. *)
Lemma checkWinner_total (board : Board) row col :
  wf_board board → 0 ≤ row < ROWS → 0 ≤ col < COLS →
  ∃ res, checkWinner board row col = Ok res
    ∧ match res with
      | Some line => (4 ≤ length line)%nat ∧ FourThrough board row col
      | None => ¬ FourThrough board row col
      end.
Proof.
  intros Hwf Hrow Hcol. unfold checkWinner.
  destruct (get_wf board row col Hwf Hrow Hcol) as [p Hp].
  change (cell board row col) with (get board row col). rewrite Hp. monad_step.
  assert (Hcenter : hit board (Some p) row col).
  { split; [by apply inBounds_true | done]. }
  destruct (decide (p = Null)) as [->|Htoken].
  - exists None. split; [done|].
    intros (p' & Hp' & dr & dc & _ & Hwin).
    apply Window_center in Hwin as [_ Hget]. congruence.
  - assert (truthy (Some p) = true) as -> by by destruct p.
    rewrite directions_axes.
    destruct (lineDirections_axes board p row col axes Hwf axes_unit_step Hcenter)
      as (res & -> & Hres).
    exists res. split; [done|]. destruct res as [line|].
    + destruct Hres as (Hlong & dr & dc & Hin & Hwin).
      split; [done|]. by exists p; eauto.
    + intros (p' & Hp' & dr & dc & Hin & Hwin).
      pose proof (Window_center _ _ _ _ _ _ Hwin) as [_ Hget].
      assert (p' = p) as -> by congruence. by eapply Hres.
Qed.

Lemma seqZ_from_1 (n : Z) : seqZ 1 n = Z.add 1 <$> seqZ 0 n.
Proof. by rewrite fmap_add_seqZ. Qed.

(** The cells of a ray are the steps [0 .. n-1] from its start. *)
Lemma ray_fmap (r c dr dc : Z) (n : nat) :
  ray r c dr dc n = (λ j, (r + j * dr, c + j * dc)) <$> seqZ 0 (Z.of_nat n).
Proof.
  revert r c. induction n as [|n IH]; intros r c; [done|].
  cbn [ray]. rewrite seqZ_cons by lia. rewrite fmap_cons.
  f_equal; [f_equal; lia|].
  rewrite IH. replace (Z.pred (Z.of_nat (S n))) with (Z.of_nat n) by lia.
  change (Z.succ 0) with 1. rewrite seqZ_from_1, <- list_fmap_compose.
  apply list_fmap_ext. intros _ j _. cbn. f_equal; ring.
Qed.

Lemma line_offsets (row col dr dc : Z) (n1 n2 : nat) :
  (row, col) :: ray (row + dr) (col + dc) dr dc n1
    ++ ray (row + - dr) (col + - dc) (- dr) (- dc) n2
  = (λ j, (row + j * dr, col + j * dc)) <$> lineOffsets n1 n2.
Proof.
  unfold lineOffsets. rewrite fmap_cons, fmap_app, !ray_fmap, !seqZ_from_1.
  f_equal; [f_equal; ring|]. f_equal.
  - rewrite <- list_fmap_compose. apply list_fmap_ext. intros _ j _. cbn.
    f_equal; ring.
  - rewrite <- !list_fmap_compose. apply list_fmap_ext. intros _ j _. cbn.
    f_equal; ring.
Qed.

Lemma elem_of_lineOffsets (n1 n2 : nat) (j : Z) :
  j ∈ lineOffsets n1 n2 ↔ - Z.of_nat n2 ≤ j ≤ Z.of_nat n1.
Proof.
  unfold lineOffsets. rewrite elem_of_cons, elem_of_app, elem_of_seqZ, list_elem_of_fmap.
  setoid_rewrite elem_of_seqZ. split.
  - intros [->|[?|(i & -> & ?)]]; lia.
  - intros Hj. destruct (Z.lt_trichotomy j 0) as [Hneg|[->|Hpos]].
    + right. right. exists (- j). lia.
    + by left.
    + right. left. lia.
Qed.

Lemma length_lineOffsets (n1 n2 : nat) :
  length (lineOffsets n1 n2) = (1 + n1 + n2)%nat.
Proof.
  unfold lineOffsets. cbn [length].
  rewrite length_app, length_fmap, !length_seqZ, !Nat2Z.id. lia.
Qed.

Lemma NoDup_lineOffsets (n1 n2 : nat) : NoDup (lineOffsets n1 n2).
Proof.
  unfold lineOffsets. apply NoDup_cons. split.
  { rewrite elem_of_app, elem_of_seqZ, list_elem_of_fmap.
    setoid_rewrite elem_of_seqZ. intros [?|(i & ? & ?)]; lia. }
  apply NoDup_app. split; [apply NoDup_seqZ|]. split.
  - intros j Hj. rewrite list_elem_of_fmap. setoid_rewrite elem_of_seqZ.
    apply elem_of_seqZ in Hj. intros (i & ? & ?). lia.
  - apply NoDup_fmap; [|apply NoDup_seqZ]. intros i j Hij. lia.
Qed.

(** One axis, with the cells: the hits run from [-n2] to [n1] steps from
    the cell checked and stop there on both sides. *)
Lemma lineDirection_axis_run (board : Board) p row col dr dc :
  wf_board board → unit_step dr dc → hit board (Some p) row col →
  ∃ n1 n2 : nat,
    lineDirection board (Some p) row col (bothWays (dr, dc)) [(row, col)]
    = Ok ((λ j, (row + j * dr, col + j * dc)) <$> lineOffsets n1 n2)
    ∧ (∀ j, - Z.of_nat n2 ≤ j ≤ Z.of_nat n1 →
         hit board (Some p) (row + j * dr) (col + j * dc))
    ∧ ¬ hit board (Some p) (row + (Z.of_nat n1 + 1) * dr) (col + (Z.of_nat n1 + 1) * dc)
    ∧ ¬ hit board (Some p) (row + - (Z.of_nat n2 + 1) * dr) (col + - (Z.of_nat n2 + 1) * dc)
    ∧ ((4 ≤ 1 + n1 + n2)%nat ↔ Window board p row col dr dc).
Proof.
  intros Hwf Hstep Hcenter.
  assert (Hback : unit_step (- dr) (- dc)) by (unfold unit_step in *; lia).
  destruct (pushWhile_run board (Some p) dr dc loopFuel [(row, col)]
              (row + dr) (col + dc) Hwf Hstep (reach_bound _ _ _ _))
    as (n1 & Hrun1 & Hhits1 & Hstop1).
  destruct (pushWhile_run board (Some p) (- dr) (- dc) loopFuel
              ([(row, col)] ++ ray (row + dr) (col + dc) dr dc n1)
              (row + - dr) (col + - dc) Hwf Hback (reach_bound _ _ _ _))
    as (n2 & Hrun2 & Hhits2 & Hstop2).
  assert (Hfwd : ∀ j, 1 ≤ j ≤ Z.of_nat n1 →
            hit board (Some p) (row + j * dr) (col + j * dc)).
  { intros j Hj.
    replace (row + j * dr) with (row + dr + (j - 1) * dr) by ring.
    replace (col + j * dc) with (col + dc + (j - 1) * dc) by ring.
    apply Hhits1. lia. }
  assert (Hbwd : ∀ j, 1 ≤ j ≤ Z.of_nat n2 →
            hit board (Some p) (row + - j * dr) (col + - j * dc)).
  { intros j Hj.
    replace (row + - j * dr) with (row + - dr + (j - 1) * - dr) by ring.
    replace (col + - j * dc) with (col + - dc + (j - 1) * - dc) by ring.
    apply Hhits2. lia. }
  assert (Hstop_fwd : ¬ hit board (Some p)
            (row + (Z.of_nat n1 + 1) * dr) (col + (Z.of_nat n1 + 1) * dc)).
  { replace (row + (Z.of_nat n1 + 1) * dr) with (row + dr + Z.of_nat n1 * dr) by ring.
    by replace (col + (Z.of_nat n1 + 1) * dc) with (col + dc + Z.of_nat n1 * dc) by ring. }
  assert (Hstop_bwd : ¬ hit board (Some p)
            (row + - (Z.of_nat n2 + 1) * dr) (col + - (Z.of_nat n2 + 1) * dc)).
  { replace (row + - (Z.of_nat n2 + 1) * dr)
      with (row + - dr + Z.of_nat n2 * - dr) by ring.
    by replace (col + - (Z.of_nat n2 + 1) * dc)
      with (col + - dc + Z.of_nat n2 * - dc) by ring. }
  exists n1, n2. split; [|split; [|split; [done|split; [done|]]]].
  - unfold bothWays. cbn [lineDirection fst snd].
    rewrite Hrun1. monad_step. rewrite Hrun2. monad_step.
    by rewrite <- app_assoc, <- line_offsets.
  - intros j Hj. destruct (Z.lt_trichotomy j 0) as [Hneg|[->|Hpos]].
    + replace j with (- - j) by lia. apply Hbwd. lia.
    + by rewrite !Z.mul_0_l, !Z.add_0_r.
    + apply Hfwd. lia.
  - pose proof (run_window
      (λ j, hit board (Some p) (row + j * dr) (col + j * dc))
      (Z.of_nat n1) (Z.of_nat n2)) as Hrw. cbv beta in Hrw.
    unfold Window. rewrite <- Hrw; [lia|lia|lia|..]; try done.
    by rewrite !Z.mul_0_l, !Z.add_0_r.
Qed.

Lemma get_wf_inBounds board row col v :
  wf_board board → get board row col = Ok (Some v) → inBounds row col = true.
Proof.
  intros Hwf Hget. apply inBounds_true.
  assert (Hrow : 0 ≤ row < ROWS).
  { destruct (decide (0 ≤ row < ROWS)) as [|Hout]; [done|]. exfalso.
    unfold get in Hget. rewrite index_outside in Hget; [done|].
    destruct Hwf as [-> _]. unfold ROWS in *. lia. }
  split; [done|].
  destruct (decide (0 ≤ col < COLS)) as [|Hout]; [done|].
  rewrite (get_wf_outside _ _ _ Hwf Hrow Hout) in Hget. discriminate.
Qed.

Lemma unit_step_cases dr dc :
  unit_step dr dc →
  (dr = -1 ∨ dr = 0 ∨ dr = 1) ∧ (dc = -1 ∨ dc = 0 ∨ dc = 1) ∧ (dr ≠ 0 ∨ dc ≠ 0).
Proof. unfold unit_step. lia. Qed.

(** Distinct numbers of steps along an axis lead to distinct cells. *)
Lemma steps_inj row col dr dc :
  unit_step dr dc → Inj (=) (=) (λ j, (row + j * dr, col + j * dc)).
Proof.
  intros Hstep j j' Heq. simplify_eq.
  apply unit_step_cases in Hstep as (Hdr & Hdc & Hne).
  destruct Hdr as [-> | [-> | ->]], Hdc as [-> | [-> | ->]]; lia.
Qed.

(** All axes in turn, with the cells: the line comes from the first axis
    that has a window, and is the whole run along it. *)
Lemma lineDirections_first (board : Board) p row col axs line :
  wf_board board → (∀ dr dc, (dr, dc) ∈ axs → unit_step dr dc) →
  hit board (Some p) row col →
  lineDirections board (Some p) row col (bothWays <$> axs) = Ok (Some line) →
  ∃ (i : nat) dr dc (n1 n2 : nat),
    axs !! i = Some (dr, dc)
    ∧ (∀ (j : nat) dr' dc', (j < i)%nat → axs !! j = Some (dr', dc') →
         ¬ Window board p row col dr' dc')
    ∧ line = (λ j, (row + j * dr, col + j * dc)) <$> lineOffsets n1 n2
    ∧ (4 ≤ 1 + n1 + n2)%nat
    ∧ (∀ j, - Z.of_nat n2 ≤ j ≤ Z.of_nat n1 →
         hit board (Some p) (row + j * dr) (col + j * dc))
    ∧ ¬ hit board (Some p) (row + (Z.of_nat n1 + 1) * dr) (col + (Z.of_nat n1 + 1) * dc)
    ∧ ¬ hit board (Some p) (row + - (Z.of_nat n2 + 1) * dr) (col + - (Z.of_nat n2 + 1) * dc).
Proof.
  intros Hwf Hsteps Hcenter.
  induction axs as [|[dr dc] axs IH]; [discriminate|].
  rewrite fmap_cons. cbn [lineDirections].
  destruct (lineDirection_axis_run board p row col dr dc Hwf)
    as (n1 & n2 & -> & Hhits & Hstop1 & Hstop2 & Hlen); [apply Hsteps; left | done |].
  monad_step. rewrite length_fmap, length_lineOffsets.
  case_decide as Hfour.
  - intros Heq. simplify_eq. exists O, dr, dc, n1, n2.
    split; [done|]. split; [intros j ? ? Hj; lia|]. split; [done|].
    split; [lia|]. done.
  - intros Hrest. destruct IH as (i & dr' & dc' & m1 & m2 & Hi & Hfirst & Hrun);
      [intros ? ? Hin; apply Hsteps; by right | done |].
    exists (S i), dr', dc', m1, m2. split; [done|]. split; [|done].
    intros [|j] dr'' dc'' Hj Hlook.
    + cbn in Hlook. simplify_eq. intros Hwin. apply Hfour. apply Hlen in Hwin. lia.
    + apply (Hfirst j); [lia | done].
Qed.

(** What [checkWinner] returns when it returns a line: the run it comes
    from. *)
Lemma checkWinner_run (board : Board) row col line :
  wf_board board → checkWinner board row col = Ok (Some line) →
  ∃ p (i : nat) dr dc (n1 n2 : nat),
    p ≠ Null ∧ get board row col = Ok (Some p)
    ∧ axes !! i = Some (dr, dc)
    ∧ (∀ (j : nat) dr' dc', (j < i)%nat → axes !! j = Some (dr', dc') →
         ¬ Window board p row col dr' dc')
    ∧ line = (λ j, (row + j * dr, col + j * dc)) <$> lineOffsets n1 n2
    ∧ (4 ≤ 1 + n1 + n2)%nat
    ∧ (∀ j, - Z.of_nat n2 ≤ j ≤ Z.of_nat n1 →
         hit board (Some p) (row + j * dr) (col + j * dc))
    ∧ ¬ hit board (Some p) (row + (Z.of_nat n1 + 1) * dr) (col + (Z.of_nat n1 + 1) * dc)
    ∧ ¬ hit board (Some p) (row + - (Z.of_nat n2 + 1) * dr) (col + - (Z.of_nat n2 + 1) * dc).
Proof.
  intros Hwf. unfold checkWinner. change (cell board row col) with (get board row col).
  destruct (get board row col) as [[p|]|] eqn:Hget; monad_step; [|discriminate..].
  destruct (truthy (Some p)) eqn:Htoken; [|discriminate].
  assert (Hcenter : hit board (Some p) row col).
  { split; [by eapply get_wf_inBounds | done]. }
  rewrite directions_axes. intros Hline.
  destruct (lineDirections_first board p row col axes line Hwf axes_unit_step
              Hcenter Hline)
    as (i & dr & dc & n1 & n2 & Hi & Hfirst & -> & Hlen & Hhits & Hstop1 & Hstop2).
  exists p, i, dr, dc, n1, n2. split; [by destruct p|]. done.
Qed.

(** C1. On a board of six rows of seven cells and a coordinate of the
    grid, [checkWinner] returns a line exactly when four collinear, contiguous
    cells holding the same token include the coordinate; otherwise it
    returns [null]. The line has four cells or more and is the maximal
    run of the token of the coordinate along one of the four axes: the
    coordinate itself, then the [n1] cells that follow it along the axis,
    then the [n2] cells that precede it, all holding that token, with the
    cells next to the two ends of the run not holding it. *)
Theorem checkWinner_spec (board : Board) (row col : Z) :
  wf_board board → 0 ≤ row < ROWS → 0 ≤ col < COLS →
  (∀ line, checkWinner board row col = Ok (Some line) →
     (4 ≤ length line)%nat ∧ FourThrough board row col
     ∧ ∃ p dr dc (n1 n2 : nat),
         p ≠ Null ∧ get board row col = Ok (Some p)
         ∧ (dr, dc) ∈ [(0, 1); (1, 0); (1, 1); (1, -1)]
         ∧ line = (λ j, (row + j * dr, col + j * dc)) <$> lineOffsets n1 n2
         ∧ length line = (1 + n1 + n2)%nat
         ∧ lineOf board p line
         ∧ ¬ hit board (Some p)
               (row + (Z.of_nat n1 + 1) * dr) (col + (Z.of_nat n1 + 1) * dc)
         ∧ ¬ hit board (Some p)
               (row + - (Z.of_nat n2 + 1) * dr) (col + - (Z.of_nat n2 + 1) * dc))
  ∧ (FourThrough board row col →
     ∃ line, checkWinner board row col = Ok (Some line) ∧ (4 ≤ length line)%nat)
  ∧ (¬ FourThrough board row col → checkWinner board row col = Ok None).
Proof.
  intros Hwf Hrow Hcol.
  destruct (checkWinner_total board row col Hwf Hrow Hcol) as (res & Hrun & Hres).
  split; [|split].
  - intros line Hline. rewrite Hline in Hrun. simplify_eq.
    destruct Hres as [Hlong Hfour]. split; [done|]. split; [done|].
    destruct (checkWinner_run board row col line Hwf Hline)
      as (p & i & dr & dc & n1 & n2 & Hp & Hget & Hi & _ & -> & _ & Hhits & Hs1 & Hs2).
    exists p, dr, dc, n1, n2. split; [done|]. split; [done|].
    split; [by eapply list_elem_of_lookup_2|]. split; [done|].
    split; [by rewrite length_fmap, length_lineOffsets|]. split; [|done].
    unfold lineOf. apply Forall_fmap, Forall_forall. intros j Hj. cbn.
    apply Hhits. by apply elem_of_lineOffsets.
  - intros Hfour. rewrite Hrun. destruct res as [line|].
    + exists line. split; [done|]. by destruct Hres.
    + by destruct Hres.
  - intros Hno. rewrite Hrun. destruct res as [line|]; [|done].
    destruct Hres as [_ Hfour]. by destruct Hno.
Qed.

Lemma checkWinner_spec_witness :
  wf_board Examples.board_four ∧ 0 ≤ 2 < ROWS ∧ 0 ≤ 3 < COLS
  ∧ (∀ line, checkWinner Examples.board_four 2 3 = Ok (Some line) →
       (4 ≤ length line)%nat ∧ FourThrough Examples.board_four 2 3
       ∧ ∃ p dr dc (n1 n2 : nat),
           p ≠ Null ∧ get Examples.board_four 2 3 = Ok (Some p)
           ∧ (dr, dc) ∈ [(0, 1); (1, 0); (1, 1); (1, -1)]
           ∧ line = (λ j, (2 + j * dr, 3 + j * dc)) <$> lineOffsets n1 n2
           ∧ length line = (1 + n1 + n2)%nat
           ∧ lineOf Examples.board_four p line
           ∧ ¬ hit Examples.board_four (Some p)
                 (2 + (Z.of_nat n1 + 1) * dr) (3 + (Z.of_nat n1 + 1) * dc)
           ∧ ¬ hit Examples.board_four (Some p)
                 (2 + - (Z.of_nat n2 + 1) * dr) (3 + - (Z.of_nat n2 + 1) * dc))
  ∧ (FourThrough Examples.board_four 2 3 →
       ∃ line, checkWinner Examples.board_four 2 3 = Ok (Some line)
               ∧ (4 ≤ length line)%nat)
  ∧ (¬ FourThrough Examples.board_four 2 3 →
       checkWinner Examples.board_four 2 3 = Ok None).
Proof.
  split; [by_evaluation|]. split; [unfold ROWS; lia|]. split; [unfold COLS; lia|].
  apply (checkWinner_spec Examples.board_four 2 3);
    [by_evaluation | unfold ROWS; lia | unfold COLS; lia].
Defined.

(** ** Dropping a token *)

Lemma index_insert {A} (l : list A) (i j : Z) (x : A) :
  0 ≤ i < Z.of_nat (length l) →
  index (<[Z.to_nat i := x]> l) j = if decide (j = i) then Some x else index l j.
Proof.
  intros Hi. unfold index. case_decide as Hj.
  - destruct (decide (j = i)) as [->|Hne].
    + apply list_lookup_insert_eq. lia.
    + apply list_lookup_insert_ne. lia.
  - destruct (decide (j = i)); [lia | done].
Qed.

Lemma copyBoard_id board : copyBoard board = board.
Proof. unfold copyBoard. apply list_fmap_id. Qed.

(** Writing a token in a cell of the grid changes that cell and no other. *)
Lemma setCell_wf board row col p :
  wf_board board → 0 ≤ row < ROWS → 0 ≤ col < COLS →
  ∃ board', setCell board row col p = Ok board'
    ∧ wf_board board'
    ∧ get board' row col = Ok (Some p)
    ∧ ∀ r c, (r, c) ≠ (row, col) → get board' r c = get board r c.
Proof.
  intros Hwf Hrow Hcol.
  destruct (wf_board_row _ _ Hwf Hrow) as (cells & Hcells & Hlen).
  destruct Hwf as [Hrows Hall].
  assert (Hrow' : 0 ≤ row < Z.of_nat (length board)) by (unfold ROWS in *; lia).
  assert (Hcol' : 0 ≤ col < Z.of_nat (length cells)) by (unfold COLS in *; lia).
  unfold setCell. rewrite Hcells. rewrite decide_True by done.
  eexists. split; [done|]. split; [|split].
  - split; [by rewrite length_insert|].
    apply Forall_insert; [done|]. by rewrite length_insert.
  - unfold get. rewrite index_insert by done. rewrite decide_True by done.
    rewrite index_insert by done. by rewrite decide_True.
  - intros r c Hne. unfold get. rewrite index_insert by done.
    destruct (decide (r = row)) as [->|]; [|done].
    rewrite Hcells, index_insert by done.
    rewrite decide_False; [done | congruence].
Qed.

Lemma Landing_unique board col row1 row2 :
  Landing board col row1 → Landing board col row2 → row1 = row2.
Proof.
  intros (Hr1 & _ & Hnull1 & Hbelow1) (Hr2 & _ & Hnull2 & Hbelow2).
  destruct (Z.lt_trichotomy row1 row2) as [Hlt|[Heq|Hgt]]; [|done|].
  - destruct (Hbelow1 row2); [lia | done].
  - destruct (Hbelow2 row1); [lia | done].
Qed.

Lemma WinningDrop_legal board player col :
  WinningDrop board player col → LegalDrop board col.
Proof. intros (row & _ & Hland & _). by exists row. Qed.

(** [getLowestEmptyRow] finds the landing row, and [-1] when there is none. *)
Lemma getLowestEmptyRow_Landing board col :
  wf_board board →
  ∃ row, getLowestEmptyRow board col = Ok row
    ∧ (if decide (row = -1) then ¬ LegalDrop board col else Landing board col row).
Proof.
  intros Hwf.
  destruct (getLowestEmptyRow_total board col Hwf) as (row & Hrow & Hspec).
  exists row. split; [done|].
  case_decide as Hfound.
  - destruct Hspec as [[_ Hnone] | (Hlt & _)]; [|lia].
    intros (row' & Hr' & _ & Hnull & _). by destruct (Hnone row').
  - destruct Hspec as [[? _] | (Hlt & Hnull & Hbelow)]; [done|].
    destruct (getLowestEmptyRow_in_range board col row Hwf Hrow Hfound)
      as (_ & Hcol & _).
    done.
Qed.

(** ** The bot's tiers *)

(** A simulation answers whether the drop wins. *)
Lemma simulate_spec board col player :
  wf_board board →
  ∃ won : bool, simulate board col player = Ok won
    ∧ (won = true ↔ WinningDrop board player col).
Proof.
  intros Hwf. unfold simulate. rewrite copyBoard_id.
  destruct (getLowestEmptyRow_Landing board col Hwf) as (row & -> & Hrow).
  monad_step. destruct (decide (row = -1)) as [->|Hfound].
  - rewrite decide_False by (intros ?; done).
    exists false. split; [done|]. split; [done|].
    intros Hwin. destruct Hrow. by eapply WinningDrop_legal.
  - rewrite decide_True by done.
    pose proof Hrow as (Hr & Hc & _).
    destruct (setCell_wf board row col player Hwf Hr Hc)
      as (board' & Hset & Hwf' & _).
    rewrite Hset. monad_step. rewrite checkWinnerStatic_as_checkWinner.
    destruct (checkWinner_total board' row col Hwf' Hr Hc) as (res & -> & Hres).
    monad_step. eexists. split; [done|]. destruct res as [line|].
    + split; [|done]. intros _. exists row, board'. by destruct Hres.
    + split; [done|]. intros (row' & board'' & Hland & Hset' & Hfour).
      assert (row' = row) as -> by by eapply Landing_unique.
      rewrite Hset in Hset'. by simplify_eq.
Qed.

(** A simulation loop returns the first column of its list whose drop
    wins, and reports when there is none. *)
Lemma firstWinning_spec board player cols :
  wf_board board →
  ∃ res, firstWinning board player cols = Ok res
    ∧ match res with
      | Some col =>
          ∃ i : nat, cols !! i = Some col ∧ WinningDrop board player col
            ∧ ∀ (j : nat) col', (j < i)%nat → cols !! j = Some col' →
                ¬ WinningDrop board player col'
      | None => ∀ col, col ∈ cols → ¬ WinningDrop board player col
      end.
Proof.
  intros Hwf. induction cols as [|col cols IH]; cbn [firstWinning].
  { exists None. split; [done|]. intros col Hin. by apply elem_of_nil in Hin. }
  destruct (simulate_spec board col player Hwf) as (won & -> & Hwon).
  monad_step. destruct won.
  - exists (Some col). split; [done|]. exists O. split; [done|].
    split; [by apply Hwon|]. intros j col' Hj. lia.
  - destruct IH as (res & -> & Hres). exists res. split; [done|].
    assert (Hlose : ¬ WinningDrop board player col).
    { intros Hwin. apply Hwon in Hwin. discriminate. }
    destruct res as [col'|].
    + destruct Hres as (i & Hi & Hwin & Hfirst).
      exists (S i). split; [done|]. split; [done|].
      intros [|j] col'' Hj Hlook; [by simplify_eq/=|].
      apply (Hfirst j); [lia | done].
    + intros col' Hin. apply elem_of_cons in Hin as [->|Hin]; [done|].
      by apply Hres.
Qed.

(** The loop over [centerCols] returns the first column of its list that
    takes a token. *)
Lemma firstOpen_spec (board : Board) cols :
  wf_board board →
  ∃ res, firstOpen board cols = Ok res
    ∧ match res with
      | Some col =>
          ∃ i : nat, cols !! i = Some col ∧ LegalDrop board col
            ∧ ∀ (j : nat) col', (j < i)%nat → cols !! j = Some col' →
                ¬ LegalDrop board col'
      | None => ∀ col, col ∈ cols → ¬ LegalDrop board col
      end.
Proof.
  intros Hwf. induction cols as [|col cols IH]; cbn [firstOpen].
  { exists None. split; [done|]. intros col Hin. by apply elem_of_nil in Hin. }
  destruct (getLowestEmptyRow_Landing board col Hwf) as (row & -> & Hrow).
  monad_step. destruct (decide (row = -1)) as [->|Hfound].
  - rewrite decide_False by (intros ?; done).
    destruct IH as (res & -> & Hres). exists res. split; [done|].
    destruct res as [col'|].
    + destruct Hres as (i & Hi & Hlegal & Hfirst).
      exists (S i). split; [done|]. split; [done|].
      intros [|j] col'' Hj Hlook; [by simplify_eq/=|].
      apply (Hfirst j); [lia | done].
    + intros col' Hin. apply elem_of_cons in Hin as [->|Hin]; [done|].
      by apply Hres.
  - rewrite decide_True by done.
    exists (Some col). split; [done|]. exists O. split; [done|].
    split; [by exists row|]. intros j col' Hj. lia.
Qed.

(** In [columns], earlier means smaller. *)
Lemma columns_lookup (i : nat) col :
  columns !! i = Some col ↔ col = Z.of_nat i ∧ 0 ≤ col < COLS.
Proof. unfold columns. rewrite lookup_seqZ. unfold COLS. lia. Qed.

Lemma first_of_columns (P : Z → Prop) (i : nat) col :
  columns !! i = Some col →
  (∀ col, P col → 0 ≤ col < COLS) →
  (∀ (j : nat) col', (j < i)%nat → columns !! j = Some col' → ¬ P col') →
  ∀ j, P j → col ≤ j.
Proof.
  intros Hi Hrange Hfirst j Hj.
  apply columns_lookup in Hi as [-> Hcol].
  destruct (decide (Z.of_nat i ≤ j)) as [|Hlt]; [done|]. exfalso.
  pose proof (Hrange j Hj) as Hjcol.
  apply (Hfirst (Z.to_nat j) j); [lia | | done].
  apply columns_lookup. lia.
Qed.

Lemma WinningDrop_column board player col :
  WinningDrop board player col → 0 ≤ col < COLS.
Proof. by intros (row & _ & (_ & Hcol & _) & _). Qed.

(** C3. When some drop completes a four-in-a-row for the bot,
    [getBotMove] returns the smallest column whose drop does, whatever the
    later tiers would choose and whatever the random draw. *)
Theorem getBotMove_wins (board : Board) (botPlayer : Player) (k : Z) :
  wf_board board → WinningDrop board botPlayer k →
  ∃ col, (∀ random, getBotMove board botPlayer random = Ok (Some col))
    ∧ WinningDrop board botPlayer col
    ∧ ∀ j, WinningDrop board botPlayer j → col ≤ j.
Proof.
  intros Hwf Hk.
  destruct (firstWinning_spec board botPlayer columns Hwf) as (res & Hrun & Hres).
  destruct res as [col|].
  - destruct Hres as (i & Hi & Hwin & Hfirst). exists col. split; [|split].
    + intros random. unfold getBotMove. by rewrite Hrun.
    + done.
    + eapply first_of_columns; [done | apply WinningDrop_column | done].
  - destruct (Hres k); [|done].
    apply elem_of_seqZ. pose proof (WinningDrop_column _ _ _ Hk). unfold COLS in *. lia.
Qed.

(** C4. When no drop completes a four-in-a-row for the bot and some drop
    would for the opponent, the player of the other colour, [getBotMove]
    returns the smallest column in which the opponent would. *)
Theorem getBotMove_blocks (board : Board) (botPlayer opponent : Player) (k : Z) :
  wf_board board →
  (botPlayer = Red ∧ opponent = Yellow) ∨ (botPlayer = Yellow ∧ opponent = Red) →
  (∀ j, ¬ WinningDrop board botPlayer j) →
  WinningDrop board opponent k →
  ∃ col, (∀ random, getBotMove board botPlayer random = Ok (Some col))
    ∧ WinningDrop board opponent col
    ∧ ∀ j, WinningDrop board opponent j → col ≤ j.
Proof.
  intros Hwf Hsides Hnowin Hk.
  assert (Hopp : opponentOf botPlayer = opponent).
  { by destruct Hsides as [[-> ->] | [-> ->]]. }
  destruct (firstWinning_spec board botPlayer columns Hwf) as (win & Hwin & Hres1).
  destruct win as [col|].
  { destruct Hres1 as (_ & _ & Hcol & _). by destruct (Hnowin col). }
  destruct (firstWinning_spec board opponent columns Hwf)
    as (block & Hblock & Hres2).
  destruct block as [col|].
  - destruct Hres2 as (i & Hi & Hcol & Hfirst). exists col. split; [|split].
    + intros random. unfold getBotMove. rewrite Hwin, Hopp. monad_step.
      by rewrite Hblock.
    + done.
    + eapply first_of_columns; [done | apply WinningDrop_column | done].
  - destruct (Hres2 k); [|done].
    apply elem_of_seqZ. pose proof (WinningDrop_column _ _ _ Hk). unfold COLS in *. lia.
Qed.

(** C5. On a board with an empty cell where neither the bot nor the
    player of the other colour has a winning drop, [getBotMove] returns
    the first column of 3, 2, 4, 1, 5, 0, 6 that takes a token: the loop
    over [centerCols] returns it, so the random tier is not reached and
    the result does not depend on the draw. *)
Theorem getBotMove_center (board : Board) (botPlayer opponent : Player) :
  wf_board board →
  (botPlayer = Red ∧ opponent = Yellow) ∨ (botPlayer = Yellow ∧ opponent = Red) →
  (∃ row col, get board row col = Ok (Some Null)) →
  (∀ j, ¬ WinningDrop board botPlayer j) →
  (∀ j, ¬ WinningDrop board opponent j) →
  ∃ (i : nat) col,
    [3; 2; 4; 1; 5; 0; 6] !! i = Some col
    ∧ LegalDrop board col
    ∧ (∀ (j : nat) col', (j < i)%nat → [3; 2; 4; 1; 5; 0; 6] !! j = Some col' →
         ¬ LegalDrop board col')
    ∧ firstOpen board centerCols = Ok (Some col)
    ∧ ∀ random, getBotMove board botPlayer random = Ok (Some col).
Proof.
  intros Hwf Hsides (row & col & Hnull) Hnowin Hnoblock.
  assert (Hopp : opponentOf botPlayer = opponent).
  { by destruct Hsides as [[-> ->] | [-> ->]]. }
  destruct (firstWinning_spec board botPlayer columns Hwf) as (win & Hwin & Hres1).
  destruct win as [c|].
  { destruct Hres1 as (_ & _ & Hc & _). by destruct (Hnowin c). }
  destruct (firstWinning_spec board opponent columns Hwf)
    as (block & Hblock & Hres2).
  destruct block as [c|].
  { destruct Hres2 as (_ & _ & Hc & _). by destruct (Hnoblock c). }
  destruct (firstOpen_spec board centerCols Hwf) as (center & Hcenter & Hres3).
  destruct center as [c|].
  - destruct Hres3 as (i & Hi & Hlegal & Hfirst).
    exists i, c. do 4 (split; [done|]).
    intros random. unfold getBotMove. rewrite Hwin, Hopp. monad_step.
    rewrite Hblock. monad_step. by rewrite Hcenter.
  - exfalso.
    assert (Hrow : 0 ≤ row < ROWS).
    { destruct (decide (0 ≤ row < ROWS)) as [|Hout]; [done|]. exfalso.
      unfold get in Hnull. rewrite index_outside in Hnull; [done|].
      destruct Hwf as [-> _]. unfold ROWS in *. lia. }
    assert (Hcol : 0 ≤ col < COLS).
    { destruct (decide (0 ≤ col < COLS)) as [|Hout]; [done|].
      rewrite (get_wf_outside _ _ _ Hwf Hrow Hout) in Hnull. discriminate. }
    destruct (getLowestEmptyRow_total board col Hwf) as (r & Hr & Hspec).
    apply (Hres3 col).
    + unfold centerCols, COLS in *. rewrite !elem_of_cons. lia.
    + destruct Hspec as [[_ Hnone] | (Hlt & Hcell & Hbelow)].
      * by destruct (Hnone row).
      * by exists r.
Qed.

(** ** The vocabulary above can be evaluated *)

#[global] Instance error_eq_dec : EqDecision error.
Proof. solve_decision. Defined.

#[global] Instance result_eq_dec {A} `{EqDecision A} : EqDecision (result A).
Proof. solve_decision. Defined.

#[global] Instance hit_dec board player r c : Decision (hit board player r c).
Proof. unfold hit. apply _. Defined.

Lemma Window_alt board p row col dr dc :
  Exists (λ k, Forall (λ i, hit board (Some p) (row + (i - k) * dr) (col + (i - k) * dc))
                 (seqZ 0 4)) (seqZ 0 4)
  ↔ Window board p row col dr dc.
Proof.
  unfold Window. rewrite Exists_exists.
  split; intros (k & Hk & Hall); exists k.
  - apply elem_of_seqZ in Hk. split; [lia|]. intros i Hi.
    rewrite Forall_forall in Hall. apply Hall, elem_of_seqZ. lia.
  - split; [apply elem_of_seqZ; lia|]. apply Forall_forall. intros i Hi.
    apply elem_of_seqZ in Hi. apply Hall. lia.
Qed.

#[global] Instance Window_dec board p row col dr dc :
  Decision (Window board p row col dr dc).
Proof. exact (decide_iff (Window_alt _ _ _ _ _ _) _). Defined.

Lemma FourThrough_alt board row col :
  Exists (λ p, p ≠ Null ∧ Exists (λ axis, Window board p row col axis.1 axis.2) axes)
    [Red; Yellow; Null]
  ↔ FourThrough board row col.
Proof.
  unfold FourThrough. rewrite Exists_exists. split.
  - intros (p & _ & Hp & Haxis). exists p. split; [done|].
    apply Exists_exists in Haxis as ([dr dc] & Hin & Hwin). by exists dr, dc.
  - intros (p & Hp & dr & dc & Hin & Hwin). exists p.
    split; [destruct p; repeat constructor|]. split; [done|].
    apply Exists_exists. by exists (dr, dc).
Qed.

#[global] Instance FourThrough_dec board row col : Decision (FourThrough board row col).
Proof. exact (decide_iff (FourThrough_alt _ _ _) _). Defined.

Lemma Landing_alt board col row :
  (0 ≤ row < ROWS ∧ 0 ≤ col < COLS ∧ get board row col = Ok (Some Null)
   ∧ Forall (λ r, get board r col ≠ Ok (Some Null)) (seqZ (row + 1) (ROWS - row - 1)))
  ↔ Landing board col row.
Proof.
  unfold Landing. rewrite Forall_forall. setoid_rewrite elem_of_seqZ.
  split; intros (Hr & Hc & Hnull & Hbelow); (do 3 (split; [done|]));
    intros r Hlt; apply Hbelow; lia.
Qed.

#[global] Instance Landing_dec board col row : Decision (Landing board col row).
Proof. exact (decide_iff (Landing_alt _ _ _) _). Defined.

Lemma WinningDrop_alt board player col :
  Exists (λ row, Landing board col row
                 ∧ match setCell board row col player with
                   | Ok board' => FourThrough board' row col
                   | Err _ => False
                   end) (seqZ 0 ROWS)
  ↔ WinningDrop board player col.
Proof.
  unfold WinningDrop. rewrite Exists_exists. split.
  - intros (row & _ & Hland & Hfour).
    destruct (setCell board row col player) as [board'|] eqn:Hset; [|done].
    by exists row, board'.
  - intros (row & board' & Hland & Hset & Hfour). exists row.
    split; [|by rewrite Hset].
    destruct Hland as (Hr & _). apply elem_of_seqZ. lia.
Qed.

#[global] Instance WinningDrop_dec board player col :
  Decision (WinningDrop board player col).
Proof.
  refine (decide_iff (WinningDrop_alt _ _ _) _).
  apply Exists_dec. intros row. apply and_dec; [apply _|].
  destruct (setCell board row col player); apply _.
Defined.

Lemma LegalDrop_alt board col :
  Exists (λ row, Landing board col row) (seqZ 0 ROWS) ↔ LegalDrop board col.
Proof.
  unfold LegalDrop. rewrite Exists_exists. split.
  - intros (row & _ & Hland). by exists row.
  - intros (row & Hland). exists row. split; [|done].
    destruct Hland as (Hr & _). apply elem_of_seqZ. lia.
Qed.

#[global] Instance LegalDrop_dec board col : Decision (LegalDrop board col).
Proof. exact (decide_iff (LegalDrop_alt _ _) _). Defined.

(** No column at all has a winning drop once none of the seven has. *)
Lemma no_WinningDrop_alt board player :
  Forall (λ j, ¬ WinningDrop board player j) columns
  ↔ ∀ j, ¬ WinningDrop board player j.
Proof.
  rewrite Forall_forall. split.
  - intros Hall j Hj. apply (Hall j); [|done].
    apply elem_of_seqZ. pose proof (WinningDrop_column _ _ _ Hj). lia.
  - intros Hall j _. apply Hall.
Qed.

#[global] Instance no_WinningDrop_dec board player :
  Decision (∀ j, ¬ WinningDrop board player j).
Proof. exact (decide_iff (no_WinningDrop_alt _ _) _). Defined.

(** A line has its cells in the grid. *)
Lemma no_line_alt board :
  Forall (λ row, Forall (λ col, ¬ FourThrough board row col) (seqZ 0 COLS)) (seqZ 0 ROWS)
  ↔ ∀ row col, ¬ FourThrough board row col.
Proof.
  split.
  - intros Hall row col Hfour.
    pose proof Hfour as (p & _ & dr & dc & _ & Hwin).
    apply Window_center in Hwin as [Hin _]. apply inBounds_true in Hin as [Hr Hc].
    rewrite Forall_forall in Hall. specialize (Hall row).
    rewrite Forall_forall in Hall. apply (Hall ltac:(apply elem_of_seqZ; lia) col);
      [apply elem_of_seqZ; lia | done].
  - intros Hnone. apply Forall_forall. intros row _.
    apply Forall_forall. intros col _. apply Hnone.
Qed.

#[global] Instance no_line_dec board : Decision (∀ row col, ¬ FourThrough board row col).
Proof. exact (decide_iff (no_line_alt _) _). Defined.

#[global] Instance column3_scenario_dec gameState : Decision (column3_scenario gameState).
Proof. unfold column3_scenario. apply _. Defined.

Lemma getBotMove_wins_witness :
  wf_board Examples.board_race
  ∧ WinningDrop Examples.board_race Yellow 4
  ∧ ∃ col,
      (∀ random, getBotMove Examples.board_race Yellow random = Ok (Some col))
      ∧ WinningDrop Examples.board_race Yellow col
      ∧ ∀ j, WinningDrop Examples.board_race Yellow j → col ≤ j.
Proof.
  split; [by_evaluation|]. split; [by_evaluation|].
  apply (getBotMove_wins Examples.board_race Yellow 4); by_evaluation.
Defined.

Lemma getBotMove_blocks_witness :
  wf_board Examples.board_col3
  ∧ ((Yellow = Red ∧ Red = Yellow) ∨ (Yellow = Yellow ∧ Red = Red))
  ∧ (∀ j, ¬ WinningDrop Examples.board_col3 Yellow j)
  ∧ WinningDrop Examples.board_col3 Red 3
  ∧ ∃ col,
      (∀ random, getBotMove Examples.board_col3 Yellow random = Ok (Some col))
      ∧ WinningDrop Examples.board_col3 Red col
      ∧ ∀ j, WinningDrop Examples.board_col3 Red j → col ≤ j.
Proof.
  split; [by_evaluation|]. split; [by right|].
  split; [by_evaluation|]. split; [by_evaluation|].
  apply (getBotMove_blocks Examples.board_col3 Yellow Red 3);
    [by_evaluation | by right | by_evaluation | by_evaluation].
Defined.

Lemma getBotMove_center_witness :
  wf_board Examples.board_quiet
  ∧ ((Yellow = Red ∧ Red = Yellow) ∨ (Yellow = Yellow ∧ Red = Red))
  ∧ (∃ row col, get Examples.board_quiet row col = Ok (Some Null))
  ∧ (∀ j, ¬ WinningDrop Examples.board_quiet Yellow j)
  ∧ (∀ j, ¬ WinningDrop Examples.board_quiet Red j)
  ∧ ∃ (i : nat) col,
      [3; 2; 4; 1; 5; 0; 6] !! i = Some col
      ∧ LegalDrop Examples.board_quiet col
      ∧ (∀ (j : nat) col', (j < i)%nat → [3; 2; 4; 1; 5; 0; 6] !! j = Some col' →
           ¬ LegalDrop Examples.board_quiet col')
      ∧ firstOpen Examples.board_quiet centerCols = Ok (Some col)
      ∧ ∀ random, getBotMove Examples.board_quiet Yellow random = Ok (Some col).
Proof.
  split; [by_evaluation|]. split; [by right|].
  split; [by exists 0, 0|].
  split; [by_evaluation|]. split; [by_evaluation|].
  apply (getBotMove_center Examples.board_quiet Yellow Red);
    [by_evaluation | by right | by exists 0, 0 | by_evaluation | by_evaluation].
Defined.

(** ** The turn controller *)

Lemma isFull_no_null board row col :
  isFull board = true → get board row col ≠ Ok (Some Null).
Proof.
  unfold isFull, get. intros Hfull Hget.
  destruct (index board row) as [cells|] eqn:Hcells; [|done].
  apply index_Some in Hcells as [_ Hcells].
  assert (Hnull : index cells col = Some Null) by congruence.
  apply index_Some in Hnull as [_ Hnull].
  rewrite forallb_forall in Hfull.
  specialize (Hfull cells). rewrite <- list_elem_of_In in Hfull.
  specialize (Hfull (list_elem_of_lookup_2 _ _ _ Hcells)).
  rewrite forallb_forall in Hfull.
  specialize (Hfull Null). rewrite <- list_elem_of_In in Hfull.
  specialize (Hfull (list_elem_of_lookup_2 _ _ _ Hnull)).
  by apply bool_decide_eq_true_1 in Hfull.
Qed.

(** C6. Once a winner is recorded, or the board is full, [dropPiece] does
    nothing for any column: it asks for no state update and schedules no
    callback, so board, player to move, winner and winning line stay as
    they are. *)
Theorem dropPiece_finished (gameState : GameState) (col : Z) :
  truthy (Some (winner gameState)) = true
  ∨ (wf_board (board gameState) ∧ isFull (board gameState) = true) →
  dropPiece gameState col = Ok []
  ∧ dropPiece_settled gameState col = Ok gameState.
Proof.
  intros Hfinished.
  assert (Hnothing : dropPiece gameState col = Ok []).
  { unfold dropPiece. destruct Hfinished as [-> | [Hwf Hfull]]; [done|].
    destruct (_ || _ || _); [done|]. rewrite copyBoard_id.
    destruct (getLowestEmptyRow_total _ col Hwf) as (row & -> & Hrow).
    monad_step. destruct Hrow as [[-> _] | (_ & Hnull & _)].
    - by rewrite decide_True.
    - by destruct (isFull_no_null _ _ _ Hfull Hnull). }
  split; [done|]. unfold dropPiece_settled. by rewrite Hnothing.
Qed.

Lemma dropPiece_finished_witness :
  (truthy (Some (winner Examples.state_drawn)) = true
   ∨ (wf_board (board Examples.state_drawn)
      ∧ isFull (board Examples.state_drawn) = true))
  ∧ dropPiece Examples.state_drawn 3 = Ok []
  ∧ dropPiece_settled Examples.state_drawn 3 = Ok Examples.state_drawn.
Proof.
  split; [right; split; [by_evaluation | reflexivity]|].
  apply (dropPiece_finished Examples.state_drawn 3).
  right. split; [by_evaluation | reflexivity].
Defined.

(** C7. From any state, [resetGame] asks for one update and nothing else;
    it leaves a board of six rows of seven [null] cells, red to move, no
    winner, no winning line and no draw, and the game mode it found. *)
Theorem resetGame_spec (prev : GameState) :
  let state := updates resetGame prev in
  timers resetGame = []
  ∧ wf_board (board state)
  ∧ Forall (Forall (λ c, c = Null)) (board state)
  ∧ currentPlayer state = Red
  ∧ winner state = Null
  ∧ winningLine state = None
  ∧ isDraw state = false
  ∧ gameMode state = gameMode prev.
Proof.
  cbn. split; [done|]. split; [by_evaluation|]. split; [by_evaluation|]. done.
Qed.

(** The loop pushes exactly the hits that come before the first miss. *)
Lemma pushWhile_exact (board : Board) player dr dc line r c (n : nat) :
  wf_board board → unit_step dr dc →
  (∀ i, 0 ≤ i < Z.of_nat n → hit board player (r + i * dr) (c + i * dc)) →
  ¬ hit board player (r + Z.of_nat n * dr) (c + Z.of_nat n * dc) →
  pushWhile loopFuel board player line r c dr dc = Ok (line ++ ray r c dr dc n).
Proof.
  intros Hwf Hstep Hhits Hstop.
  destruct (pushWhile_run board player dr dc loopFuel line r c Hwf Hstep
              (reach_bound _ _ _ _)) as (n' & -> & Hhits' & Hstop').
  destruct (Nat.lt_trichotomy n' n) as [Hlt|[->|Hgt]]; [|done|].
  - destruct Hstop'. apply Hhits. lia.
  - destruct Hstop. apply Hhits'. lia.
Qed.

(** C9, with the line as [checkWinner] builds it. Column 3 holds red
    tokens in rows 5, 4 and 3 and no other red token, its cell in row 2 is
    empty, the board has no line and it is red's move. Dropping in column
    3 puts the token in row 2, changes no other cell, and red wins. If
    the token does not also complete four in row 2, the line reported
    starts at the cell just filled and runs down the column. If it does,
    the line reported is the run of red tokens of row 2, the axis looked
    at first: the cell just filled, then the [n1] red cells to its right,
    then the [n2] red cells to its left. *)
Theorem dropPiece_fourth_in_column (gameState : GameState) :
  column3_scenario gameState →
  ∃ board' state,
    Landing (board gameState) 3 2
    ∧ setCell (board gameState) 2 3 Red = Ok board'
    ∧ dropPiece_settled gameState 3 = Ok state
    ∧ board state = board'
    ∧ get (board state) 2 3 = Ok (Some Red)
    ∧ (∀ r c, (r, c) ≠ (2, 3) → get (board state) r c = get (board gameState) r c)
    ∧ winner state = Red
    ∧ (¬ Window board' Red 2 3 0 1 →
       winningLine state = Some [(2, 3); (3, 3); (4, 3); (5, 3)])
    ∧ (Window board' Red 2 3 0 1 →
       ∃ n1 n2 : nat,
         winningLine state = Some ((λ j, (2, 3 + j)) <$> lineOffsets n1 n2)
         ∧ (4 ≤ 1 + n1 + n2)%nat
         ∧ (∀ j, - Z.of_nat n2 ≤ j ≤ Z.of_nat n1 → hit board' (Some Red) 2 (3 + j))
         ∧ ¬ hit board' (Some Red) 2 (3 + (Z.of_nat n1 + 1))
         ∧ ¬ hit board' (Some Red) 2 (3 - (Z.of_nat n2 + 1))).
Proof.
  intros (Hwf & Hred & Hnowinner & Hidle & Hstill & H5 & H4 & H3 & H2 & H1 & _ & _).
  destruct (setCell_wf (board gameState) 2 3 Red Hwf)
    as (board' & Hset & Hwf' & Hnew & Hold);
    [unfold ROWS; lia | unfold COLS; lia |].
  assert (Hland : Landing (board gameState) 3 2).
  { split; [unfold ROWS; lia|]. split; [unfold COLS; lia|]. split; [done|].
    intros r Hr. unfold ROWS in Hr.
    assert (r = 3 ∨ r = 4 ∨ r = 5) as [-> | [-> | ->]] by lia; congruence. }
  assert (Hrow : getLowestEmptyRow (board gameState) 3 = Ok 2).
  { destruct (getLowestEmptyRow_Landing (board gameState) 3 Hwf) as (row & Hrow & Hspec).
    case_decide as Hfound; [by destruct Hspec; exists 2|].
    by rewrite (Landing_unique _ _ _ _ Hland Hspec). }
  assert (Hcenter : hit board' (Some Red) 2 3) by by split.
  assert (Hline : ∃ line, checkWinner board' 2 3 = Ok (Some line)
            ∧ (¬ Window board' Red 2 3 0 1 →
               line = [(2, 3); (3, 3); (4, 3); (5, 3)])
            ∧ (Window board' Red 2 3 0 1 →
               ∃ n1 n2 : nat,
                 line = (λ j, (2, 3 + j)) <$> lineOffsets n1 n2
                 ∧ (4 ≤ 1 + n1 + n2)%nat
                 ∧ (∀ j, - Z.of_nat n2 ≤ j ≤ Z.of_nat n1 →
                      hit board' (Some Red) 2 (3 + j))
                 ∧ ¬ hit board' (Some Red) 2 (3 + (Z.of_nat n1 + 1))
                 ∧ ¬ hit board' (Some Red) 2 (3 - (Z.of_nat n2 + 1)))).
  { unfold checkWinner. change (cell board' 2 3) with (get board' 2 3).
    rewrite Hnew. monad_step. cbn [truthy]. unfold directions.
    cbn [lineDirections].
    change [(0, 1); (0, -1)] with (bothWays (0, 1)).
    destruct (lineDirection_axis_run board' Red 2 3 0 1 Hwf')
      as (n1 & n2 & -> & Hhits & Hs1 & Hs2 & Hlen);
      [unfold unit_step; lia | done |].
    monad_step. rewrite length_fmap, length_lineOffsets.
    case_decide as Hfour.
    - eexists. split; [done|]. split.
      + intros Hno. destruct Hno. by apply Hlen.
      + intros _. exists n1, n2. split.
        { apply list_fmap_ext. intros _ j _. f_equal; lia. }
        split; [done|]. split; [|split].
        * intros j Hj. specialize (Hhits j Hj).
          replace (2 + j * 0) with 2 in Hhits by lia.
          by replace (3 + j * 1) with (3 + j) in Hhits by lia.
        * replace (2 + (Z.of_nat n1 + 1) * 0) with 2 in Hs1 by lia.
          by replace (3 + (Z.of_nat n1 + 1) * 1) with (3 + (Z.of_nat n1 + 1)) in Hs1
            by lia.
        * replace (2 + - (Z.of_nat n2 + 1) * 0) with 2 in Hs2 by lia.
          by replace (3 + - (Z.of_nat n2 + 1) * 1) with (3 - (Z.of_nat n2 + 1)) in Hs2
            by lia.
    - cbn [lineDirection].
      rewrite (pushWhile_exact board' (Some Red) 1 0 [(2, 3)] (2 + 1) (3 + 0) 3);
        [|done | unfold unit_step; lia | |].
      + monad_step.
        rewrite (pushWhile_exact board' (Some Red) (-1) 0 _ (2 + -1) (3 + 0) 0);
          [|done | unfold unit_step; lia | intros i Hi; lia |].
        * monad_step. rewrite decide_True by (simpl; lia).
          eexists. split; [done|]. split; [done|].
          intros Hwin. destruct Hfour. apply Hlen in Hwin. lia.
        * intros [_ Hget]. rewrite Hold in Hget by done. by destruct H1.
      + intros i Hi.
        assert (i = 0 ∨ i = 1 ∨ i = 2) as [-> | [-> | ->]] by lia;
          (split; [done|]); cbn; rewrite Hold by done; done.
      + intros [Hin _]. discriminate. }
  destruct Hline as (line & Hline & Hvertical & Hhorizontal).
  exists board'.
  unfold dropPiece_settled, dropPiece.
  rewrite Hnowinner, Hidle, Hstill, copyBoard_id. cbn [truthy orb bool_decide].
  rewrite bool_decide_eq_false_2 by (intros ?; done).
  rewrite Hrow. monad_step. rewrite decide_False by done. monad_step.
  cbn [timers omap list_omap]. unfold dropPiece_timeout.
  rewrite Hred, Hset. monad_step. rewrite Hline. monad_step.
  eexists. split; [done|]. split; [done|]. split; [done|].
  cbn [board winner winningLine updates foldl].
  split; [done|]. split; [done|]. split; [done|]. split; [done|].
  split.
  - intros Hno. by rewrite (Hvertical Hno).
  - intros Hwin. destruct (Hhorizontal Hwin) as (n1 & n2 & -> & Hrest).
    by exists n1, n2.
Qed.

Lemma dropPiece_fourth_in_column_witness :
  (column3_scenario Examples.state_col3
   ∧ ∃ board' state,
       Landing (board Examples.state_col3) 3 2
       ∧ setCell (board Examples.state_col3) 2 3 Red = Ok board'
       ∧ dropPiece_settled Examples.state_col3 3 = Ok state
       ∧ board state = board'
       ∧ get (board state) 2 3 = Ok (Some Red)
       ∧ (∀ r c, (r, c) ≠ (2, 3) →
            get (board state) r c = get (board Examples.state_col3) r c)
       ∧ winner state = Red
       ∧ (¬ Window board' Red 2 3 0 1 →
          winningLine state = Some [(2, 3); (3, 3); (4, 3); (5, 3)])
       ∧ (Window board' Red 2 3 0 1 →
          ∃ n1 n2 : nat,
            winningLine state = Some ((λ j, (2, 3 + j)) <$> lineOffsets n1 n2)
            ∧ (4 ≤ 1 + n1 + n2)%nat
            ∧ (∀ j, - Z.of_nat n2 ≤ j ≤ Z.of_nat n1 →
                 hit board' (Some Red) 2 (3 + j))
            ∧ ¬ hit board' (Some Red) 2 (3 + (Z.of_nat n1 + 1))
            ∧ ¬ hit board' (Some Red) 2 (3 - (Z.of_nat n2 + 1))))
  ∧ (column3_scenario Examples.state_cross
     ∧ ∃ board' state,
         Landing (board Examples.state_cross) 3 2
         ∧ setCell (board Examples.state_cross) 2 3 Red = Ok board'
         ∧ dropPiece_settled Examples.state_cross 3 = Ok state
         ∧ board state = board'
         ∧ get (board state) 2 3 = Ok (Some Red)
         ∧ (∀ r c, (r, c) ≠ (2, 3) →
              get (board state) r c = get (board Examples.state_cross) r c)
         ∧ winner state = Red
         ∧ (¬ Window board' Red 2 3 0 1 →
            winningLine state = Some [(2, 3); (3, 3); (4, 3); (5, 3)])
         ∧ (Window board' Red 2 3 0 1 →
            ∃ n1 n2 : nat,
              winningLine state = Some ((λ j, (2, 3 + j)) <$> lineOffsets n1 n2)
              ∧ (4 ≤ 1 + n1 + n2)%nat
              ∧ (∀ j, - Z.of_nat n2 ≤ j ≤ Z.of_nat n1 →
                   hit board' (Some Red) 2 (3 + j))
              ∧ ¬ hit board' (Some Red) 2 (3 + (Z.of_nat n1 + 1))
              ∧ ¬ hit board' (Some Red) 2 (3 - (Z.of_nat n2 + 1)))).
Proof.
  split; (split; [by_evaluation|]).
  - apply (dropPiece_fourth_in_column Examples.state_col3). by_evaluation.
  - apply (dropPiece_fourth_in_column Examples.state_cross). by_evaluation.
Defined.

(** C9 does not hold with the line listed from the bottom of the column
    upwards. In the scenario, on a board where only column 3 counts, the
    line reported lists the four cells from the one just filled
    downwards; and on a board where the token also completes row 2, that
    row is the line reported. *)
Lemma fourth_in_column_line_differs :
  (column3_scenario Examples.state_col3
   ∧ ∃ state, dropPiece_settled Examples.state_col3 3 = Ok state
       ∧ winner state = Red
       ∧ winningLine state = Some [(2, 3); (3, 3); (4, 3); (5, 3)]
       ∧ winningLine state ≠ Some [(5, 3); (4, 3); (3, 3); (2, 3)])
  ∧ (column3_scenario Examples.state_cross
     ∧ ∃ state, dropPiece_settled Examples.state_cross 3 = Ok state
         ∧ winner state = Red
         ∧ winningLine state = Some [(2, 3); (2, 2); (2, 1); (2, 0)]
         ∧ winningLine state ≠ Some [(5, 3); (4, 3); (3, 3); (2, 3)]).
Proof.
  split; (split; [by_evaluation|]); eexists;
    (split; [vm_compute; reflexivity|]); cbn;
    (split; [done|]); (split; [done|]); discriminate.
Qed.

(** ** The bot leaves the caller's board alone *)

Lemma store_bind_Ok {A C} (m : Store.M A) (k : A → Store.M C) (h h' : Store.heap) (c : C) :
  (m ≫= k) h = Ok (c, h') ↔ ∃ a h1, m h = Ok (a, h1) ∧ k a h1 = Ok (c, h').
Proof.
  unfold mbind, Store.M_bind. destruct (m h) as [[a h1]|e]; split.
  - intros Hk. by exists a, h1.
  - intros (a' & h1' & Heq & Hk). by simplify_eq.
  - discriminate.
  - intros (a' & h1' & Heq & _). discriminate.
Qed.

Lemma store_ret_Ok {A} (a a' : A) (h h' : Store.heap) :
  mret (M := Store.M) a h = Ok (a', h') ↔ a' = a ∧ h' = h.
Proof. unfold mret, Store.M_ret. split; [intros Heq | intros [-> ->]]; by simplify_eq. Qed.

Lemma store_bind_run {A C} (m : Store.M A) (k : A → Store.M C) (h h1 : Store.heap) (a : A) :
  m h = Ok (a, h1) → (m ≫= k) h = k a h1.
Proof. intros Hm. unfold mbind, Store.M_bind. by rewrite Hm. Qed.

Lemma store_bind_err {A C} (m : Store.M A) (k : A → Store.M C) (h : Store.heap) e :
  m h = Err e → (m ≫= k) h = Err e.
Proof. intros Hm. unfold mbind, Store.M_bind. by rewrite Hm. Qed.

Lemma reading_Ok {A} (f : Store.heap → result A) (h h' : Store.heap) (a : A) :
  Store.reading f h = Ok (a, h') ↔ f h = Ok a ∧ h' = h.
Proof.
  unfold Store.reading. destruct (f h) as [a'|e]; split.
  - intros Heq. by simplify_eq.
  - intros [Heq ->]. by simplify_eq.
  - discriminate.
  - intros [Heq _]. discriminate.
Qed.

(** A new array is none of the old ones, which all stay as they were. *)
Lemma alloc_Ok (o : Store.object) (h h' : Store.heap) (l : positive) :
  Store.alloc o h = Ok (l, h') →
  h !! l = None ∧ h' = <[l := o]> h ∧ h ⊆ h'.
Proof.
  unfold Store.alloc. intros Heq. simplify_eq.
  assert (Hfresh : h !! fresh (dom h) = None).
  { apply not_elem_of_dom. apply is_fresh. }
  split; [done|]. split; [done|]. by apply insert_subseteq.
Qed.

(** Copying rows: the copies are new, pairwise distinct arrays with the
    contents of the originals. *)
Lemma copyRows_Ok (rows rows' : list positive) (h h' : Store.heap) :
  Store.copyRows rows h = Ok (rows', h') →
  h ⊆ h'
  ∧ Forall (λ r, h !! r = None) rows'
  ∧ NoDup rows'.
Proof.
  revert rows' h h'. induction rows as [|row rows IH]; intros rows' h h' Hcopy.
  { apply store_ret_Ok in Hcopy as [-> ->].
    split; [done|]. split; constructor. }
  cbn [Store.copyRows] in Hcopy.
  apply store_bind_Ok in Hcopy as (cells & h0 & Hread & Hcopy).
  apply reading_Ok in Hread as [Hcells ->].
  apply store_bind_Ok in Hcopy as (row' & h1 & Halloc & Hcopy).
  apply alloc_Ok in Halloc as (Hnew & -> & Hsub).
  apply store_bind_Ok in Hcopy as (rest' & h2 & Hrest & Hret).
  apply store_ret_Ok in Hret as [-> <-].
  apply IH in Hrest as (Hsub' & Hfresh & Hnodup).
  split; [by etrans|]. split.
  - constructor; [done|]. eapply Forall_impl; [done|]. intros r Hr.
    cbn in Hr. by apply lookup_insert_None in Hr as [? _].
  - constructor; [|done]. intros Hin.
    rewrite Forall_forall in Hfresh. specialize (Hfresh _ Hin).
    by rewrite lookup_insert_eq in Hfresh.
Qed.

(** Copying a board: the copy and its rows are new arrays. *)
Lemma copyBoard_Ok (board testBoard : positive) (h h' : Store.heap) :
  Store.copyBoard board h = Ok (testBoard, h') →
  h ⊆ h' ∧ h !! testBoard = None
  ∧ ∃ rows',
      h' !! testBoard = Some (Store.Rows rows')
      ∧ Forall (λ r, h !! r = None) rows'
      ∧ NoDup rows'.
Proof.
  unfold Store.copyBoard. intros Hcopy.
  apply store_bind_Ok in Hcopy as (rows & h0 & Hread & Hcopy).
  apply reading_Ok in Hread as [Hrows ->].
  apply store_bind_Ok in Hcopy as (rows' & h1 & Hcopy & Halloc).
  apply copyRows_Ok in Hcopy as (Hsub & Hfresh & Hnodup).
  apply alloc_Ok in Halloc as (Hnew & -> & Hsub').
  split; [by etrans|]. split.
  { destruct (h !! testBoard) eqn:Hold; [|done].
    eapply lookup_weaken in Hold; [|done]. congruence. }
  exists rows'. split; [apply lookup_insert_eq | done].
Qed.

(** A write through a reference changes one row Store.object of that board. *)
Lemma setCell_Ok (board : positive) row col v (h h' : Store.heap) :
  Store.setCell board row col v h = Ok ((), h') →
  ∃ rows r cells,
    h !! board = Some (Store.Rows rows) ∧ index rows row = Some r
    ∧ h !! r = Some (Store.Cells cells)
    ∧ 0 ≤ col < Z.of_nat (length cells)
    ∧ h' = <[r := Store.Cells (<[Z.to_nat col := v]> cells)]> h.
Proof.
  unfold Store.setCell. intros Hset.
  apply bind_Ok in Hset as (rows & Hrows & Hset).
  destruct (index rows row) as [r|] eqn:Hr; [|done].
  apply bind_Ok in Hset as (cells & Hcells & Hset).
  case_decide as Hcol; [|done]. simplify_eq.
  exists rows, r, cells. split; [|split; [done|split; [|done]]].
  - unfold Store.rowsOf in Hrows. by repeat case_match; simplify_eq.
  - unfold Store.cellsOf in Hcells. by repeat case_match; simplify_eq.
Qed.

(** A simulation writes to its own copy only. *)
Lemma simulate_preserves (board : positive) col player (h h' : Store.heap) won :
  Store.simulate board col player h = Ok (won, h') → h ⊆ h'.
Proof.
  unfold Store.simulate. intros Hsim.
  apply store_bind_Ok in Hsim as (testBoard & h1 & Hcopy & Hsim).
  apply copyBoard_Ok in Hcopy
    as (Hsub & Hnew & rows' & Htest & Hfresh & _).
  apply store_bind_Ok in Hsim as (row & h2 & Hread & Hsim).
  apply reading_Ok in Hread as [_ ->].
  case_decide as Hfound.
  - apply store_bind_Ok in Hsim as ([] & h3 & Hset & Hsim).
    apply reading_Ok in Hsim as [_ ->].
    apply setCell_Ok in Hset as (rows0 & r & cells & Hrows0 & Hr & _ & _ & ->).
    assert (rows0 = rows') as -> by congruence.
    apply insert_subseteq_r; [|done].
    apply index_Some in Hr as [_ Hr].
    rewrite Forall_forall in Hfresh. apply Hfresh.
    by eapply list_elem_of_lookup_2.
  - by apply store_ret_Ok in Hsim as [_ ->].
Qed.

Lemma firstWinning_preserves (board : positive) player cols (h h' : Store.heap) res :
  Store.firstWinning board player cols h = Ok (res, h') → h ⊆ h'.
Proof.
  revert h. induction cols as [|col cols IH]; intros h Hrun.
  { by apply store_ret_Ok in Hrun as [_ ->]. }
  cbn [Store.firstWinning] in Hrun.
  apply store_bind_Ok in Hrun as (won & h1 & Hsim & Hrun).
  apply simulate_preserves in Hsim. destruct won.
  - by apply store_ret_Ok in Hrun as [_ ->].
  - etrans; [done|]. by apply IH.
Qed.

(** Whatever [getBotMove] is given, every array that existed when it was
    called is unchanged when it returns. *)
Lemma getBotMove_preserves (board : positive) botPlayer random (h h' : Store.heap) res :
  Store.getBotMove board botPlayer random h = Ok (res, h') → h ⊆ h'.
Proof.
  unfold Store.getBotMove. intros Hrun.
  apply store_bind_Ok in Hrun as (win & h1 & Hwin & Hrun).
  apply firstWinning_preserves in Hwin.
  destruct win; [by apply store_ret_Ok in Hrun as [_ ->]|].
  apply store_bind_Ok in Hrun as (block & h2 & Hblock & Hrun).
  apply firstWinning_preserves in Hblock.
  destruct block; [apply store_ret_Ok in Hrun as [_ ->]; by etrans|].
  apply store_bind_Ok in Hrun as (center & h3 & Hcenter & Hrun).
  apply reading_Ok in Hcenter as [_ ->].
  destruct center; [apply store_ret_Ok in Hrun as [_ ->]; by etrans|].
  apply store_bind_Ok in Hrun as (validCols & h4 & Hvalid & Hrun).
  apply reading_Ok in Hvalid as [_ ->].
  apply store_ret_Ok in Hrun as [_ ->]. by etrans.
Qed.

(** ** The bot on a stored board does what it does on the board's value *)

(** Code that only reads depends on the board through its cells. *)
Section ReadsExt.
Context {B1 B2 : Type} `{BoardAccess B1} `{BoardAccess B2}.
Variables (b1 : B1) (b2 : B2).
Hypothesis same_cells : ∀ r c, cell b1 r c = cell b2 r c.

Lemma scanRows_ext col n : scanRows b1 col n = scanRows b2 col n.
Proof.
  induction n as [|n IH]; cbn [scanRows]; [done|].
  rewrite same_cells. destruct (cell b2 _ _); monad_step; [|done].
  by rewrite IH.
Qed.

Lemma getLowestEmptyRow_ext col : getLowestEmptyRow b1 col = getLowestEmptyRow b2 col.
Proof. apply scanRows_ext. Qed.

Lemma countWhile_ext fuel player count r c dr dc :
  countWhile fuel b1 player count r c dr dc
  = countWhile fuel b2 player count r c dr dc.
Proof.
  revert count r c. induction fuel as [|fuel IH]; intros count r c;
    cbn [countWhile]; [done|].
  rewrite same_cells. destruct (inBounds r c); [|done].
  destruct (cell b2 _ _); monad_step; [|done]. by rewrite IH.
Qed.

Lemma countDirection_ext player row col direction count :
  countDirection b1 player row col direction count
  = countDirection b2 player row col direction count.
Proof.
  revert count. induction direction as [|[dr dc] rest IH]; intros count;
    cbn [countDirection]; [done|].
  rewrite countWhile_ext. destruct (countWhile _ _ _ _ _ _ _ _); monad_step; [|done].
  apply IH.
Qed.

Lemma countDirections_ext player row col dirs :
  countDirections b1 player row col dirs = countDirections b2 player row col dirs.
Proof.
  induction dirs as [|direction rest IH]; cbn [countDirections]; [done|].
  rewrite countDirection_ext. destruct (countDirection _ _ _ _ _ _); monad_step; [|done].
  by rewrite IH.
Qed.

Lemma checkWinnerStatic_ext row col :
  checkWinnerStatic b1 row col = checkWinnerStatic b2 row col.
Proof.
  unfold checkWinnerStatic. rewrite same_cells.
  destruct (cell b2 _ _); monad_step; [|done]. by rewrite countDirections_ext.
Qed.

Lemma firstOpen_ext cols : firstOpen b1 cols = firstOpen b2 cols.
Proof.
  induction cols as [|col cols IH]; cbn [firstOpen]; [done|].
  rewrite getLowestEmptyRow_ext. destruct (getLowestEmptyRow b2 col); monad_step; [|done].
  by rewrite IH.
Qed.

Lemma collectValid_ext cols validCols :
  collectValid b1 cols validCols = collectValid b2 cols validCols.
Proof.
  revert validCols. induction cols as [|col cols IH]; intros validCols;
    cbn [collectValid]; [done|].
  rewrite getLowestEmptyRow_ext. destruct (getLowestEmptyRow b2 col); monad_step; [|done].
  by rewrite !IH.
Qed.

End ReadsExt.

Lemma holds_apart_holds h board b : holds_apart h board b → Store.holds h board b.
Proof. intros (rows & Hrows & _ & Hcells). by exists rows. Qed.

Lemma rows_weaken (h h' : Store.heap) (rows : list positive) (b : Board) :
  Forall2 (λ r cells, h !! r = Some (Store.Cells cells)) rows b → h ⊆ h' →
  Forall2 (λ r cells, h' !! r = Some (Store.Cells cells)) rows b.
Proof.
  intros Hcells Hsub. eapply Forall2_impl; [done|].
  intros r cells Hr. cbv beta in *. by eapply lookup_weaken.
Qed.

Lemma holds_weaken (h h' : Store.heap) board b :
  Store.holds h board b → h ⊆ h' → Store.holds h' board b.
Proof.
  intros (rows & Hrows & Hcells) Hsub. exists rows.
  split; [by eapply lookup_weaken | by eapply rows_weaken].
Qed.

(** Reading through the reference reads the value. *)
Lemma get_holds (h : Store.heap) board b row col :
  Store.holds h board b → cell (h, board) row col = cell b row col.
Proof.
  intros (rows & Hrows & Hcells).
  change (Store.get (h, board) row col = get b row col).
  unfold Store.get, Store.rowsOf, get, index. cbn [fst snd]. rewrite Hrows. monad_step.
  case_decide; [|done].
  destruct (rows !! Z.to_nat row) as [r|] eqn:Hr.
  - destruct (Forall2_lookup_l _ _ _ _ _ Hcells Hr) as (cells & -> & Hcell).
    unfold Store.cellsOf. by rewrite Hcell.
  - apply lookup_ge_None in Hr. rewrite (Forall2_length _ _ _ Hcells) in Hr.
    apply lookup_ge_None in Hr. by rewrite Hr.
Qed.

Lemma copyRows_holds (rows : list positive) (b : Board) (h0 h : Store.heap) :
  h0 ⊆ h →
  Forall2 (λ r cells, h0 !! r = Some (Store.Cells cells)) rows b →
  ∃ rows' h', Store.copyRows rows h = Ok (rows', h')
    ∧ Forall2 (λ r cells, h' !! r = Some (Store.Cells cells)) rows' b.
Proof.
  intros Hsub Hcells. revert h Hsub.
  induction Hcells as [|r cells rows b Hr Hrest IH]; intros h Hsub.
  { exists [], h. split; [done | constructor]. }
  cbn [Store.copyRows].
  assert (Hread : Store.reading (λ h, Store.cellsOf h r) h = Ok (cells, h)).
  { unfold Store.reading, Store.cellsOf. by rewrite (lookup_weaken _ _ _ _ Hr Hsub). }
  rewrite (store_bind_run _ _ _ _ _ Hread).
  destruct (Store.alloc (Store.Cells cells) h) as [[r' h1]|] eqn:Halloc; [|done].
  rewrite (store_bind_run _ _ _ _ _ Halloc).
  apply alloc_Ok in Halloc as (Hnew & -> & Hsub1).
  destruct (IH (<[r' := Store.Cells cells]> h)) as (rows' & h' & Hcopy & Hcopies);
    [by etrans|].
  rewrite (store_bind_run _ _ _ _ _ Hcopy).
  exists (r' :: rows'), h'. split; [done|]. constructor; [|done].
  apply copyRows_Ok in Hcopy as (Hsub' & _).
  eapply lookup_weaken; [|done]. apply lookup_insert_eq.
Qed.

(** A copy of a stored board Store.holds the same value, in arrays of its own. *)
Lemma copyBoard_holds (board : positive) (b : Board) (h : Store.heap) :
  Store.holds h board b →
  ∃ testBoard h', Store.copyBoard board h = Ok (testBoard, h')
    ∧ holds_apart h' testBoard b.
Proof.
  intros (rows & Hrows & Hcells). unfold Store.copyBoard.
  assert (Hread : Store.reading (λ h, Store.rowsOf h board) h = Ok (rows, h)).
  { unfold Store.reading, Store.rowsOf. by rewrite Hrows. }
  rewrite (store_bind_run _ _ _ _ _ Hread).
  destruct (copyRows_holds rows b h h) as (rows' & h1 & Hcopy & Hcopies); [done..|].
  rewrite (store_bind_run _ _ _ _ _ Hcopy).
  apply copyRows_Ok in Hcopy as (_ & _ & Hnodup).
  destruct (Store.alloc (Store.Rows rows') h1) as [[testBoard h']|] eqn:Halloc; [|done].
  exists testBoard, h'. split; [done|].
  apply alloc_Ok in Halloc as (Hnew & -> & Hsub).
  exists rows'. split; [apply lookup_insert_eq|]. split; [done|].
  by eapply rows_weaken.
Qed.

(** Writing through a reference to a board with rows of its own is
    writing to the value. *)
Lemma setCell_holds (board : positive) (b : Board) row col v (h : Store.heap) :
  holds_apart h board b →
  match setCell b row col v with
  | Ok b' => ∃ h', Store.setCell board row col v h = Ok ((), h')
                   ∧ holds_apart h' board b'
  | Err e => Store.setCell board row col v h = Err e
  end.
Proof.
  intros (rows & Hrows & Hnodup & Hcells).
  unfold setCell, Store.setCell, Store.rowsOf, index. rewrite Hrows. monad_step.
  destruct (decide (0 ≤ row)) as [Hrow|]; [|done].
  destruct (rows !! Z.to_nat row) as [r|] eqn:Hr.
  - destruct (Forall2_lookup_l _ _ _ _ _ Hcells Hr) as (cells & Hb & Hcell).
    rewrite Hb. unfold Store.cellsOf. rewrite Hcell. monad_step.
    case_decide; [|done]. eexists. split; [done|].
    assert (r ≠ board) by (intros ->; congruence).
    exists rows. split; [by rewrite lookup_insert_ne|]. split; [done|].
    apply Forall2_same_length_lookup. split.
    { rewrite length_insert. by eapply Forall2_length. }
    intros i r' cells' Hr' Hcells'.
    destruct (decide (i = Z.to_nat row)) as [->|Hne].
    + rewrite list_lookup_insert_eq in Hcells' by by eapply lookup_lt_Some.
      simplify_eq. apply lookup_insert_eq.
    + rewrite list_lookup_insert_ne in Hcells' by done.
      rewrite lookup_insert_ne.
      * by eapply (Forall2_lookup_lr _ _ _ _ _ _ Hcells).
      * intros ->. by destruct (NoDup_lookup _ _ _ _ Hnodup Hr Hr').
  - apply lookup_ge_None in Hr. rewrite (Forall2_length _ _ _ Hcells) in Hr.
    apply lookup_ge_None in Hr. by rewrite Hr.
Qed.

Lemma store_bind_reading {A C} (f : Store.heap → result A) (k : A → Store.M C)
    (h : Store.heap) :
  (Store.reading f ≫= k) h = match f h with Ok a => k a h | Err e => Err e end.
Proof. unfold mbind, Store.M_bind, Store.reading. by destruct (f h). Qed.

Lemma outcome_reading {A} (f : Store.heap → result A) (h : Store.heap) :
  outcome (Store.reading f h) = f h.
Proof. unfold outcome, Store.reading. by destruct (f h). Qed.

Lemma outcome_Ok {A} (m : result (A * Store.heap)) (a : A) :
  outcome m = Ok a → ∃ h', m = Ok (a, h').
Proof.
  destruct m as [[a' h']|e]; [|discriminate].
  intros Heq. cbn in Heq. simplify_eq. by exists h'.
Qed.

Lemma simulate_agree (board : positive) (b : Board) col player (h : Store.heap) :
  Store.holds h board b →
  outcome (Store.simulate board col player h) = simulate b col player.
Proof.
  intros Hholds. unfold Store.simulate, simulate. rewrite copyBoard_id.
  destruct (copyBoard_holds board b h Hholds) as (testBoard & h1 & Hcopy & Hapart).
  rewrite (store_bind_run _ _ _ _ _ Hcopy), store_bind_reading.
  rewrite (getLowestEmptyRow_ext (h1, testBoard) b)
    by (intros r c; by apply get_holds, holds_apart_holds).
  destruct (getLowestEmptyRow b col) as [row|e]; monad_step; [|done].
  case_decide as Hfound; [|done].
  pose proof (setCell_holds testBoard b row col player h1 Hapart) as Hset.
  destruct (setCell b row col player) as [b'|e]; monad_step.
  - destruct Hset as (h2 & Hset & Hapart').
    rewrite (store_bind_run _ _ _ _ _ Hset), outcome_reading.
    apply checkWinnerStatic_ext. intros r c.
    by apply get_holds, holds_apart_holds.
  - by rewrite (store_bind_err _ _ _ _ Hset).
Qed.

Lemma firstWinning_agree (board : positive) (b : Board) player cols (h : Store.heap) :
  Store.holds h board b →
  outcome (Store.firstWinning board player cols h) = firstWinning b player cols.
Proof.
  revert h. induction cols as [|col cols IH]; intros h Hholds; [done|].
  cbn [Store.firstWinning firstWinning].
  rewrite <- (simulate_agree board b col player h Hholds).
  destruct (Store.simulate board col player h) as [[won h1]|e] eqn:Hsim.
  - rewrite (store_bind_run _ _ _ _ _ Hsim). cbn [outcome fst]. monad_step.
    destruct won; [done|]. apply IH.
    eapply holds_weaken; [done|]. by eapply simulate_preserves.
  - by rewrite (store_bind_err _ _ _ _ Hsim).
Qed.

(** On a stored board the bot returns what it returns on the board's
    value, and throws when it throws there. *)
Lemma getBotMove_agree (board : positive) (b : Board) botPlayer random
    (h : Store.heap) :
  Store.holds h board b →
  outcome (Store.getBotMove board botPlayer random h) = getBotMove b botPlayer random.
Proof.
  intros Hholds. unfold Store.getBotMove, getBotMove.
  rewrite <- (firstWinning_agree board b botPlayer columns h Hholds).
  destruct (Store.firstWinning board botPlayer columns h) as [[win h1]|e] eqn:Hwin;
    [|by rewrite (store_bind_err _ _ _ _ Hwin)].
  rewrite (store_bind_run _ _ _ _ _ Hwin). cbn [outcome fst]. monad_step.
  destruct win; [done|].
  assert (Hholds1 : Store.holds h1 board b).
  { eapply holds_weaken; [done|]. by eapply firstWinning_preserves. }
  rewrite <- (firstWinning_agree board b _ columns h1 Hholds1).
  destruct (Store.firstWinning board _ columns h1) as [[block h2]|e] eqn:Hblock;
    [|by rewrite (store_bind_err _ _ _ _ Hblock)].
  rewrite (store_bind_run _ _ _ _ _ Hblock). cbn [outcome fst]. monad_step.
  destruct block; [done|].
  assert (Hholds2 : Store.holds h2 board b).
  { eapply holds_weaken; [done|]. by eapply firstWinning_preserves. }
  assert (Hsame : ∀ r c, cell (h2, board) r c = cell b r c).
  { intros r c. by apply get_holds. }
  rewrite store_bind_reading, (firstOpen_ext _ _ Hsame).
  destruct (firstOpen b centerCols) as [center|e]; monad_step; [|done].
  destruct center; [done|].
  rewrite store_bind_reading, (collectValid_ext _ _ Hsame).
  by destruct (collectValid b columns []).
Qed.

Lemma collectValid_total (board : Board) cols validCols :
  wf_board board → ∃ valid, collectValid board cols validCols = Ok valid.
Proof.
  intros Hwf. revert validCols.
  induction cols as [|col cols IH]; intros validCols; cbn [collectValid]; [by eexists|].
  destruct (getLowestEmptyRow_total board col Hwf) as (row & -> & _). monad_step.
  case_decide; apply IH.
Qed.

(** On a well-formed board the bot returns: no read is out of the grid
    and no loop runs out of fuel. *)
Lemma getBotMove_total (board : Board) botPlayer random :
  wf_board board → ∃ res, getBotMove board botPlayer random = Ok res.
Proof.
  intros Hwf. unfold getBotMove.
  destruct (firstWinning_spec board botPlayer columns Hwf) as (win & -> & _).
  monad_step. destruct win; [by eexists|].
  destruct (firstWinning_spec board (opponentOf botPlayer) columns Hwf)
    as (block & -> & _).
  monad_step. destruct block; [by eexists|].
  destruct (firstOpen_spec board centerCols Hwf) as (center & -> & _).
  monad_step. destruct center; [by eexists|].
  destruct (collectValid_total board columns [] Hwf) as (valid & ->).
  monad_step. by eexists.
Qed.

#[global] Instance object_eq_dec : EqDecision Store.object.
Proof. solve_decision. Defined.

Lemma holds_alt (h : Store.heap) (board : positive) (b : Board) :
  match h !! board with
  | Some (Store.Rows rows) =>
      Forall2 (λ r cells, h !! r = Some (Store.Cells cells)) rows b
  | _ => False
  end ↔ Store.holds h board b.
Proof.
  unfold Store.holds. split.
  - destruct (h !! board) as [[rows|cells]|]; [|done..]. intros Hcells. by exists rows.
  - intros (rows & -> & Hcells). done.
Qed.

#[global] Instance holds_dec h board b : Decision (Store.holds h board b).
Proof.
  refine (decide_iff (holds_alt _ _ _) _).
  destruct (h !! board) as [[rows|cells]|]; apply _.
Defined.

(** C8. Let the store hold a board of six rows of seven cells. Then
    [getBotMove] returns, and when it has returned every array that was
    in the store is as it was before the call: in particular every cell of the
    board it was given reads as before, and the board still holds the same value.
    The column returned is the one computed from the value. *)
Theorem getBotMove_frame (h : Store.heap) (board : positive) (b : Board)
    (botPlayer : Player) (random : Q) :
  Store.holds h board b → wf_board b →
  ∃ col h', Store.getBotMove board botPlayer random h = Ok (col, h')
    ∧ h ⊆ h'
    ∧ (∀ row col, cell (h', board) row col = cell (h, board) row col)
    ∧ Store.holds h' board b
    ∧ getBotMove b botPlayer random = Ok col.
Proof.
  intros Hholds Hwf.
  destruct (getBotMove_total b botPlayer random Hwf) as (col & Hcol).
  pose proof (getBotMove_agree board b botPlayer random h Hholds) as Hagree.
  rewrite Hcol in Hagree. apply outcome_Ok in Hagree as (h' & Hrun).
  pose proof (getBotMove_preserves _ _ _ _ _ _ Hrun) as Hsub.
  pose proof (holds_weaken _ _ _ _ Hholds Hsub) as Hholds'.
  exists col, h'. split; [done|]. split; [done|]. split; [|done].
  intros r c. by rewrite !(get_holds _ _ b).
Qed.

Lemma getBotMove_frame_witness :
  Store.holds Examples.heap_col3 7 Examples.board_col3
  ∧ wf_board Examples.board_col3
  ∧ ∃ col h',
      Store.getBotMove 7 Yellow 0 Examples.heap_col3 = Ok (col, h')
      ∧ Examples.heap_col3 ⊆ h'
      ∧ (∀ row col, cell (h', 7%positive) row col
                    = cell (Examples.heap_col3, 7%positive) row col)
      ∧ Store.holds h' 7 Examples.board_col3
      ∧ getBotMove Examples.board_col3 Yellow 0 = Ok col.
Proof.
  split; [by_evaluation|]. split; [by_evaluation|].
  apply (getBotMove_frame Examples.heap_col3 7 Examples.board_col3 Yellow 0);
    by_evaluation.
Defined.

(** ** The model fails only where the code throws

    Beside the [TypeError] of the code, the model has outcomes of its own:
    a loop cut off, an assignment that would grow an array, a store that
    is no store. On board values none of them is ever met. *)

Lemma scanRows_throws (board : Board) col n e :
  scanRows board col n = Err e → e = TypeError.
Proof.
  induction n as [|n IH]; cbn [scanRows]; [discriminate|].
  change (cell board (Z.of_nat n) col) with (get board (Z.of_nat n) col).
  destruct (get board (Z.of_nat n) col) as [v|e'] eqn:Hget; monad_step.
  - case_decide; [discriminate | done].
  - intros Heq. simplify_eq. by eapply get_throws.
Qed.

(** A row that was found holds [null] in the column, on any board. *)
Lemma scanRows_found (board : Board) col n row :
  scanRows board col n = Ok row → row ≠ -1 → get board row col = Ok (Some Null).
Proof.
  induction n as [|n IH]; cbn [scanRows]; [intros Heq; by simplify_eq|].
  change (cell board (Z.of_nat n) col) with (get board (Z.of_nat n) col).
  destruct (get board (Z.of_nat n) col) as [v|e'] eqn:Hget; monad_step; [|discriminate].
  case_decide as Hnull; [|done]. intros Heq _. by simplify_eq.
Qed.

(** An assignment to a cell that reads as [null] stays within its row. *)
Lemma setCell_at_null (board : Board) row col v :
  get board row col = Ok (Some Null) → ∃ board', setCell board row col v = Ok board'.
Proof.
  unfold get, setCell. destruct (index board row) as [cells|]; [|discriminate].
  intros Hnull. assert (Hcell : index cells col = Some Null) by congruence.
  apply index_Some in Hcell as [Hcol Hcell]. apply lookup_lt_Some in Hcell.
  rewrite decide_True by lia. by eexists.
Qed.

Lemma checkWinnerStatic_throws (board : Board) row col e :
  checkWinnerStatic board row col = Err e → e = TypeError.
Proof.
  rewrite checkWinnerStatic_as_checkWinner.
  destruct (checkWinner board row col) as [line|e'] eqn:Hline; [discriminate|].
  monad_step. intros Heq. simplify_eq. by eapply checkWinner_throws.
Qed.

Lemma simulate_throws (board : Board) col player e :
  simulate board col player = Err e → e = TypeError.
Proof.
  unfold simulate, getLowestEmptyRow. rewrite copyBoard_id.
  destruct (scanRows board col (Z.to_nat ROWS)) as [row|e'] eqn:Hrow; monad_step.
  - case_decide as Hfound; [|discriminate].
    destruct (setCell_at_null board row col player) as [board' ->];
      [by eapply scanRows_found|].
    monad_step. apply checkWinnerStatic_throws.
  - intros Heq. simplify_eq. by eapply scanRows_throws.
Qed.

Lemma firstWinning_throws (board : Board) player cols e :
  firstWinning board player cols = Err e → e = TypeError.
Proof.
  induction cols as [|col cols IH]; cbn [firstWinning]; [discriminate|].
  destruct (simulate board col player) as [won|e'] eqn:Hsim; monad_step.
  - destruct won; [discriminate | done].
  - intros Heq. simplify_eq. by eapply simulate_throws.
Qed.

Lemma firstOpen_throws (board : Board) cols e :
  firstOpen board cols = Err e → e = TypeError.
Proof.
  induction cols as [|col cols IH]; cbn [firstOpen]; [discriminate|].
  unfold getLowestEmptyRow.
  destruct (scanRows board col (Z.to_nat ROWS)) as [row|e'] eqn:Hrow; monad_step.
  - case_decide; [discriminate | done].
  - intros Heq. simplify_eq. by eapply scanRows_throws.
Qed.

Lemma collectValid_throws (board : Board) cols validCols e :
  collectValid board cols validCols = Err e → e = TypeError.
Proof.
  revert validCols. induction cols as [|col cols IH]; intros validCols;
    cbn [collectValid]; [discriminate|].
  unfold getLowestEmptyRow.
  destruct (scanRows board col (Z.to_nat ROWS)) as [row|e'] eqn:Hrow; monad_step.
  - case_decide; apply IH.
  - intros Heq. simplify_eq. by eapply scanRows_throws.
Qed.

Lemma getBotMove_throws (board : Board) botPlayer random e :
  getBotMove board botPlayer random = Err e → e = TypeError.
Proof.
  unfold getBotMove.
  destruct (firstWinning board botPlayer columns) as [win|e1] eqn:Hwin; monad_step.
  2:{ intros Heq. simplify_eq. by eapply firstWinning_throws. }
  destruct win; [discriminate|].
  destruct (firstWinning board (opponentOf botPlayer) columns) as [block|e2] eqn:Hblock;
    monad_step.
  2:{ intros Heq. simplify_eq. by eapply firstWinning_throws. }
  destruct block; [discriminate|].
  destruct (firstOpen board centerCols) as [center|e3] eqn:Hcenter; monad_step.
  2:{ intros Heq. simplify_eq. by eapply firstOpen_throws. }
  destruct center; [discriminate|].
  destruct (collectValid board columns []) as [valid|e4] eqn:Hvalid; monad_step;
    [discriminate|].
  intros Heq. simplify_eq. by eapply collectValid_throws.
Qed.

(** Neither [dropPiece] nor the callback it schedules fails otherwise. *)
Lemma dropPiece_throws (gameState : GameState) col :
  (∀ e, dropPiece gameState col = Err e → e = TypeError)
  ∧ (∀ effects callback e,
       dropPiece gameState col = Ok effects → callback ∈ timers effects →
       callback = Err e → e = TypeError).
Proof.
  unfold dropPiece. destruct (_ || _ || _).
  { split; [discriminate|]. intros effects callback e Heq Hin.
    simplify_eq. by apply elem_of_nil in Hin. }
  rewrite copyBoard_id. unfold getLowestEmptyRow.
  destruct (scanRows (board gameState) col (Z.to_nat ROWS)) as [row|e'] eqn:Hrow;
    monad_step.
  2:{ split; [|discriminate]. intros e Heq. simplify_eq. by eapply scanRows_throws. }
  case_decide as Hfound.
  { split; [discriminate|]. intros effects callback e Heq Hin.
    simplify_eq. by apply elem_of_nil in Hin. }
  split; [discriminate|]. intros effects callback e Heq Hin. simplify_eq.
  cbn in Hin. apply list_elem_of_singleton in Hin as ->.
  unfold dropPiece_timeout.
  destruct (setCell_at_null (board gameState) row col (currentPlayer gameState))
    as [board' ->]; [by eapply scanRows_found|].
  monad_step.
  destruct (checkWinner board' row col) as [line|e'] eqn:Hline; monad_step;
    [discriminate|].
  intros Heq. simplify_eq. by eapply checkWinner_throws.
Qed.

(** Every board value can be put in a store. *)
Lemma allocRows_holds (b : Board) (h : Store.heap) :
  ∃ rows h', Store.allocRows b h = Ok (rows, h') ∧ h ⊆ h'
    ∧ Forall2 (λ r cells, h' !! r = Some (Store.Cells cells)) rows b.
Proof.
  revert h. induction b as [|cells b IH]; intros h.
  { exists [], h. split; [done|]. split; [done | constructor]. }
  cbn [Store.allocRows].
  destruct (Store.alloc (Store.Cells cells) h) as [[r h1]|] eqn:Halloc; [|done].
  rewrite (store_bind_run _ _ _ _ _ Halloc).
  apply alloc_Ok in Halloc as (Hnew & -> & Hsub).
  destruct (IH (<[r := Store.Cells cells]> h)) as (rows & h' & Hrows & Hsub' & Hcells).
  rewrite (store_bind_run _ _ _ _ _ Hrows).
  exists (r :: rows), h'. split; [done|]. split; [by etrans|].
  constructor; [|done]. eapply lookup_weaken; [|done]. apply lookup_insert_eq.
Qed.

Lemma allocBoard_holds (b : Board) (h : Store.heap) :
  ∃ board h', Store.allocBoard b h = Ok (board, h') ∧ h ⊆ h'
    ∧ Store.holds h' board b.
Proof.
  unfold Store.allocBoard.
  destruct (allocRows_holds b h) as (rows & h1 & Hrows & Hsub & Hcells).
  rewrite (store_bind_run _ _ _ _ _ Hrows).
  destruct (Store.alloc (Store.Rows rows) h1) as [[board h']|] eqn:Halloc; [|done].
  exists board, h'. split; [done|].
  apply alloc_Ok in Halloc as (Hnew & -> & Hsub').
  split; [by etrans; [|done]|].
  exists rows. split; [apply lookup_insert_eq | by eapply rows_weaken].
Qed.

(** ** The model runs *)

Example getLowestEmptyRow_col3 : getLowestEmptyRow Examples.board_col3 3 = Ok 2.
Proof. reflexivity. Qed.

Example getLowestEmptyRow_outside : getLowestEmptyRow Examples.board_col3 7 = Ok (-1).
Proof. reflexivity. Qed.

Example checkWinner_col3 : checkWinner Examples.board_col3 3 3 = Ok None.
Proof. vm_compute. reflexivity. Qed.

Example checkWinner_four :
  checkWinner Examples.board_four 2 3 = Ok (Some [(2, 3); (3, 3); (4, 3); (5, 3)]).
Proof. vm_compute. reflexivity. Qed.

Example checkWinnerStatic_four : checkWinnerStatic Examples.board_four 2 3 = Ok true.
Proof. vm_compute. reflexivity. Qed.

Example FourThrough_four : FourThrough Examples.board_four 2 3.
Proof. by_evaluation. Qed.

Example no_line_col3 : ∀ row col, ¬ FourThrough Examples.board_col3 row col.
Proof. by_evaluation. Qed.

Example getBotMove_col3_red : getBotMove Examples.board_col3 Red 0 = Ok (Some 3).
Proof. vm_compute. reflexivity. Qed.

Example getBotMove_col3_yellow : getBotMove Examples.board_col3 Yellow 0 = Ok (Some 3).
Proof. vm_compute. reflexivity. Qed.

Example getBotMove_empty : getBotMove initializeBoard Yellow 0 = Ok (Some 3).
Proof. vm_compute. reflexivity. Qed.

Example Store_getBotMove_col3 :
  match Store.allocBoard Examples.board_col3 ∅ with
  | Ok (b, h) => fst <$> (Store.getBotMove b Yellow 0 h)
  | Err e => Err e
  end = Ok (Some 3).
Proof. vm_compute. reflexivity. Qed.

Example board_drawn_no_line :
  Forall (λ r, Forall (λ c, ¬ FourThrough Examples.board_drawn r c) (seqZ 0 COLS))
    (seqZ 0 ROWS).
Proof. by_evaluation. Qed.

(** * Further properties *)

(** ** The line [checkWinner] returns *)

(** X1. The line [checkWinner] returns on a well-formed board is the whole
    run of the token of the cell checked along one axis: it lists that
    cell first, then the cells one way, then the cells the other way; its
    four to seven cells are distinct cells of the grid that all hold the
    token, the cells next to its two ends do not, and no axis earlier in
    the order horizontal, vertical, diagonal down, diagonal up has four
    in a row through the cell. *)
Theorem checkWinner_line (board : Board) (row col : Z) (line : list (Z * Z)) :
  wf_board board →
  checkWinner board row col = Ok (Some line) →
  ∃ p (i : nat) dr dc (n1 n2 : nat),
    p ≠ Null
    ∧ axes !! i = Some (dr, dc)
    ∧ (∀ (j : nat) dr' dc', (j < i)%nat → axes !! j = Some (dr', dc') →
         ¬ Window board p row col dr' dc')
    ∧ line = (λ j, (row + j * dr, col + j * dc)) <$> lineOffsets n1 n2
    ∧ (4 ≤ length line ≤ 7)%nat
    ∧ NoDup line
    ∧ lineOf board p line
    ∧ ¬ hit board (Some p) (row + (Z.of_nat n1 + 1) * dr) (col + (Z.of_nat n1 + 1) * dc)
    ∧ ¬ hit board (Some p) (row + - (Z.of_nat n2 + 1) * dr) (col + - (Z.of_nat n2 + 1) * dc).
Proof.
  intros Hwf. unfold checkWinner. change (cell board row col) with (get board row col).
  destruct (get board row col) as [[p|]|] eqn:Hget; monad_step; [|discriminate..].
  destruct (truthy (Some p)) eqn:Htoken; [|discriminate].
  assert (Hcenter : hit board (Some p) row col).
  { split; [by eapply get_wf_inBounds | done]. }
  rewrite directions_axes. intros Hline.
  destruct (lineDirections_first board p row col axes line Hwf axes_unit_step
              Hcenter Hline)
    as (i & dr & dc & n1 & n2 & Hi & Hfirst & -> & Hlen & Hhits & Hstop1 & Hstop2).
  assert (Hstep : unit_step dr dc).
  { apply axes_unit_step. by eapply list_elem_of_lookup_2. }
  exists p, i, dr, dc, n1, n2.
  split; [by destruct p|]. split; [done|]. split; [done|]. split; [done|].
  split; [|split; [|split; [|done]]].
  - rewrite length_fmap, length_lineOffsets. split; [lia|].
    destruct (Hhits (Z.of_nat n1)) as [Hin1 _]; [lia|].
    destruct (Hhits (- Z.of_nat n2)) as [Hin2 _]; [lia|].
    apply inBounds_true in Hin1, Hin2. unfold ROWS, COLS in *.
    apply unit_step_cases in Hstep as (Hdr & Hdc & Hne).
    destruct Hdr as [-> | [-> | ->]], Hdc as [-> | [-> | ->]]; lia.
  - apply NoDup_fmap_2; [by apply steps_inj | apply NoDup_lineOffsets].
  - unfold lineOf. apply Forall_fmap, Forall_forall. intros j Hj. cbn.
    apply Hhits. by apply elem_of_lineOffsets.
Qed.

Lemma checkWinner_line_witness :
  wf_board Examples.board_four
  ∧ checkWinner Examples.board_four 2 3 = Ok (Some [(2, 3); (3, 3); (4, 3); (5, 3)])
  ∧ ∃ p (i : nat) dr dc (n1 n2 : nat),
      p ≠ Null
      ∧ axes !! i = Some (dr, dc)
      ∧ (∀ (j : nat) dr' dc', (j < i)%nat → axes !! j = Some (dr', dc') →
           ¬ Window Examples.board_four p 2 3 dr' dc')
      ∧ [(2, 3); (3, 3); (4, 3); (5, 3)]
        = (λ j, (2 + j * dr, 3 + j * dc)) <$> lineOffsets n1 n2
      ∧ (4 ≤ length [(2, 3); (3, 3); (4, 3); (5, 3)] ≤ 7)%nat
      ∧ NoDup [(2, 3); (3, 3); (4, 3); (5, 3)]
      ∧ lineOf Examples.board_four p [(2, 3); (3, 3); (4, 3); (5, 3)]
      ∧ ¬ hit Examples.board_four (Some p)
            (2 + (Z.of_nat n1 + 1) * dr) (3 + (Z.of_nat n1 + 1) * dc)
      ∧ ¬ hit Examples.board_four (Some p)
            (2 + - (Z.of_nat n2 + 1) * dr) (3 + - (Z.of_nat n2 + 1) * dc).
Proof.
  split; [by_evaluation|]. split; [vm_compute; reflexivity|].
  apply (checkWinner_line Examples.board_four 2 3);
    [by_evaluation | vm_compute; reflexivity].
Defined.

(** ** Where the move resolver throws *)

(** X2. On any array of rows, whatever their lengths, [getLowestEmptyRow]
    throws exactly when the array has fewer than six rows, and then for
    every column; otherwise it returns [-1] or a row index from 0 to 5
    whose cell in the column is [null]. *)
Theorem getLowestEmptyRow_throws_iff (board : Board) (col : Z) :
  (getLowestEmptyRow board col = Err TypeError ↔ (length board < 6)%nat)
  ∧ (∀ e, getLowestEmptyRow board col = Err e → e = TypeError)
  ∧ (∀ row, getLowestEmptyRow board col = Ok row →
       row = -1 ∨ (0 ≤ row < ROWS ∧ get board row col = Ok (Some Null))).
Proof.
  split; [|split].
  - split.
    + intros Hthrow. destruct (decide (length board < 6)%nat) as [|Hlong]; [done|].
      exfalso. destruct (scanRows_spec board col (Z.to_nat ROWS)) as (row & Hrow & _).
      { intros k Hk. unfold ROWS in Hk.
        change (cell board (Z.of_nat k) col) with (get board (Z.of_nat k) col).
        unfold get. destruct (index_in_range board (Z.of_nat k)) as [r ->]; [lia|].
        by eexists. }
      unfold getLowestEmptyRow in Hthrow. congruence.
    + intros Hshort. unfold getLowestEmptyRow.
      change (Z.to_nat ROWS) with 6%nat. cbn [scanRows].
      change (cell board (Z.of_nat 5) col) with (get board 5 col).
      unfold get. rewrite index_outside by lia. done.
  - intros e. apply scanRows_throws.
  - intros row Hrow. destruct (decide (row = -1)) as [|Hfound]; [by left|]. right.
    split; [|by eapply scanRows_found].
    destruct (decide (length board < 6)%nat) as [Hshort|Hlong].
    { exfalso. unfold getLowestEmptyRow in Hrow.
      change (Z.to_nat ROWS) with 6%nat in Hrow. cbn [scanRows] in Hrow.
      change (cell board (Z.of_nat 5) col) with (get board 5 col) in Hrow.
      unfold get in Hrow. rewrite index_outside in Hrow by lia. done. }
    destruct (scanRows_spec board col (Z.to_nat ROWS)) as (row' & Hrow' & Hspec).
    { intros k Hk. unfold ROWS in Hk.
      change (cell board (Z.of_nat k) col) with (get board (Z.of_nat k) col).
      unfold get. destruct (index_in_range board (Z.of_nat k)) as [r ->]; [lia|].
      by eexists. }
    unfold getLowestEmptyRow in Hrow. rewrite Hrow in Hrow'. simplify_eq.
    destruct Hspec as [[? _]|(Hlt & _)]; [done|]. by rewrite Z2Nat.id in Hlt.
Qed.

(** ** An accepted drop *)

Lemma setCell_placed board row col v :
  wf_board board → 0 ≤ row < ROWS → 0 ≤ col < COLS →
  ∃ board', setCell board row col v = Ok board' ∧ placed board row col v board'.
Proof.
  intros Hwf Hrow Hcol.
  destruct (setCell_wf board row col v Hwf Hrow Hcol) as (board' & Hset & Hplaced).
  by exists board'.
Qed.

Lemma getLowestEmptyRow_at_Landing board col row :
  wf_board board → Landing board col row → getLowestEmptyRow board col = Ok row.
Proof.
  intros Hwf Hland.
  destruct (getLowestEmptyRow_Landing board col Hwf) as (row' & Hrow & Hspec).
  case_decide as Hfound; [by destruct Hspec; exists row|].
  by rewrite (Landing_unique _ _ _ _ Hland Hspec).
Qed.

Lemma getLowestEmptyRow_illegal board col :
  wf_board board → ¬ LegalDrop board col → getLowestEmptyRow board col = Ok (-1).
Proof.
  intros Hwf Hillegal.
  destruct (getLowestEmptyRow_Landing board col Hwf) as (row' & Hrow & Hspec).
  case_decide as Hfound; [by subst|]. destruct Hillegal. by exists row'.
Qed.

Lemma Landing_not_minus_one board col row : Landing board col row → row ≠ -1.
Proof. intros (Hrow & _). lia. Qed.

(** The state an accepted drop settles in, field by field. *)
Lemma dropPiece_settled_accept (gameState : GameState) col row :
  wf_board (board gameState) →
  truthy (Some (winner gameState)) = false →
  isBotThinking gameState = false →
  animatingPiece gameState = None →
  Landing (board gameState) col row →
  ∃ board' res,
    setCell (board gameState) row col (currentPlayer gameState) = Ok board'
    ∧ placed (board gameState) row col (currentPlayer gameState) board'
    ∧ checkWinner board' row col = Ok res
    ∧ dropPiece_settled gameState col
      = Ok {| board := board';
              currentPlayer := nextPlayerOf (currentPlayer gameState);
              winner := match res with
                        | Some _ => currentPlayer gameState
                        | None => Null
                        end;
              winningLine := res;
              gameMode := gameMode gameState;
              isBotThinking :=
                bool_decide (gameMode gameState = SinglePlayer)
                && negb (match res with Some _ => true | None => false end
                         || isFull board')
                && bool_decide (nextPlayerOf (currentPlayer gameState) = Yellow);
              animatingPiece := None |}.
Proof.
  intros Hwf Hnowinner Hidle Hstill Hland.
  pose proof Hland as (Hrow & Hcol & _).
  destruct (setCell_placed (board gameState) row col (currentPlayer gameState)
              Hwf Hrow Hcol) as (board' & Hset & Hplaced).
  pose proof Hplaced as (Hwf' & _).
  destruct (checkWinner_total board' row col Hwf' Hrow Hcol) as (res & Hres & _).
  exists board', res. split; [done|]. split; [done|]. split; [done|].
  unfold dropPiece_settled, dropPiece.
  rewrite Hnowinner, Hidle, Hstill, copyBoard_id. cbn [orb bool_decide].
  rewrite bool_decide_eq_false_2 by (intros ?; done).
  rewrite (getLowestEmptyRow_at_Landing _ _ _ Hwf Hland). monad_step.
  rewrite decide_False by by eapply Landing_not_minus_one.
  monad_step. cbn [timers omap list_omap]. unfold dropPiece_timeout.
  rewrite Hset. monad_step. rewrite Hres. monad_step. done.
Qed.

Lemma isFull_iff board :
  wf_board board → isFull board = true ↔ ¬ hasEmpty board.
Proof.
  intros Hwf. split.
  - intros Hfull (row & col & Hnull). by eapply isFull_no_null.
  - intros Hnone. unfold isFull. apply forallb_forall. intros cells Hcells.
    apply forallb_forall. intros c Hc. apply bool_decide_eq_true_2. intros ->.
    apply list_elem_of_In, list_elem_of_lookup in Hcells as [i Hi].
    apply list_elem_of_In, list_elem_of_lookup in Hc as [j Hj].
    apply Hnone. exists (Z.of_nat i), (Z.of_nat j). unfold get.
    assert (index (board) (Z.of_nat i) = Some cells) as ->.
    { apply index_Some. rewrite Nat2Z.id. split; [lia | done]. }
    f_equal. apply index_Some. rewrite Nat2Z.id. split; [lia | done].
Qed.

Lemma forallb_false {A} (f : A → bool) (l : list A) :
  forallb f l = false → ∃ (i : nat) x, l !! i = Some x ∧ f x = false.
Proof.
  induction l as [|x l IH]; [discriminate|]. cbn [forallb].
  destruct (f x) eqn:Hx; cbn [andb].
  - intros Hl. destruct (IH Hl) as (i & y & Hi & Hy). by exists (S i), y.
  - intros _. by exists O, x.
Qed.

Lemma isFull_false board : isFull board = false → hasEmpty board.
Proof.
  unfold isFull. intros Hfull.
  apply forallb_false in Hfull as (i & cells & Hi & Hcells).
  apply forallb_false in Hcells as (j & c & Hj & Hc).
  apply bool_decide_eq_false_1 in Hc.
  destruct (decide (c = Null)) as [->|Hne]; [|by destruct Hc].
  exists (Z.of_nat i), (Z.of_nat j). unfold get.
  assert (index board (Z.of_nat i) = Some cells) as ->.
  { apply index_Some. rewrite Nat2Z.id. split; [lia | done]. }
  f_equal. apply index_Some. rewrite Nat2Z.id. split; [lia | done].
Qed.

(** X3. A drop is accepted exactly when no winner is recorded, the bot is
    not thinking, no token is falling and the column takes a token; in
    every other case, a full column and a column index outside the board
    included, [dropPiece] asks for nothing: no update, no sound, no
    callback. *)
Theorem dropPiece_accepted_iff (gameState : GameState) (col : Z) :
  wf_board (board gameState) →
  (dropPiece gameState col = Ok []
   ↔ ¬ (idle gameState ∧ LegalDrop (board gameState) col))
  ∧ (idle gameState ∧ LegalDrop (board gameState) col →
     ∃ row updater callback,
       Landing (board gameState) col row
       ∧ dropPiece gameState col
         = Ok [SetGameState updater; PlayDropSound; SetTimeout callback 600]
       ∧ ∀ prev, animatingPiece (updater prev) = Some (row, col)).
Proof.
  intros Hwf.
  assert (Haccept : idle gameState ∧ LegalDrop (board gameState) col →
    ∃ row updater callback,
       Landing (board gameState) col row
       ∧ dropPiece gameState col
         = Ok [SetGameState updater; PlayDropSound; SetTimeout callback 600]
       ∧ ∀ prev, animatingPiece (updater prev) = Some (row, col)).
  { intros [(Hnowinner & Hidle & Hstill) [row Hland]].
    exists row. unfold dropPiece.
    rewrite Hnowinner, Hidle, Hstill, copyBoard_id. cbn [orb bool_decide].
    rewrite bool_decide_eq_false_2 by (intros ?; done).
    rewrite (getLowestEmptyRow_at_Landing _ _ _ Hwf Hland). monad_step.
    rewrite decide_False by by eapply Landing_not_minus_one.
    eexists _, _. split; [done|]. split; [done|]. done. }
  split; [|done]. split.
  - intros Hnothing Hcan. destruct (Haccept Hcan) as (row & f & cb & _ & Hrun & _).
    congruence.
  - intros Hcannot. unfold dropPiece.
    destruct (truthy (Some (winner gameState))) eqn:Hwinner; [done|].
    destruct (isBotThinking gameState) eqn:Hthinking; [done|].
    destruct (animatingPiece gameState) as [piece|] eqn:Hpiece; [done|].
    cbn [orb]. rewrite bool_decide_eq_false_2 by (intros ?; done).
    rewrite copyBoard_id, getLowestEmptyRow_illegal; [done | done |].
    intros Hlegal. apply Hcannot. by split.
Qed.

Lemma dropPiece_accepted_iff_witness :
  wf_board (board Examples.state_col3)
  ∧ (dropPiece Examples.state_col3 3 = Ok []
     ↔ ¬ (idle Examples.state_col3 ∧ LegalDrop (board Examples.state_col3) 3))
  ∧ (idle Examples.state_col3 ∧ LegalDrop (board Examples.state_col3) 3 →
     ∃ row updater callback,
       Landing (board Examples.state_col3) 3 row
       ∧ dropPiece Examples.state_col3 3
         = Ok [SetGameState updater; PlayDropSound; SetTimeout callback 600]
       ∧ ∀ prev, animatingPiece (updater prev) = Some (row, 3)).
Proof.
  split; [by_evaluation|].
  apply (dropPiece_accepted_iff Examples.state_col3 3). by_evaluation.
Defined.

(** X4. An accepted drop puts the token of the player to move in the
    lowest empty cell of the column and changes no other cell; the board
    stays six by seven, the turn passes to the other player, no token is
    left falling, and the mode is kept. *)
Theorem dropPiece_places (gameState : GameState) (col : Z) :
  wf_board (board gameState) → idle gameState → LegalDrop (board gameState) col →
  ∃ row state,
    Landing (board gameState) col row
    ∧ dropPiece_settled gameState col = Ok state
    ∧ placed (board gameState) row col (currentPlayer gameState) (board state)
    ∧ currentPlayer state = nextPlayerOf (currentPlayer gameState)
    ∧ animatingPiece state = None
    ∧ gameMode state = gameMode gameState.
Proof.
  intros Hwf (Hnowinner & Hidle & Hstill) [row Hland].
  destruct (dropPiece_settled_accept gameState col row Hwf Hnowinner Hidle Hstill Hland)
    as (board' & res & _ & Hplaced & _ & Hrun).
  exists row. eexists. split; [done|]. split; [done|]. done.
Qed.

Lemma dropPiece_places_witness :
  wf_board (board Examples.state_col3) ∧ idle Examples.state_col3
  ∧ LegalDrop (board Examples.state_col3) 3
  ∧ ∃ row state,
      Landing (board Examples.state_col3) 3 row
      ∧ dropPiece_settled Examples.state_col3 3 = Ok state
      ∧ placed (board Examples.state_col3) row 3
          (currentPlayer Examples.state_col3) (board state)
      ∧ currentPlayer state = nextPlayerOf (currentPlayer Examples.state_col3)
      ∧ animatingPiece state = None
      ∧ gameMode state = gameMode Examples.state_col3.
Proof.
  split; [by_evaluation|]. split; [by repeat split|]. split; [by_evaluation|].
  apply (dropPiece_places Examples.state_col3 3);
    [by_evaluation | by repeat split | by_evaluation].
Defined.

Lemma checkWinner_line_cells (board : Board) row col line :
  wf_board board → checkWinner board row col = Ok (Some line) →
  ∃ p, p ≠ Null ∧ get board row col = Ok (Some p)
    ∧ lineOf board p line ∧ (4 ≤ length line)%nat ∧ (row, col) ∈ line.
Proof.
  intros Hwf. unfold checkWinner. change (cell board row col) with (get board row col).
  destruct (get board row col) as [[p|]|] eqn:Hget; monad_step; [|discriminate..].
  destruct (truthy (Some p)) eqn:Htoken; [|discriminate].
  assert (Hcenter : hit board (Some p) row col).
  { split; [by eapply get_wf_inBounds | done]. }
  rewrite directions_axes. intros Hline.
  destruct (lineDirections_first board p row col axes line Hwf axes_unit_step
              Hcenter Hline)
    as (i & dr & dc & n1 & n2 & Hi & Hfirst & -> & Hlen & Hhits & _).
  exists p. split; [by destruct p|]. split; [done|]. split; [|split].
  - unfold lineOf. apply Forall_fmap, Forall_forall. intros j Hj. cbn.
    apply Hhits. by apply elem_of_lineOffsets.
  - rewrite length_fmap, length_lineOffsets. lia.
  - apply list_elem_of_fmap. exists 0. split; [f_equal; ring|].
    apply elem_of_lineOffsets. lia.
Qed.

(** The line found through a cell holds the token of that cell. *)
Lemma checkWinner_lineOf board row col line v :
  wf_board board → get board row col = Ok (Some v) →
  checkWinner board row col = Ok (Some line) →
  lineOf board v line ∧ (4 ≤ length line)%nat ∧ (row, col) ∈ line.
Proof.
  intros Hwf Hget Hline.
  destruct (checkWinner_line_cells board row col line Hwf Hline)
    as (p & Hp & Hcell & Hall & Hlen & Hin).
  assert (p = v) as -> by congruence. done.
Qed.

(** X5. An accepted drop records a win exactly when the token completes
    four in a row through the cell it lands in: the winner is then the
    player who moved, and the winning line is made of at least four cells
    that hold that player's token, the landing cell among them.
    Otherwise no winner and no line are recorded. *)
Theorem dropPiece_records_win (gameState : GameState) (col : Z) :
  wf_board (board gameState) → idle gameState → LegalDrop (board gameState) col →
  ∃ row state,
    Landing (board gameState) col row
    ∧ dropPiece_settled gameState col = Ok state
    ∧ (FourThrough (board state) row col →
       winner state = currentPlayer gameState
       ∧ winner state ≠ Null
       ∧ ∃ line, winningLine state = Some line
           ∧ lineOf (board state) (winner state) line
           ∧ (4 ≤ length line)%nat
           ∧ (row, col) ∈ line)
    ∧ (¬ FourThrough (board state) row col →
       winner state = Null ∧ winningLine state = None).
Proof.
  intros Hwf (Hnowinner & Hidle & Hstill) [row Hland].
  destruct (dropPiece_settled_accept gameState col row Hwf Hnowinner Hidle Hstill Hland)
    as (board' & res & _ & (Hwf' & Hcell & _) & Hres & Hrun).
  pose proof Hland as (Hrow & Hcol & _).
  destruct (checkWinner_total board' row col Hwf' Hrow Hcol) as (res' & Hres' & Hfour).
  rewrite Hres in Hres'. simplify_eq.
  exists row. eexists. split; [done|]. split; [done|]. cbn.
  destruct res' as [line|].
  - split; [|by destruct Hfour]. intros _.
    destruct (checkWinner_lineOf board' row col line _ Hwf' Hcell Hres)
      as (Hline & Hlen & Hin).
    split; [done|]. split; [|by exists line].
    intros Hnull. destruct Hfour as [_ (p & Hp & dr & dc & _ & Hwin)].
    apply Window_center in Hwin as [_ Hget]. congruence.
  - split; [done|]. done.
Qed.

Lemma dropPiece_records_win_witness :
  wf_board (board Examples.state_col3) ∧ idle Examples.state_col3
  ∧ LegalDrop (board Examples.state_col3) 3
  ∧ ∃ row state,
      Landing (board Examples.state_col3) 3 row
      ∧ dropPiece_settled Examples.state_col3 3 = Ok state
      ∧ (FourThrough (board state) row 3 →
         winner state = currentPlayer Examples.state_col3
         ∧ winner state ≠ Null
         ∧ ∃ line, winningLine state = Some line
             ∧ lineOf (board state) (winner state) line
             ∧ (4 ≤ length line)%nat
             ∧ (row, 3) ∈ line)
      ∧ (¬ FourThrough (board state) row 3 →
         winner state = Null ∧ winningLine state = None).
Proof.
  split; [by_evaluation|]. split; [by repeat split|]. split; [by_evaluation|].
  apply (dropPiece_records_win Examples.state_col3 3);
    [by_evaluation | by repeat split | by_evaluation].
Defined.

(** X6. After an accepted drop the bot is set thinking exactly when the
    mode is single-player, red has just moved, the token completed no
    four in a row and the board still has an empty cell; and the state is
    a draw exactly when the token completed no four in a row and filled
    the last empty cell. *)
Theorem dropPiece_then (gameState : GameState) (col : Z) :
  wf_board (board gameState) → idle gameState → LegalDrop (board gameState) col →
  ∃ row state,
    Landing (board gameState) col row
    ∧ dropPiece_settled gameState col = Ok state
    ∧ (isBotThinking state = true
       ↔ gameMode gameState = SinglePlayer
         ∧ currentPlayer gameState = Red
         ∧ ¬ FourThrough (board state) row col
         ∧ hasEmpty (board state))
    ∧ (isDraw state = true
       ↔ ¬ FourThrough (board state) row col ∧ ¬ hasEmpty (board state)).
Proof.
  intros Hwf (Hnowinner & Hidle & Hstill) [row Hland].
  destruct (dropPiece_settled_accept gameState col row Hwf Hnowinner Hidle Hstill Hland)
    as (board' & res & _ & (Hwf' & Hcell & _) & Hres & Hrun).
  pose proof Hland as (Hrow & Hcol & _).
  destruct (checkWinner_total board' row col Hwf' Hrow Hcol) as (res' & Hres' & Hfour).
  rewrite Hres in Hres'. simplify_eq.
  pose proof (isFull_iff board' Hwf') as Hfull.
  exists row. eexists. split; [done|]. split; [done|]. unfold isDraw. cbn.
  rewrite !andb_true_iff, negb_true_iff, orb_false_iff, !bool_decide_eq_true.
  unfold nextPlayerOf.
  destruct res' as [line|].
  - destruct Hfour as [_ Hfour]. split.
    + split; [intros [[_ [? _]] _]; discriminate | by intros (_ & _ & ? & _)].
    + split; [|by intros [? _]]. intros [Htoken _]. exfalso.
      destruct Hfour as (p & Hp & dr & dc & _ & Hwin).
      apply Window_center in Hwin as [_ Hget].
      assert (currentPlayer gameState = p) as Hp' by congruence.
      rewrite Hp' in Htoken. by destruct p.
  - split.
    + split.
      * intros [[Hmode [_ Hnotfull]] Hnext]. split; [done|].
        split; [by case_decide|]. split; [done|].
        by apply isFull_false.
      * intros (Hmode & -> & _ & Hempty). split; [split; [done|split; [done|]]|done].
        destruct (isFull board') eqn:Hfull'; [|done]. by destruct (proj1 Hfull).
    + split; [intros [_ ?]; split; [done | by apply Hfull] |].
      intros [_ ?]. split; [done | by apply Hfull].
Qed.

Lemma dropPiece_then_witness :
  wf_board (board Examples.state_col3) ∧ idle Examples.state_col3
  ∧ LegalDrop (board Examples.state_col3) 4
  ∧ ∃ row state,
      Landing (board Examples.state_col3) 4 row
      ∧ dropPiece_settled Examples.state_col3 4 = Ok state
      ∧ (isBotThinking state = true
         ↔ gameMode Examples.state_col3 = SinglePlayer
           ∧ currentPlayer Examples.state_col3 = Red
           ∧ ¬ FourThrough (board state) row 4
           ∧ hasEmpty (board state))
      ∧ (isDraw state = true
         ↔ ¬ FourThrough (board state) row 4 ∧ ¬ hasEmpty (board state)).
Proof.
  split; [by_evaluation|]. split; [by repeat split|]. split; [by_evaluation|].
  apply (dropPiece_then Examples.state_col3 4);
    [by_evaluation | by repeat split | by_evaluation].
Defined.

(** X7. The callback of a drop does not look at the board, the player to
    move, the winner or the line of the state it updates: whatever that
    state has become since the click, after a reset for instance, it
    installs the board computed at the click with the new token in it,
    passes the turn on from the player of the click, and keeps of the
    state only its mode. *)
Theorem dropPiece_callback_overwrites (gameState : GameState) (col : Z) :
  wf_board (board gameState) → idle gameState → LegalDrop (board gameState) col →
  ∃ row animate commit,
    Landing (board gameState) col row
    ∧ dropPiece gameState col
      = Ok [ SetGameState animate; PlayDropSound;
             SetTimeout (Ok [SetGameState commit]) 600 ]
    ∧ ∀ prev,
        placed (board gameState) row col (currentPlayer gameState) (board (commit prev))
        ∧ board (commit prev) = board (commit gameState)
        ∧ currentPlayer (commit prev) = nextPlayerOf (currentPlayer gameState)
        ∧ winner (commit prev) = winner (commit gameState)
        ∧ winningLine (commit prev) = winningLine (commit gameState)
        ∧ animatingPiece (commit prev) = None
        ∧ gameMode (commit prev) = gameMode prev.
Proof.
  intros Hwf (Hnowinner & Hidle & Hstill) [row Hland].
  pose proof Hland as (Hrow & Hcol & _).
  destruct (setCell_placed (board gameState) row col (currentPlayer gameState)
              Hwf Hrow Hcol) as (board' & Hset & Hplaced).
  pose proof Hplaced as (Hwf' & _).
  destruct (checkWinner_total board' row col Hwf' Hrow Hcol) as (res & Hres & _).
  exists row. unfold dropPiece.
  rewrite Hnowinner, Hidle, Hstill, copyBoard_id. cbn [orb bool_decide].
  rewrite bool_decide_eq_false_2 by (intros ?; done).
  rewrite (getLowestEmptyRow_at_Landing _ _ _ Hwf Hland). monad_step.
  rewrite decide_False by by eapply Landing_not_minus_one.
  unfold dropPiece_timeout. rewrite Hset. monad_step. rewrite Hres. monad_step.
  eexists _, _. split; [done|]. split; [done|]. intros prev. by cbn.
Qed.

Lemma dropPiece_callback_overwrites_witness :
  wf_board (board Examples.state_col3) ∧ idle Examples.state_col3
  ∧ LegalDrop (board Examples.state_col3) 3
  ∧ ∃ row animate commit,
      Landing (board Examples.state_col3) 3 row
      ∧ dropPiece Examples.state_col3 3
        = Ok [ SetGameState animate; PlayDropSound;
               SetTimeout (Ok [SetGameState commit]) 600 ]
      ∧ ∀ prev,
          placed (board Examples.state_col3) row 3
            (currentPlayer Examples.state_col3) (board (commit prev))
          ∧ board (commit prev) = board (commit Examples.state_col3)
          ∧ currentPlayer (commit prev)
            = nextPlayerOf (currentPlayer Examples.state_col3)
          ∧ winner (commit prev) = winner (commit Examples.state_col3)
          ∧ winningLine (commit prev) = winningLine (commit Examples.state_col3)
          ∧ animatingPiece (commit prev) = None
          ∧ gameMode (commit prev) = gameMode prev.
Proof.
  split; [by_evaluation|]. split; [by repeat split|]. split; [by_evaluation|].
  apply (dropPiece_callback_overwrites Examples.state_col3 3);
    [by_evaluation | by repeat split | by_evaluation].
Defined.

(** ** What the bot returns *)

Lemma hasEmpty_LegalDrop board row col :
  wf_board board → get board row col = Ok (Some Null) →
  LegalDrop board col ∧ col ∈ centerCols.
Proof.
  intros Hwf Hnull.
  pose proof (get_wf_inBounds _ _ _ _ Hwf Hnull) as Hin.
  apply inBounds_true in Hin as [Hrow Hcol].
  split; [|unfold centerCols, COLS in *; rewrite !elem_of_cons; lia].
  destruct (getLowestEmptyRow_total board col Hwf) as (r & Hr & Hspec).
  destruct Hspec as [[_ Hnone] | (Hlt & Hcell & Hbelow)].
  - by destruct (Hnone row).
  - exists r. split; [exact Hlt|]. split; [exact Hcol|]. split; [exact Hcell | exact Hbelow].
Qed.

Lemma LegalDrop_hasEmpty board col : LegalDrop board col → hasEmpty board.
Proof. intros (row & _ & _ & Hnull & _). by exists row, col. Qed.

Lemma collectValid_none (board : Board) cols validCols :
  wf_board board → (∀ col, col ∈ cols → ¬ LegalDrop board col) →
  collectValid board cols validCols = Ok validCols.
Proof.
  intros Hwf. revert validCols.
  induction cols as [|col cols IH]; intros validCols Hnone; [done|].
  cbn [collectValid].
  rewrite getLowestEmptyRow_illegal; [|done | apply Hnone; left].
  monad_step. rewrite decide_False by (intros Hne; by apply Hne).
  apply IH. intros c Hc. apply Hnone. by right.
Qed.

(** The three tiers and the fall-back, together. *)
Lemma getBotMove_result (board : Board) (botPlayer : Player) :
  wf_board board →
  ∃ res,
    (∀ random, getBotMove board botPlayer random = Ok res)
    ∧ (res = None ↔ ¬ hasEmpty board)
    ∧ (∀ col, res = Some col → LegalDrop board col).
Proof.
  intros Hwf.
  assert (Hsome : ∀ col, LegalDrop board col →
            (Some col = None ↔ ¬ hasEmpty board)
            ∧ ∀ col', Some col = Some col' → LegalDrop board col').
  { intros col Hlegal. split.
    - split; [discriminate|]. intros Hnone. destruct Hnone.
      by eapply LegalDrop_hasEmpty.
    - intros col' Heq. by simplify_eq. }
  destruct (firstWinning_spec board botPlayer columns Hwf) as (win & Hwin & Hres1).
  destruct win as [col|].
  { exists (Some col). split.
    - intros random. unfold getBotMove. by rewrite Hwin.
    - apply Hsome. destruct Hres1 as (_ & _ & Hcol & _). by eapply WinningDrop_legal. }
  destruct (firstWinning_spec board (opponentOf botPlayer) columns Hwf)
    as (block & Hblock & Hres2).
  destruct block as [col|].
  { exists (Some col). split.
    - intros random. unfold getBotMove. rewrite Hwin. monad_step. by rewrite Hblock.
    - apply Hsome. destruct Hres2 as (_ & _ & Hcol & _). by eapply WinningDrop_legal. }
  destruct (firstOpen_spec board centerCols Hwf) as (center & Hcenter & Hres3).
  destruct center as [col|].
  { exists (Some col). split.
    - intros random. unfold getBotMove. rewrite Hwin. monad_step.
      rewrite Hblock. monad_step. by rewrite Hcenter.
    - apply Hsome. by destruct Hres3 as (_ & _ & Hcol & _). }
  exists None. split; [|split; [|discriminate]].
  - intros random. unfold getBotMove. rewrite Hwin. monad_step.
    rewrite Hblock. monad_step. rewrite Hcenter. monad_step.
    rewrite (collectValid_none board columns [] Hwf).
    { monad_step. unfold index. by case_decide. }
    intros col Hcol Hlegal. destruct Hlegal as (row & _ & _ & Hnull & _).
    destruct (hasEmpty_LegalDrop board row col Hwf Hnull) as [Hlegal Hin].
    by apply (Hres3 col).
  - split; [|done]. intros _ (row & col & Hnull).
    destruct (hasEmpty_LegalDrop board row col Hwf Hnull) as [Hlegal Hin].
    by apply (Hres3 col).
Qed.

(** X8. On a well-formed board the answer of [getBotMove] does not depend
    on the random draw. It is a column that takes a token whenever the
    board has an empty cell, and [undefined] exactly when the board is
    full: the random tier is entered only with no valid column left, and
    then indexes an empty array. *)
Theorem getBotMove_answer (board : Board) (botPlayer : Player) :
  wf_board board →
  ∃ res,
    (∀ random, getBotMove board botPlayer random = Ok res)
    ∧ (res = None ↔ ¬ hasEmpty board)
    ∧ (∀ col, res = Some col → LegalDrop board col).
Proof. apply getBotMove_result. Qed.

Lemma getBotMove_answer_witness :
  wf_board Examples.board_drawn
  ∧ ∃ res,
      (∀ random, getBotMove Examples.board_drawn Yellow random = Ok res)
      ∧ (res = None ↔ ¬ hasEmpty Examples.board_drawn)
      ∧ (∀ col, res = Some col → LegalDrop Examples.board_drawn col).
Proof.
  split; [by_evaluation|].
  apply (getBotMove_answer Examples.board_drawn Yellow). by_evaluation.
Defined.

(** ** The bot's turn *)

(** The updater of the second callback, on the state it finds. *)
Lemma botEffect_commit_accept (prev : GameState) botMove row :
  wf_board (board prev) → Landing (board prev) botMove row →
  ∃ board' res,
    setCell (board prev) row botMove Yellow = Ok board'
    ∧ placed (board prev) row botMove Yellow board'
    ∧ checkWinner board' row botMove = Ok res
    ∧ botEffect_commit botMove prev
      = Ok {| board := board';
              currentPlayer := Red;
              winner := match res with Some _ => Yellow | None => Null end;
              winningLine := res;
              gameMode := gameMode prev;
              isBotThinking := false;
              animatingPiece := None |}.
Proof.
  intros Hwf Hland. pose proof Hland as (Hrow & Hcol & _).
  destruct (setCell_placed (board prev) row botMove Yellow Hwf Hrow Hcol)
    as (board' & Hset & Hplaced).
  pose proof Hplaced as (Hwf' & _).
  destruct (checkWinner_total board' row botMove Hwf' Hrow Hcol) as (res & Hres & _).
  exists board', res. split; [done|]. split; [done|]. split; [done|].
  unfold botEffect_commit. rewrite copyBoard_id.
  rewrite (getLowestEmptyRow_at_Landing _ _ _ Hwf Hland). monad_step.
  rewrite decide_False by by eapply Landing_not_minus_one.
  rewrite Hset. monad_step. by rewrite Hres.
Qed.

(** X9. The bot's move is made on the board as it is when the second
    callback runs, not as it was when the move was chosen: the landing
    row is computed again there. If the column takes a token, a yellow
    token is put in its lowest empty cell, no other cell changes, red is
    to move, the bot stops thinking, and yellow is recorded as winner
    exactly when the token completes four in a row. If the column has no
    empty cell any more, the state is returned as it is. Neither case
    looks at the winner or at [isBotThinking] of the state. *)
Theorem botEffect_commit_spec (prev : GameState) (botMove : Z) :
  wf_board (board prev) →
  (¬ LegalDrop (board prev) botMove → botEffect_commit botMove prev = Ok prev)
  ∧ (∀ row, Landing (board prev) botMove row →
       ∃ state,
         botEffect_commit botMove prev = Ok state
         ∧ placed (board prev) row botMove Yellow (board state)
         ∧ currentPlayer state = Red
         ∧ isBotThinking state = false
         ∧ animatingPiece state = None
         ∧ gameMode state = gameMode prev
         ∧ (FourThrough (board state) row botMove →
            winner state = Yellow
            ∧ ∃ line, winningLine state = Some line
                ∧ lineOf (board state) Yellow line ∧ (4 ≤ length line)%nat)
         ∧ (¬ FourThrough (board state) row botMove →
            winner state = Null ∧ winningLine state = None)).
Proof.
  intros Hwf. split.
  - intros Hillegal. unfold botEffect_commit.
    rewrite copyBoard_id, getLowestEmptyRow_illegal by done. monad_step.
    by rewrite decide_True.
  - intros row Hland.
    destruct (botEffect_commit_accept prev botMove row Hwf Hland)
      as (board' & res & _ & (Hwf' & Hcell & Hold) & Hres & Hrun).
    pose proof Hland as (Hrow & Hcol & _).
    destruct (checkWinner_total board' row botMove Hwf' Hrow Hcol)
      as (res' & Hres' & Hfour).
    rewrite Hres in Hres'. simplify_eq.
    eexists. split; [done|]. cbn. split; [done|]. do 4 (split; [done|]).
    destruct res' as [line|].
    + split; [|by destruct Hfour]. intros _. split; [done|].
      destruct (checkWinner_lineOf board' row botMove line _ Hwf' Hcell Hres)
        as (Hline & Hlen & _).
      by exists line.
    + split; [done|]. done.
Qed.

Lemma botEffect_commit_spec_witness :
  wf_board (board Examples.state_col3)
  ∧ (¬ LegalDrop (board Examples.state_col3) 3 →
     botEffect_commit 3 Examples.state_col3 = Ok Examples.state_col3)
  ∧ (∀ row, Landing (board Examples.state_col3) 3 row →
       ∃ state,
         botEffect_commit 3 Examples.state_col3 = Ok state
         ∧ placed (board Examples.state_col3) row 3 Yellow (board state)
         ∧ currentPlayer state = Red
         ∧ isBotThinking state = false
         ∧ animatingPiece state = None
         ∧ gameMode state = gameMode Examples.state_col3
         ∧ (FourThrough (board state) row 3 →
            winner state = Yellow
            ∧ ∃ line, winningLine state = Some line
                ∧ lineOf (board state) Yellow line ∧ (4 ≤ length line)%nat)
         ∧ (¬ FourThrough (board state) row 3 →
            winner state = Null ∧ winningLine state = None)).
Proof.
  split; [by_evaluation|].
  apply (botEffect_commit_spec Examples.state_col3 3). by_evaluation.
Defined.

(** The state a turn of the bot settles in, field by field. *)
Lemma botTurn_settled_accept (gameState : GameState) random :
  wf_board (board gameState) → botEffect_runs gameState = true →
  hasEmpty (board gameState) →
  ∃ col row board' res,
    getBotMove (board gameState) Yellow random = Ok (Some col)
    ∧ Landing (board gameState) col row
    ∧ setCell (board gameState) row col Yellow = Ok board'
    ∧ placed (board gameState) row col Yellow board'
    ∧ checkWinner board' row col = Ok res
    ∧ botTurn_settled gameState random
      = Ok {| board := board';
              currentPlayer := Red;
              winner := match res with Some _ => Yellow | None => Null end;
              winningLine := res;
              gameMode := gameMode gameState;
              isBotThinking := false;
              animatingPiece := None |}.
Proof.
  intros Hwf Hruns Hempty.
  destruct (getBotMove_result (board gameState) Yellow Hwf)
    as (answer & Hanswer & Hnone & Hlegal).
  destruct answer as [col|]; [|by destruct (proj1 Hnone)].
  destruct (Hlegal col eq_refl) as [row Hland].
  destruct (botEffect_commit_accept (botEffect_animate row col gameState) col row)
    as (board' & res & Hset & Hplaced & Hres & Hcommit); [done..|].
  exists col, row, board', res. do 5 (split; [done|]).
  unfold botTurn_settled, botEffect_timeout. rewrite Hruns, Hanswer. monad_step.
  change (columnOf (Some col)) with col.
  rewrite (getLowestEmptyRow_at_Landing _ _ _ Hwf Hland).
  monad_step. rewrite decide_False by by eapply Landing_not_minus_one.
  monad_step. exact Hcommit.
Qed.

(** X10. A turn of the bot. If the bot is not thinking or a winner is
    recorded, nothing happens. If the board is full, the first callback
    finds no row and returns: nothing changes and the bot is left
    thinking. Otherwise a yellow token goes to the lowest empty cell of
    the column [getBotMove] chose for yellow on the board of the state,
    no other cell changes, red is to move and the bot stops thinking. *)
Theorem botTurn_spec (gameState : GameState) (random : Q) :
  wf_board (board gameState) →
  (botEffect_runs gameState = false → botTurn_settled gameState random = Ok gameState)
  ∧ (¬ hasEmpty (board gameState) → botTurn_settled gameState random = Ok gameState)
  ∧ (botEffect_runs gameState = true → hasEmpty (board gameState) →
     ∃ col row state,
       getBotMove (board gameState) Yellow random = Ok (Some col)
       ∧ Landing (board gameState) col row
       ∧ botTurn_settled gameState random = Ok state
       ∧ placed (board gameState) row col Yellow (board state)
       ∧ currentPlayer state = Red
       ∧ isBotThinking state = false
       ∧ animatingPiece state = None
       ∧ gameMode state = gameMode gameState).
Proof.
  intros Hwf. split; [|split].
  - intros Hidle. unfold botTurn_settled. by rewrite Hidle.
  - intros Hfull. unfold botTurn_settled, botEffect_timeout.
    destruct (botEffect_runs gameState); [|done].
    destruct (getBotMove_result (board gameState) Yellow Hwf)
      as (answer & Hanswer & Hnone & _).
    rewrite Hanswer, (proj2 Hnone Hfull). monad_step.
    change (columnOf None) with (-1).
    rewrite getLowestEmptyRow_illegal; [by monad_step | done |].
    intros Hlegal. by apply Hfull, (LegalDrop_hasEmpty _ (-1)).
  - intros Hruns Hempty.
    destruct (botTurn_settled_accept gameState random Hwf Hruns Hempty)
      as (col & row & board' & res & Hmove & Hland & _ & Hplaced & _ & Hrun).
    exists col, row. eexists. do 3 (split; [done|]). done.
Qed.

Lemma botTurn_spec_witness :
  wf_board (board Examples.state_thinking)
  ∧ (botEffect_runs Examples.state_thinking = false →
     botTurn_settled Examples.state_thinking 0 = Ok Examples.state_thinking)
  ∧ (¬ hasEmpty (board Examples.state_thinking) →
     botTurn_settled Examples.state_thinking 0 = Ok Examples.state_thinking)
  ∧ (botEffect_runs Examples.state_thinking = true →
     hasEmpty (board Examples.state_thinking) →
     ∃ col row state,
       getBotMove (board Examples.state_thinking) Yellow 0 = Ok (Some col)
       ∧ Landing (board Examples.state_thinking) col row
       ∧ botTurn_settled Examples.state_thinking 0 = Ok state
       ∧ placed (board Examples.state_thinking) row col Yellow (board state)
       ∧ currentPlayer state = Red
       ∧ isBotThinking state = false
       ∧ animatingPiece state = None
       ∧ gameMode state = gameMode Examples.state_thinking).
Proof.
  split; [by_evaluation|].
  apply (botTurn_spec Examples.state_thinking 0). by_evaluation.
Defined.

(** ** What every state of a session satisfies *)

(** A token dropped on a stacked board leaves it stacked. *)
Lemma stacked_placed board col row v board' :
  stacked board → Landing board col row → v ≠ Null →
  placed board row col v board' → stacked board'.
Proof.
  intros Hstacked (Hrow & Hcol & Hnull & Hbelow) Hv (Hwf' & Hcell & Hold).
  intros r c Hempty r' Hr'.
  assert (Hrc : (r, c) ≠ (row, col)).
  { intros Heq. simplify_eq. rewrite Hcell in Hempty. by simplify_eq. }
  rewrite Hold in Hempty by done.
  destruct (decide ((r', c) = (row, col))) as [Heq|Hne].
  - simplify_eq. exfalso.
    pose proof (get_wf_inBounds _ _ _ _ Hwf' Hcell) as Hin.
    assert (Hin' : 0 ≤ r < ROWS).
    { destruct (decide (r < ROWS)) as [|Hout]; [lia|]. exfalso.
      assert (get board' r col = Ok (Some Null)) as Hget by by rewrite Hold.
      apply (get_wf_inBounds _ _ _ _ Hwf') in Hget.
      apply inBounds_true in Hget. lia. }
    apply (Hbelow r); [lia | done].
  - rewrite Hold by done. by apply (Hstacked r c).
Qed.

(** A new four in a row goes through the cell just filled. *)
Lemma no_new_line board row col v board' :
  (∀ r c, ¬ FourThrough board r c) → placed board row col v board' →
  ¬ FourThrough board' row col → ∀ r c, ¬ FourThrough board' r c.
Proof.
  intros Hnone (Hwf' & Hcell & Hold) Hnew r c (p & Hp & dr & dc & Haxis & k & Hk & Hall).
  destruct (decide (Exists (λ i, (r + (i - k) * dr, c + (i - k) * dc) = (row, col))
                      (seqZ 0 4))) as [Hthrough|Haway].
  - apply Exists_exists in Hthrough as (i0 & Hi0 & Heq). apply elem_of_seqZ in Hi0.
    simplify_eq. apply Hnew. exists p. split; [done|]. exists dr, dc. split; [done|].
    exists i0. split; [lia|]. intros i Hi.
    replace (r + (i0 - k) * dr + (i - i0) * dr) with (r + (i - k) * dr) by ring.
    replace (c + (i0 - k) * dc + (i - i0) * dc) with (c + (i - k) * dc) by ring.
    by apply Hall.
  - apply (Hnone r c). exists p. split; [done|]. exists dr, dc. split; [done|].
    exists k. split; [done|]. intros i Hi.
    destruct (Hall i Hi) as [Hin Hget]. split; [done|].
    rewrite <- Hold; [done|]. intros Heq. apply Haway, Exists_exists.
    exists i. split; [apply elem_of_seqZ; lia | done].
Qed.

(** Counting the cells that hold a value, before and after a write. *)
Lemma length_filter_insert {A} (P : A → Prop) `{∀ x, Decision (P x)}
    (l : list A) (i : nat) (x y : A) :
  l !! i = Some x →
  (length (filter P (<[i := y]> l)) + (if decide (P x) then 1 else 0)
   = length (filter P l) + (if decide (P y) then 1 else 0))%nat.
Proof.
  intros Hi. rewrite insert_take_drop by by eapply lookup_lt_Some.
  rewrite <- (take_drop_middle l i x Hi) at 3.
  rewrite !filter_app, !filter_cons, !length_app.
  destruct (decide (P x)), (decide (P y)); cbn [length]; lia.
Qed.

Lemma sum_list_fmap_insert {A} (f : A → nat) (l : list A) (i : nat) (x y : A) :
  l !! i = Some x →
  (sum_list (f <$> <[i := y]> l) + f x = sum_list (f <$> l) + f y)%nat.
Proof.
  intros Hi. rewrite insert_take_drop by by eapply lookup_lt_Some.
  rewrite <- (take_drop_middle l i x Hi) at 3.
  rewrite !fmap_app, !fmap_cons, !sum_list_with_app. cbn [sum_list_with].
  unfold id. lia.
Qed.

Lemma countCells_setCell board row col v board' x :
  get board row col = Ok (Some Null) → setCell board row col v = Ok board' →
  (countCells x board' + (if decide (Null = x) then 1 else 0)
   = countCells x board + (if decide (v = x) then 1 else 0))%nat.
Proof.
  unfold get, setCell, countCells.
  destruct (index board row) as [cells|] eqn:Hcells; [|discriminate].
  intros Hnull Hset. assert (Hcell : index cells col = Some Null) by congruence.
  apply index_Some in Hcells as [Hrow Hcells].
  apply index_Some in Hcell as [Hcol Hcell].
  rewrite decide_True in Hset by (apply lookup_lt_Some in Hcell; lia). simplify_eq.
  pose proof (sum_list_fmap_insert (λ cells, length (filter (λ c, c = x) cells))
                board (Z.to_nat row) cells (<[Z.to_nat col := v]> cells) Hcells) as Hsum.
  pose proof (length_filter_insert (λ c, c = x) cells (Z.to_nat col) Null v Hcell)
    as Hlen.
  cbv beta in Hsum. lia.
Qed.

Lemma get_initializeBoard row col v :
  get initializeBoard row col = Ok (Some v) → v = Null.
Proof.
  unfold get. destruct (index initializeBoard row) as [cells|] eqn:Hcells; [|discriminate].
  intros Hget. assert (Hcell : index cells col = Some v) by congruence.
  apply index_Some in Hcells as [_ Hcells]. apply index_Some in Hcell as [_ Hcell].
  unfold initializeBoard in Hcells.
  apply lookup_replicate in Hcells as [-> _].
  by apply lookup_replicate in Hcell as [-> _].
Qed.

(** The states [setGameMode] and [resetGame] leave, and the first one. *)
Lemma invariant_fresh mode :
  invariant {| board := initializeBoard; currentPlayer := Red; winner := Null;
               winningLine := None; gameMode := mode;
               isBotThinking := false; animatingPiece := None |}.
Proof.
  assert (Hwf : wf_board initializeBoard) by by_evaluation.
  unfold invariant. cbn. split; [done|]. split; [|split; [done|split; [done|]]].
  { intros row col Hempty r Hr.
    pose proof (get_wf_inBounds _ _ _ _ Hwf Hempty) as Hin.
    apply inBounds_true in Hin as [Hrow Hcol].
    destruct (get_wf initializeBoard r col Hwf) as [v Hv]; [lia | done |].
    by rewrite Hv, (get_initializeBoard _ _ _ Hv). }
  split; [|split; [done|split; [done|split; [done|done]]]].
  intros _. split; [done|]. intros row col (p & Hp & dr & dc & _ & Hwin).
  apply Window_center in Hwin as [_ Hget]. by apply get_initializeBoard in Hget.
Qed.

(** A move keeps the invariant: the player to move puts a token in the
    landing cell of a column of a board without a line. *)
Lemma invariant_move (gameState : GameState) col row board' res (thinking : bool) :
  invariant gameState → winner gameState = Null →
  Landing (board gameState) col row →
  setCell (board gameState) row col (currentPlayer gameState) = Ok board' →
  placed (board gameState) row col (currentPlayer gameState) board' →
  checkWinner board' row col = Ok res →
  (thinking = true →
   gameMode gameState = SinglePlayer ∧ res = None ∧ isFull board' = false
   ∧ nextPlayerOf (currentPlayer gameState) = Yellow) →
  (gameMode gameState = SinglePlayer →
   nextPlayerOf (currentPlayer gameState) = Yellow → res = None →
   thinking = true ∨ isFull board' = true) →
  invariant {| board := board';
               currentPlayer := nextPlayerOf (currentPlayer gameState);
               winner := match res with
                         | Some _ => currentPlayer gameState
                         | None => Null
                         end;
               winningLine := res;
               gameMode := gameMode gameState;
               isBotThinking := thinking;
               animatingPiece := None |}.
Proof.
  intros (Hwf & Hstacked & Hplayer & _ & Hnoline & _ & _ & Hcount & _)
    Hnowinner Hland Hset Hplaced Hres Hthinking Hsingle.
  destruct (Hnoline Hnowinner) as [_ Hnone].
  pose proof Hplaced as (Hwf' & Hcell & Hold).
  pose proof Hland as (Hrow & Hcol & Hnull & _).
  destruct (checkWinner_total board' row col Hwf' Hrow Hcol) as (res' & Hres' & Hfour).
  rewrite Hres in Hres'. simplify_eq.
  unfold invariant. cbn. split; [done|]. split; [by eapply stacked_placed|].
  split.
  { unfold nextPlayerOf. destruct (decide (currentPlayer gameState = Red)); discriminate. }
  split; [done|].
  split; [|split; [|split; [|split]]].
  - intros Hwinner. destruct res' as [line|]; [done|]. split; [done|].
    by eapply no_new_line.
  - intros Hwinner. destruct res' as [line|]; [|done]. split; [|by exists row, col; destruct Hfour].
    exists line. split; [done|].
    destruct (checkWinner_lineOf board' row col line _ Hwf' Hcell Hres) as (? & ? & _).
    done.
  - intros Htrue. destruct (Hthinking Htrue) as (Hmode & -> & Hnotfull & Hnext).
    split; [done|]. split; [done|]. split; [by apply isFull_false | done].
  - pose proof (countCells_setCell _ _ _ _ _ Red Hnull Hset) as Hred.
    pose proof (countCells_setCell _ _ _ _ _ Yellow Hnull Hset) as Hyellow.
    unfold nextPlayerOf, countCells in *.
    destruct (currentPlayer gameState); [| |done];
      repeat (case_decide; try done); lia.
  - intros Hmode Hnext Hwinner. destruct res' as [line|]; [done|].
    destruct (Hsingle Hmode Hnext eq_refl) as [?|Hfull]; [by left|]. right.
    by apply isFull_iff.
Qed.

(** A drop either is not accepted, and the state stays as it is, or is
    made by an idle state in a column that takes a token. *)
Lemma dropPiece_settled_cases (gameState : GameState) col :
  wf_board (board gameState) →
  dropPiece_settled gameState col = Ok gameState
  ∨ (idle gameState ∧ ∃ row, Landing (board gameState) col row).
Proof.
  intros Hwf. unfold dropPiece_settled, dropPiece, idle.
  destruct (truthy (Some (winner gameState))); [by left|].
  destruct (isBotThinking gameState); [by left|].
  destruct (animatingPiece gameState) as [piece|]; [by left|].
  destruct (decide (LegalDrop (board gameState) col)) as [Hlegal|Hillegal].
  - by right.
  - left. cbn [orb]. rewrite bool_decide_eq_false_2 by (intros ?; done).
    rewrite copyBoard_id, getLowestEmptyRow_illegal by done. done.
Qed.

Lemma truthy_winner_false v : truthy (Some v) = false → v = Null.
Proof. by destruct v. Qed.

Lemma invariant_drop (gameState : GameState) col gameState' :
  invariant gameState → dropPiece_settled gameState col = Ok gameState' →
  invariant gameState'.
Proof.
  intros Hinv Hrun. pose proof Hinv as (Hwf & _).
  destruct (dropPiece_settled_cases gameState col Hwf)
    as [Hsame|[(Hnowinner & Hidle & Hstill) [row Hland]]].
  { rewrite Hsame in Hrun. by simplify_eq. }
  destruct (dropPiece_settled_accept gameState col row Hwf Hnowinner Hidle Hstill Hland)
    as (board' & res & Hset & Hplaced & Hres & Hrun').
  rewrite Hrun' in Hrun. simplify_eq.
  apply (invariant_move gameState col row board' res); try done.
  - by apply truthy_winner_false.
  - rewrite !andb_true_iff, negb_true_iff, !bool_decide_eq_true.
    intros [[Hmode Hover] Hnext]. apply orb_false_iff in Hover as [Hline Hfull].
    split; [done|]. split; [by destruct res|]. done.
  - intros Hmode Hnext ->.
    destruct (isFull board') eqn:Hfull; [by right|]. left.
    rewrite !andb_true_iff, !bool_decide_eq_true. done.
Qed.

Lemma invariant_bot (gameState : GameState) random gameState' :
  invariant gameState → botTurn_settled gameState random = Ok gameState' →
  invariant gameState'.
Proof.
  intros Hinv Hrun. pose proof Hinv as (Hwf & _ & _ & _ & _ & _ & Hthinking & _).
  destruct (botEffect_runs gameState) eqn:Hruns.
  2:{ unfold botTurn_settled in Hrun. rewrite Hruns in Hrun. by simplify_eq. }
  assert (Hflag : isBotThinking gameState = true).
  { unfold botEffect_runs in Hruns. by destruct (isBotThinking gameState). }
  destruct (Hthinking Hflag) as (Hmode & Hnowinner & Hempty & Hyellow).
  destruct (botTurn_settled_accept gameState random Hwf Hruns Hempty)
    as (col & row & board' & res & _ & Hland & Hset & Hplaced & Hres & Hrun').
  rewrite Hrun' in Hrun. simplify_eq.
  pose proof (invariant_move gameState col row board' res false Hinv Hnowinner Hland)
    as Hmove.
  rewrite Hyellow in Hmove. apply Hmove; try done.
Qed.

(** Every state of a session satisfies the invariant. *)
Lemma reachable_invariant (gameState : GameState) :
  reachable gameState → invariant gameState.
Proof.
  induction 1 as [|gameState col gameState' _ IH Hrun
                  |gameState random gameState' _ IH Hrun
                  |gameState _ IH|gameState mode _ IH].
  - apply invariant_fresh.
  - by eapply invariant_drop.
  - by eapply invariant_bot.
  - apply invariant_fresh.
  - apply invariant_fresh.
Qed.

Lemma reachable_playDrops cols (gameState gameState' : GameState) :
  reachable gameState → playDrops cols gameState = Ok gameState' →
  reachable gameState'.
Proof.
  revert gameState. induction cols as [|col cols IH]; intros gameState Hreach Hplay.
  { cbn in Hplay. by simplify_eq. }
  cbn [playDrops] in Hplay.
  destruct (dropPiece_settled gameState col) as [state|] eqn:Hdrop; [|discriminate].
  apply (IH state); [by eapply reachable_drop | done].
Qed.

Example reachable_state_won : reachable Examples.state_won.
Proof.
  apply (reachable_playDrops [3; 4; 3; 4; 3; 4; 3] initialState);
    [apply reachable_initial | vm_compute; reflexivity].
Qed.

(** X11. In every state of a session the board has six rows of seven
    cells, no token hangs over an empty cell, no token is left falling,
    red or yellow is to move, and the two have alternated: red has as
    many tokens on the board as yellow, and one more exactly when yellow
    is to move. *)
Theorem reachable_board (gameState : GameState) :
  reachable gameState →
  wf_board (board gameState)
  ∧ stacked (board gameState)
  ∧ animatingPiece gameState = None
  ∧ (currentPlayer gameState = Red ∨ currentPlayer gameState = Yellow)
  ∧ countCells Red (board gameState)
    = (countCells Yellow (board gameState)
       + if decide (currentPlayer gameState = Yellow) then 1 else 0)%nat.
Proof.
  intros Hreach.
  destruct (reachable_invariant _ Hreach)
    as (Hwf & Hstacked & Hplayer & Hstill & _ & _ & _ & Hcount & _).
  do 3 (split; [done|]). split; [|done].
  destruct (currentPlayer gameState); [by left | by right | done].
Qed.

Lemma reachable_board_witness :
  reachable Examples.state_thinking
  ∧ wf_board (board Examples.state_thinking)
  ∧ stacked (board Examples.state_thinking)
  ∧ animatingPiece Examples.state_thinking = None
  ∧ (currentPlayer Examples.state_thinking = Red
     ∨ currentPlayer Examples.state_thinking = Yellow)
  ∧ countCells Red (board Examples.state_thinking)
    = (countCells Yellow (board Examples.state_thinking)
       + if decide (currentPlayer Examples.state_thinking = Yellow) then 1 else 0)%nat.
Proof.
  assert (Hreach : reachable Examples.state_thinking).
  { apply (reachable_drop (updates (setGameMode SinglePlayer) initialState) 3);
      [apply reachable_mode, reachable_initial | vm_compute; reflexivity]. }
  split; [exact Hreach|]. exact (reachable_board Examples.state_thinking Hreach).
Defined.

(** X12. In every state of a session a winner is recorded exactly when
    the board has four in a row somewhere, although each move only looks
    for lines through the token it adds; a winning line is recorded
    exactly when a winner is, and it is made of at least four cells that
    hold the winner's token. *)
Theorem reachable_winner (gameState : GameState) :
  reachable gameState →
  (winner gameState = Null ↔ ∀ row col, ¬ FourThrough (board gameState) row col)
  ∧ (winner gameState = Null ↔ winningLine gameState = None)
  ∧ (∀ line, winningLine gameState = Some line →
       lineOf (board gameState) (winner gameState) line ∧ (4 ≤ length line)%nat).
Proof.
  intros Hreach.
  destruct (reachable_invariant _ Hreach) as (_ & _ & _ & _ & Hnone & Hsome & _).
  destruct (decide (winner gameState = Null)) as [Hnull|Hwon].
  - destruct (Hnone Hnull) as [Hline Hfour]. split; [done|]. split; [done|].
    intros line Heq. congruence.
  - destruct (Hsome Hwon) as [(line & Hline & Hcells & Hlen) (row & col & Hfour)].
    split; [|split].
    + split; [done|]. intros Hnofour. by destruct (Hnofour row col).
    + split; [done|]. congruence.
    + intros line' Heq. by simplify_eq.
Qed.

Lemma reachable_winner_witness :
  reachable Examples.state_thinking
  ∧ (winner Examples.state_thinking = Null
     ↔ ∀ row col, ¬ FourThrough (board Examples.state_thinking) row col)
  ∧ (winner Examples.state_thinking = Null
     ↔ winningLine Examples.state_thinking = None)
  ∧ (∀ line, winningLine Examples.state_thinking = Some line →
       lineOf (board Examples.state_thinking) (winner Examples.state_thinking) line
       ∧ (4 ≤ length line)%nat).
Proof.
  assert (Hreach : reachable Examples.state_thinking).
  { apply (reachable_drop (updates (setGameMode SinglePlayer) initialState) 3);
      [apply reachable_mode, reachable_initial | vm_compute; reflexivity]. }
  split; [exact Hreach|]. exact (reachable_winner Examples.state_thinking Hreach).
Defined.

(** X13. In every state of a session in which the bot is thinking, the
    mode is single-player, nobody has won, yellow is to move and the
    board has an empty cell; so the bot's turn, whatever the random draw,
    does not throw, adds one yellow token, hands the move to red and
    ends the thinking: the bot is never left thinking for good. *)
Theorem reachable_bot_moves (gameState : GameState) (random : Q) :
  reachable gameState → isBotThinking gameState = true →
  gameMode gameState = SinglePlayer
  ∧ winner gameState = Null
  ∧ currentPlayer gameState = Yellow
  ∧ hasEmpty (board gameState)
  ∧ ∃ state,
      botTurn_settled gameState random = Ok state
      ∧ countCells Yellow (board state) = S (countCells Yellow (board gameState))
      ∧ countCells Red (board state) = countCells Red (board gameState)
      ∧ currentPlayer state = Red
      ∧ isBotThinking state = false.
Proof.
  intros Hreach Hflag.
  destruct (reachable_invariant _ Hreach) as (Hwf & _ & _ & _ & _ & _ & Hthinking & _).
  destruct (Hthinking Hflag) as (Hmode & Hnowinner & Hempty & Hyellow).
  do 4 (split; [done|]).
  assert (Hruns : botEffect_runs gameState = true).
  { unfold botEffect_runs. by rewrite Hflag, Hnowinner. }
  destruct (botTurn_settled_accept gameState random Hwf Hruns Hempty)
    as (col & row & board' & res & _ & Hland & Hset & _ & _ & Hrun).
  eexists. split; [done|]. cbn [board currentPlayer isBotThinking].
  destruct Hland as (_ & _ & Hnull & _).
  pose proof (countCells_setCell _ _ _ _ _ Red Hnull Hset) as Hred.
  pose proof (countCells_setCell _ _ _ _ _ Yellow Hnull Hset) as Hyel.
  rewrite (decide_False (P := Null = Red)), (decide_False (P := Yellow = Red)) in Hred
    by done.
  rewrite (decide_False (P := Null = Yellow)), (decide_True (P := Yellow = Yellow)) in Hyel
    by done.
  split; [lia|]. split; [lia|]. done.
Qed.

Lemma reachable_bot_moves_witness :
  reachable Examples.state_thinking
  ∧ isBotThinking Examples.state_thinking = true
  ∧ gameMode Examples.state_thinking = SinglePlayer
  ∧ winner Examples.state_thinking = Null
  ∧ currentPlayer Examples.state_thinking = Yellow
  ∧ hasEmpty (board Examples.state_thinking)
  ∧ ∃ state,
      botTurn_settled Examples.state_thinking 0 = Ok state
      ∧ countCells Yellow (board state)
        = S (countCells Yellow (board Examples.state_thinking))
      ∧ countCells Red (board state) = countCells Red (board Examples.state_thinking)
      ∧ currentPlayer state = Red
      ∧ isBotThinking state = false.
Proof.
  assert (Hreach : reachable Examples.state_thinking).
  { apply (reachable_drop (updates (setGameMode SinglePlayer) initialState) 3);
      [apply reachable_mode, reachable_initial | vm_compute; reflexivity]. }
  split; [exact Hreach|]. split; [reflexivity|].
  exact (reachable_bot_moves Examples.state_thinking 0 Hreach eq_refl).
Defined.

(** X14. In single-player mode every drop that is accepted in a state of
    a session is red's: the human never places a yellow token. *)
Theorem reachable_human_is_red (gameState : GameState) (col : Z) :
  reachable gameState → gameMode gameState = SinglePlayer →
  idle gameState → LegalDrop (board gameState) col →
  currentPlayer gameState = Red.
Proof.
  intros Hreach Hmode (Hnowinner & Hidle & _) Hlegal.
  destruct (reachable_invariant _ Hreach)
    as (_ & _ & Hplayer & _ & _ & _ & _ & _ & Hyellow).
  destruct (currentPlayer gameState) eqn:Hcurrent; [done| |done].
  destruct (Hyellow Hmode eq_refl (truthy_winner_false _ Hnowinner)) as [Hflag|Hfull].
  - congruence.
  - destruct Hfull. by eapply LegalDrop_hasEmpty.
Qed.

Lemma reachable_human_is_red_witness :
  reachable (updates (setGameMode SinglePlayer) initialState)
  ∧ gameMode (updates (setGameMode SinglePlayer) initialState) = SinglePlayer
  ∧ idle (updates (setGameMode SinglePlayer) initialState)
  ∧ LegalDrop (board (updates (setGameMode SinglePlayer) initialState)) 3
  ∧ currentPlayer (updates (setGameMode SinglePlayer) initialState) = Red.
Proof.
  split; [apply reachable_mode, reachable_initial|]. split; [reflexivity|].
  split; [by repeat split|]. split; [by_evaluation|].
  apply (reachable_human_is_red (updates (setGameMode SinglePlayer) initialState) 3);
    [apply reachable_mode, reachable_initial | reflexivity | by repeat split
    | by_evaluation].
Defined.

(** X15. In a session no handler throws: in every state a drop in any
    column, inside the board or not, and a turn of the bot with any
    random draw run to their end. *)
Theorem reachable_no_throw (gameState : GameState) (col : Z) (random : Q) :
  reachable gameState →
  (∃ state, dropPiece_settled gameState col = Ok state)
  ∧ (∃ state, botTurn_settled gameState random = Ok state).
Proof.
  intros Hreach.
  destruct (reachable_invariant _ Hreach) as (Hwf & _ & _ & _ & _ & _ & Hthinking & _).
  split.
  - destruct (dropPiece_settled_cases gameState col Hwf)
      as [Hsame|[(Hnowinner & Hidle & Hstill) [row Hland]]]; [by eexists|].
    destruct (dropPiece_settled_accept gameState col row Hwf Hnowinner Hidle Hstill
                Hland) as (board' & res & _ & _ & _ & Hrun).
    by eexists.
  - destruct (botEffect_runs gameState) eqn:Hruns.
    2:{ exists gameState. unfold botTurn_settled. by rewrite Hruns. }
    assert (Hflag : isBotThinking gameState = true).
    { unfold botEffect_runs in Hruns. by destruct (isBotThinking gameState). }
    destruct (Hthinking Hflag) as (_ & _ & Hempty & _).
    destruct (botTurn_settled_accept gameState random Hwf Hruns Hempty)
      as (c & row & board' & res & _ & _ & _ & _ & _ & Hrun).
    by eexists.
Qed.

Lemma reachable_no_throw_witness :
  reachable Examples.state_thinking
  ∧ (∃ state, dropPiece_settled Examples.state_thinking 9 = Ok state)
  ∧ (∃ state, botTurn_settled Examples.state_thinking 0 = Ok state).
Proof.
  assert (Hreach : reachable Examples.state_thinking).
  { apply (reachable_drop (updates (setGameMode SinglePlayer) initialState) 3);
      [apply reachable_mode, reachable_initial | vm_compute; reflexivity]. }
  split; [exact Hreach|]. exact (reachable_no_throw Examples.state_thinking 9 0 Hreach).
Defined.

(** ** What the render shows of a state of a session *)

(** X16. The status line tells the truth in every state of a session. It
    names a winner only when that player has four in a row on the board;
    it announces a draw only when the board is full and has no four in a
    row; it shows the bot thinking only in a single-player game in
    progress with yellow to move; and when it names a player to move, the
    game is in progress with that player, red or yellow, to move and the
    bot is not thinking. *)
Theorem reachable_status (gameState : GameState) :
  reachable gameState →
  match status gameState with
  | Wins p =>
      p = winner gameState ∧ p ≠ Null
      ∧ (∃ row col, FourThrough (board gameState) row col)
      ∧ ∃ line, winningLine gameState = Some line
          ∧ lineOf (board gameState) p line ∧ (4 ≤ length line)%nat
  | Drawn =>
      winner gameState = Null ∧ ¬ hasEmpty (board gameState)
      ∧ ∀ row col, ¬ FourThrough (board gameState) row col
  | BotThinking =>
      winner gameState = Null ∧ hasEmpty (board gameState)
      ∧ (∀ row col, ¬ FourThrough (board gameState) row col)
      ∧ currentPlayer gameState = Yellow ∧ gameMode gameState = SinglePlayer
  | ToMove p =>
      p = currentPlayer gameState ∧ (p = Red ∨ p = Yellow)
      ∧ winner gameState = Null ∧ hasEmpty (board gameState)
      ∧ (∀ row col, ¬ FourThrough (board gameState) row col)
      ∧ isBotThinking gameState = false
  end.
Proof.
  intros Hreach.
  destruct (reachable_invariant _ Hreach)
    as (Hwf & _ & Hplayer & _ & Hnone & Hsome & Hthinking & _).
  unfold status, isDraw.
  destruct (truthy (Some (winner gameState))) eqn:Hwinner.
  { assert (Hwon : winner gameState ≠ Null) by (intros Heq; by rewrite Heq in Hwinner).
    destruct (Hsome Hwon) as [Hline Hfour]. done. }
  apply truthy_winner_false in Hwinner. destruct (Hnone Hwinner) as [_ Hnofour].
  cbn [negb andb]. destruct (isFull (board gameState)) eqn:Hfull.
  { split; [done|]. split; [by apply isFull_iff | done]. }
  apply isFull_false in Hfull.
  destruct (isBotThinking gameState) eqn:Hflag.
  { destruct (Hthinking eq_refl) as (Hmode & _ & _ & Hyellow). done. }
  split; [done|]. split; [|done].
  destruct (currentPlayer gameState); [by left | by right | done].
Qed.

Lemma reachable_status_witness :
  reachable Examples.state_thinking
  ∧ match status Examples.state_thinking with
    | Wins p =>
        p = winner Examples.state_thinking ∧ p ≠ Null
        ∧ (∃ row col, FourThrough (board Examples.state_thinking) row col)
        ∧ ∃ line, winningLine Examples.state_thinking = Some line
            ∧ lineOf (board Examples.state_thinking) p line ∧ (4 ≤ length line)%nat
    | Drawn =>
        winner Examples.state_thinking = Null
        ∧ ¬ hasEmpty (board Examples.state_thinking)
        ∧ ∀ row col, ¬ FourThrough (board Examples.state_thinking) row col
    | BotThinking =>
        winner Examples.state_thinking = Null
        ∧ hasEmpty (board Examples.state_thinking)
        ∧ (∀ row col, ¬ FourThrough (board Examples.state_thinking) row col)
        ∧ currentPlayer Examples.state_thinking = Yellow
        ∧ gameMode Examples.state_thinking = SinglePlayer
    | ToMove p =>
        p = currentPlayer Examples.state_thinking ∧ (p = Red ∨ p = Yellow)
        ∧ winner Examples.state_thinking = Null
        ∧ hasEmpty (board Examples.state_thinking)
        ∧ (∀ row col, ¬ FourThrough (board Examples.state_thinking) row col)
        ∧ isBotThinking Examples.state_thinking = false
    end.
Proof.
  assert (Hreach : reachable Examples.state_thinking).
  { apply (reachable_drop (updates (setGameMode SinglePlayer) initialState) 3);
      [apply reachable_mode, reachable_initial | vm_compute; reflexivity]. }
  split; [exact Hreach|]. exact (reachable_status Examples.state_thinking Hreach).
Defined.

(** X17. In every state of a session a cell is marked as winning only if
    it is a cell of the grid that holds the winner's token, and no cell
    is marked while no winner is recorded. *)
Theorem reachable_isWinningCell (gameState : GameState) (rowIdx colIdx : Z) :
  reachable gameState →
  (isWinningCell gameState rowIdx colIdx = Some true →
   winner gameState ≠ Null
   ∧ hit (board gameState) (Some (winner gameState)) rowIdx colIdx)
  ∧ (winner gameState = Null → isWinningCell gameState rowIdx colIdx = None).
Proof.
  intros Hreach.
  destruct (reachable_invariant _ Hreach) as (_ & _ & _ & _ & Hnone & Hsome & _).
  unfold isWinningCell. split.
  - destruct (winningLine gameState) as [line|] eqn:Hline; [|discriminate].
    intros Hmarked. cbn in Hmarked. simplify_eq.
    destruct (decide (winner gameState = Null)) as [Hnull|Hwon].
    { destruct (Hnone Hnull) as [? _]. congruence. }
    split; [done|].
    destruct (Hsome Hwon) as [(line' & Hline' & Hcells & _) _].
    assert (line' = line) as -> by congruence.
    apply existsb_exists in Hmarked as ([r c] & Hin & Hrc).
    apply andb_true_iff in Hrc as [Hr Hc].
    apply bool_decide_eq_true in Hr, Hc. cbn in Hr, Hc. subst.
    unfold lineOf in Hcells. rewrite Forall_forall in Hcells.
    by apply (Hcells (rowIdx, colIdx)), list_elem_of_In.
  - intros Hnull. destruct (Hnone Hnull) as [-> _]. done.
Qed.

Lemma reachable_isWinningCell_witness :
  reachable Examples.state_won
  ∧ (isWinningCell Examples.state_won 4 3 = Some true →
     winner Examples.state_won ≠ Null
     ∧ hit (board Examples.state_won) (Some (winner Examples.state_won)) 4 3)
  ∧ (winner Examples.state_won = Null → isWinningCell Examples.state_won 4 3 = None).
Proof.
  assert (Hreach : reachable Examples.state_won).
  { apply (reachable_playDrops [3; 4; 3; 4; 3; 4; 3] initialState);
      [apply reachable_initial | vm_compute; reflexivity]. }
  split; [exact Hreach|].
  exact (reachable_isWinningCell Examples.state_won 4 3 Hreach).
Defined.

(** ** Columns of a stacked board *)

Lemma get_bounds (board : Board) row col v :
  get board row col = Ok (Some v) →
  0 ≤ row < Z.of_nat (length board)
  ∧ 0 ≤ col < Z.of_nat (max_list (length <$> board)).
Proof.
  unfold get. destruct (index board row) as [cells|] eqn:Hcells; [|discriminate].
  intros Hget. assert (Hcell : index cells col = Some v) by congruence.
  apply index_Some in Hcells as [Hrow Hcells]. apply index_Some in Hcell as [Hcol Hcell].
  pose proof (lookup_lt_Some _ _ _ Hcells). pose proof (lookup_lt_Some _ _ _ Hcell).
  assert (length cells ≤ max_list (length <$> board))%nat.
  { apply max_list_elem_of_le, list_elem_of_fmap. exists cells.
    split; [done | by eapply list_elem_of_lookup_2]. }
  lia.
Qed.

Lemma stacked_alt (board : Board) :
  Forall (λ row,
    Forall (λ col,
      get board row col = Ok (Some Null) →
      Forall (λ r, get board r col = Ok (Some Null)) (seqZ 0 row))
      (seqZ 0 (Z.of_nat (max_list (length <$> board)))))
    (seqZ 0 (Z.of_nat (length board)))
  ↔ stacked board.
Proof.
  split.
  - intros Hall row col Hnull r Hr.
    destruct (get_bounds _ _ _ _ Hnull) as [Hrow Hcol].
    rewrite Forall_forall in Hall. specialize (Hall row).
    rewrite Forall_forall in Hall.
    specialize (Hall ltac:(apply elem_of_seqZ; lia) col ltac:(apply elem_of_seqZ; lia) Hnull).
    rewrite Forall_forall in Hall. apply Hall, elem_of_seqZ. lia.
  - intros Hstacked. apply Forall_forall. intros row _.
    apply Forall_forall. intros col _ Hnull.
    apply Forall_forall. intros r Hr. apply elem_of_seqZ in Hr.
    apply (Hstacked row col Hnull). lia.
Qed.

#[global] Instance stacked_dec board : Decision (stacked board).
Proof. exact (decide_iff (stacked_alt _) _). Defined.


(** X18. On a board where no token hangs over an empty cell,
    [getLowestEmptyRow] finds no row in a column exactly when the top
    cell of the column is not empty: a column is full when its top cell
    is taken. *)
Theorem getLowestEmptyRow_top (board : Board) (col : Z) :
  wf_board board → stacked board →
  (getLowestEmptyRow board col = Ok (-1) ↔ get board 0 col ≠ Ok (Some Null)).
Proof.
  intros Hwf Hstacked.
  destruct (getLowestEmptyRow_total board col Hwf) as (row & -> & Hspec).
  destruct Hspec as [[-> Hnone] | (Hrow & Hnull & _)].
  - split; [|done]. intros _. apply Hnone. unfold ROWS. lia.
  - split; [intros Heq; simplify_eq; lia|]. intros Htop. destruct Htop.
    destruct (decide (row = 0)) as [->|Hpos]; [done|].
    apply (Hstacked row col Hnull). lia.
Qed.

Lemma getLowestEmptyRow_top_witness :
  wf_board Examples.board_col3 ∧ stacked Examples.board_col3
  ∧ (getLowestEmptyRow Examples.board_col3 3 = Ok (-1)
     ↔ get Examples.board_col3 0 3 ≠ Ok (Some Null)).
Proof.
  split; [by_evaluation|]. split; [by_evaluation|].
  apply (getLowestEmptyRow_top Examples.board_col3 3); by_evaluation.
Defined.

Lemma Landing_other_column board row col v board' c r :
  placed board row col v board' → c ≠ col →
  Landing board' c r ↔ Landing board c r.
Proof.
  intros (_ & _ & Hold) Hc. unfold Landing.
  rewrite Hold by congruence. split.
  - intros (Hr & Hcol & Hnull & Hbelow). do 3 (split; [done|]).
    intros r' Hr'. rewrite <- Hold by congruence. by apply Hbelow.
  - intros (Hr & Hcol & Hnull & Hbelow). do 3 (split; [done|]).
    intros r' Hr'. rewrite Hold by congruence. by apply Hbelow.
Qed.

(** X19. Tokens pile up. On a board where no token hangs over an empty
    cell, once a token has been written in the row [getLowestEmptyRow]
    found in a column, [getLowestEmptyRow] finds the row just above in
    that column, which is [-1], no row, after row 0; and it finds in
    every other column what it found before. *)
Theorem getLowestEmptyRow_after_drop (board : Board) (col row : Z) (v : Player)
    (board' : Board) :
  wf_board board → stacked board → v ≠ Null →
  getLowestEmptyRow board col = Ok row → row ≠ -1 →
  setCell board row col v = Ok board' →
  getLowestEmptyRow board' col = Ok (row - 1)
  ∧ ∀ c, c ≠ col → getLowestEmptyRow board' c = getLowestEmptyRow board c.
Proof.
  intros Hwf Hstacked Hv Hrow Hfound Hset.
  destruct (getLowestEmptyRow_Landing board col Hwf) as (row' & Hrow' & Hland).
  rewrite Hrow in Hrow'. symmetry in Hrow'. simplify_eq.
  rewrite decide_False in Hland by done.
  pose proof Hland as (Hr & Hc & Hnull & Hbelow).
  destruct (setCell_placed board row col v Hwf Hr Hc) as (b & Hb & Hplaced).
  rewrite Hset in Hb. symmetry in Hb. simplify_eq.
  pose proof Hplaced as (Hwf' & Hcell & Hold).
  split.
  - destruct (decide (row = 0)) as [->|Hpos].
    + apply getLowestEmptyRow_illegal; [done|].
      intros (r & Hr' & _ & Hnull' & _).
      destruct (decide (r = 0)) as [->|Hne]; [congruence|].
      rewrite Hold in Hnull' by congruence. apply (Hbelow r); [lia | done].
    + apply getLowestEmptyRow_at_Landing; [done|].
      split; [lia|]. split; [done|]. split.
      * rewrite Hold by (intros Heq; simplify_eq; lia).
        apply (Hstacked row col Hnull). lia.
      * intros r Hr'. destruct (decide (r = row)) as [->|Hne]; [congruence|].
        rewrite Hold by congruence. apply Hbelow. lia.
  - intros c Hc'.
    destruct (getLowestEmptyRow_Landing board c Hwf) as (r1 & -> & Hspec1).
    destruct (decide (r1 = -1)) as [->|Hfound1].
    + apply getLowestEmptyRow_illegal; [done|]. intros [r Hland'].
      apply Hspec1. exists r.
      by apply (Landing_other_column board row col v board' c r Hplaced Hc').
    + apply getLowestEmptyRow_at_Landing; [done|].
      by apply (Landing_other_column board row col v board' c r1 Hplaced Hc').
Qed.

Lemma getLowestEmptyRow_after_drop_witness :
  wf_board Examples.board_col3 ∧ stacked Examples.board_col3 ∧ Red ≠ Null
  ∧ getLowestEmptyRow Examples.board_col3 3 = Ok 2 ∧ 2 ≠ -1
  ∧ setCell Examples.board_col3 2 3 Red = Ok Examples.board_four
  ∧ getLowestEmptyRow Examples.board_four 3 = Ok (2 - 1)
  ∧ ∀ c, c ≠ 3 →
      getLowestEmptyRow Examples.board_four c = getLowestEmptyRow Examples.board_col3 c.
Proof.
  split; [by_evaluation|]. split; [by_evaluation|]. split; [done|].
  split; [reflexivity|]. split; [done|]. split; [reflexivity|].
  apply (getLowestEmptyRow_after_drop Examples.board_col3 3 2 Red Examples.board_four);
    [by_evaluation | by_evaluation | done | reflexivity | done | reflexivity].
Defined.

(** ** Copies of a stored board *)

(** X20. [board.map(row => [...row])] on a stored board gives a board
    with the same contents that shares no array with the original, nor
    with anything that was in the store: every array that existed is
    unchanged, and a write to any cell of the copy leaves the original
    holding what it held. *)
Theorem copyBoard_isolates (h : Store.heap) (board : positive) (b : Board) :
  Store.holds h board b →
  ∃ testBoard h',
    Store.copyBoard board h = Ok (testBoard, h')
    ∧ h ⊆ h'
    ∧ h !! testBoard = None
    ∧ Store.holds h' testBoard b
    ∧ Store.holds h' board b
    ∧ ∀ row col v h'',
        Store.setCell testBoard row col v h' = Ok ((), h'') →
        h ⊆ h'' ∧ Store.holds h'' board b
        ∧ ∃ b', setCell b row col v = Ok b' ∧ Store.holds h'' testBoard b'.
Proof.
  intros Hholds.
  destruct (copyBoard_holds board b h Hholds) as (testBoard & h' & Hcopy & Hapart).
  pose proof (copyBoard_Ok _ _ _ _ Hcopy) as (Hsub & Hnew & rows' & Htest & Hfresh & _).
  exists testBoard, h'. split; [done|]. split; [done|]. split; [done|].
  split; [by apply holds_apart_holds|]. split; [by eapply holds_weaken|].
  intros row col v h'' Hwrite.
  pose proof (setCell_holds testBoard b row col v h' Hapart) as Hvalue.
  pose proof (setCell_Ok _ _ _ _ _ _ Hwrite)
    as (rows0 & r & cells & Hrows0 & Hr & _ & _ & ->).
  assert (rows0 = rows') as -> by congruence.
  assert (Hsub' : h ⊆ <[r := Store.Cells (<[Z.to_nat col := v]> cells)]> h').
  { apply insert_subseteq_r; [|done].
    apply index_Some in Hr as [_ Hr]. rewrite Forall_forall in Hfresh.
    apply Hfresh. by eapply list_elem_of_lookup_2. }
  split; [done|]. split; [by eapply holds_weaken|].
  destruct (setCell b row col v) as [b'|e]; [|congruence].
  destruct Hvalue as (h2 & Hwrite' & Hapart').
  rewrite Hwrite in Hwrite'. simplify_eq.
  exists b'. split; [done|]. by apply holds_apart_holds.
Qed.

Lemma copyBoard_isolates_witness :
  Store.holds Examples.heap_col3 7 Examples.board_col3
  ∧ ∃ testBoard h',
      Store.copyBoard 7 Examples.heap_col3 = Ok (testBoard, h')
      ∧ Examples.heap_col3 ⊆ h'
      ∧ Examples.heap_col3 !! testBoard = None
      ∧ Store.holds h' testBoard Examples.board_col3
      ∧ Store.holds h' 7 Examples.board_col3
      ∧ ∀ row col v h'',
          Store.setCell testBoard row col v h' = Ok ((), h'') →
          Examples.heap_col3 ⊆ h'' ∧ Store.holds h'' 7 Examples.board_col3
          ∧ ∃ b', setCell Examples.board_col3 row col v = Ok b'
                  ∧ Store.holds h'' testBoard b'.
Proof.
  split; [by_evaluation|].
  apply (copyBoard_isolates Examples.heap_col3 7 Examples.board_col3). by_evaluation.
Defined.

(** ** A reset while the bot's token is falling *)

(** X21. The cleanup of the bot's effect clears its first timer only, and
    the updater of the second does not look at the winner or at
    [isBotThinking] of the state it finds: run on the state a reset
    leaves, for a column of the board, it puts a yellow token at the
    bottom of that column of the fresh board and hands the move to red,
    who then faces one yellow token and none of red's own, in the mode
    the game was in. *)
Theorem botEffect_commit_after_reset (prev : GameState) (botMove : Z) :
  0 ≤ botMove < COLS →
  ∃ state,
    botEffect_commit botMove (updates resetGame prev) = Ok state
    ∧ placed initializeBoard 5 botMove Yellow (board state)
    ∧ countCells Yellow (board state) = 1%nat
    ∧ countCells Red (board state) = 0%nat
    ∧ currentPlayer state = Red
    ∧ winner state = Null
    ∧ gameMode state = gameMode prev.
Proof.
  intros Hcol.
  assert (Hwf : wf_board (board (updates resetGame prev))) by by_evaluation.
  assert (Hland : Landing (board (updates resetGame prev)) botMove 5).
  { change (board (updates resetGame prev)) with initializeBoard.
    destruct (get_wf initializeBoard 5 botMove) as [v Hv];
      [by_evaluation | unfold ROWS; lia | done |].
    split; [unfold ROWS; lia|]. split; [done|].
    split; [by rewrite Hv, (get_initializeBoard _ _ _ Hv)|].
    intros r Hr. unfold ROWS in Hr. lia. }
  destruct (botEffect_commit_accept (updates resetGame prev) botMove 5 Hwf Hland)
    as (board' & res & Hset & Hplaced & Hres & Hrun).
  change (board (updates resetGame prev)) with initializeBoard in Hset, Hplaced.
  assert (Hcases : botMove = 0 ∨ botMove = 1 ∨ botMove = 2 ∨ botMove = 3
                   ∨ botMove = 4 ∨ botMove = 5 ∨ botMove = 6)
    by (unfold COLS in Hcol; lia).
  assert (Hcount : countCells Yellow board' = 1%nat ∧ countCells Red board' = 0%nat
                   ∧ res = None).
  { clear Hrun Hland Hwf Hplaced Hcol.
    destruct Hcases as [-> | [-> | [-> | [-> | [-> | [-> | ->]]]]]];
      vm_compute in Hset; injection Hset as <-;
      vm_compute in Hres; injection Hres as <-; done. }
  destruct Hcount as (Hyel & Hred & ->).
  eexists. split; [exact Hrun|]. cbn [board currentPlayer winner gameMode].
  done.
Qed.

Lemma botEffect_commit_after_reset_witness :
  ∃ state,
    botEffect_commit 3 (updates resetGame Examples.state_thinking) = Ok state
    ∧ placed initializeBoard 5 3 Yellow (board state)
    ∧ countCells Yellow (board state) = 1%nat
    ∧ countCells Red (board state) = 0%nat
    ∧ currentPlayer state = Red
    ∧ winner state = Null
    ∧ gameMode state = gameMode Examples.state_thinking.
Proof.
  apply (botEffect_commit_after_reset Examples.state_thinking 3).
  unfold COLS. lia.
Defined.
